(** * Calendar Tagger: the tag-staging cache and its write-back protocol

    A shallow embedding of [calendarTagger.js] (a Google Workspace add-on
    written in Apps Script) and the properties of its staging cache, its
    background flush, its auto-tag derivation, its tag catalogue and its
    home page.

    The script talks to four platform services: the per-user cache
    ([CacheService]), the per-user property store ([PropertiesService]), the
    advanced Calendar service and [SpreadsheetApp].  They are modelled by the
    state they hold; every function of the script becomes a function on that
    state which either returns a value or throws.

    Conventions of the model: strings are byte strings and [toLowerCase]
    folds the ASCII letters; a stored string is either a JSON text or a raw
    string that [JSON.parse] rejects; the cache and the property store always
    answer, whereas every call of the Calendar service may be refused; the
    time to live of a cache entry is recorded, but no entry expires within a
    run; console output is left out ([log] does nothing, as [DEBUG_MODE] is
    off), and so is [triggerEveryMinute], which installs the time trigger of
    the write-back. *)

From stdpp Require Import base strings gmap list pretty.
From Stdlib Require Import Ascii.

Set Warnings "-register-all".

(** ** JavaScript values *)

Module JS.

(** *** Strings *)

(** [s.startsWith(p)] *)
Fixpoint startsWith (s p : string) : bool :=
  match p, s with
  | EmptyString, _ => true
  | String c p', String d s' => if decide (c = d) then startsWith s' p' else false
  | String _ _, EmptyString => false
  end.

(** [s.substring(n)] *)
Fixpoint substring (n : nat) (s : string) : string :=
  match n, s with
  | 0, _ => s
  | S n', String _ s' => substring n' s'
  | S _, EmptyString => EmptyString
  end.

Definition is_upper (c : ascii) : bool :=
  let n := nat_of_ascii c in (65 <=? n) && (n <=? 90).
Definition is_lower (c : ascii) : bool :=
  let n := nat_of_ascii c in (97 <=? n) && (n <=? 122).
Definition is_digit (c : ascii) : bool :=
  let n := nat_of_ascii c in (48 <=? n) && (n <=? 57).

(** The class [\w] of a regular expression without the [u] flag. *)
Definition is_word (c : ascii) : bool :=
  is_upper c || is_lower c || is_digit c || bool_decide (c = "_"%char).

Definition lower_char (c : ascii) : ascii :=
  if is_upper c then ascii_of_nat (nat_of_ascii c + 32) else c.

(** [s.toLowerCase()]; strings are byte strings here, and only the letters
    A to Z have a lower case. *)
Fixpoint toLowerCase (s : string) : string :=
  match s with
  | EmptyString => EmptyString
  | String c s' => String (lower_char c) (toLowerCase s')
  end.

(** [s.split(sep)] for a separator of one character. *)
Fixpoint split_go (sep : ascii) (cur : string) (s : string) : list string :=
  match s with
  | EmptyString => [String.rev cur]
  | String c s' =>
      if decide (c = sep) then String.rev cur :: split_go sep EmptyString s'
      else split_go sep (String c cur) s'
  end.
Definition split (sep : ascii) (s : string) : list string :=
  split_go sep EmptyString s.

Definition is_space (c : ascii) : bool :=
  let n := nat_of_ascii c in ((9 <=? n) && (n <=? 13)) || (n =? 32).

Fixpoint trimStart (s : string) : string :=
  match s with
  | String c s' => if is_space c then trimStart s' else s
  | EmptyString => EmptyString
  end.

(** [s.trim()] *)
Definition trim (s : string) : string :=
  String.rev (trimStart (String.rev (trimStart s))).

(** All matches of [/#\w+/g] in [s], leftmost first: a match opens at a
    [#] and takes the longest run of word characters after it; a [#] with
    no word character behind it matches nothing.  [cur] is the match being
    read. *)
Definition close_match (cur : option string) : list string :=
  match cur with
  | Some (String _ (String _ _) as t) => [t]
  | _ => []
  end.

Fixpoint matches_go (cur : option string) (s : string) : list string :=
  match s with
  | EmptyString => close_match cur
  | String c s' =>
      if is_word c then
        match cur with
        | Some t => matches_go (Some (t +:+ String c EmptyString)) s'
        | None => matches_go None s'
        end
      else if decide (c = "#"%char) then
        close_match cur ++ matches_go (Some (String c EmptyString)) s'
      else close_match cur ++ matches_go None s'
  end.

Definition tagRegex_matches (s : string) : list string := matches_go None s.

(** *** JSON values *)

(** What [JSON.parse] returns.  A number is kept as the literal
    [JSON.stringify] prints for it. *)
Inductive json : Type :=
| JNull
| JBool (b : bool)
| JNum (lit : string)
| JStr (s : string)
| JArr (elements : list json)
| JObj (fields : list (string * json)).

(** The strings the services store.  A stored string is either a JSON text,
    which is represented by the value it denotes, or a string that is not
    JSON, on which [JSON.parse] throws. *)
Inductive text : Type :=
| Raw (s : string)
| Json (j : json).

Inductive exn : Type :=
| SyntaxError
| TypeError
| RangeError
| ServiceError.

Inductive outcome (A : Type) : Type :=
| Return (a : A)
| Throw (e : exn).
Global Arguments Return {A} a.
Global Arguments Throw {A} e.

(** [JSON.parse(x)] where [x] is a stored string or [null]:
    [JSON.parse(null)] is [null]. *)
Definition JSON_parse (x : option text) : outcome json :=
  match x with
  | None => Return JNull
  | Some (Json j) => Return j
  | Some (Raw _) => Throw SyntaxError
  end.

Definition JSON_stringify (j : json) : text := Json j.

(** Truthiness of a parsed value, and of a string. *)
Definition truthy (j : json) : bool :=
  match j with
  | JNull => false
  | JBool b => b
  | JNum lit => negb (bool_decide (lit = "0"))
  | JStr s => negb (bool_decide (s = ""))
  | JArr _ | JObj _ => true
  end.

Definition truthy_string (s : string) : bool := negb (bool_decide (s = "")).

Definition truthy_opt (s : option string) : bool :=
  match s with Some s => truthy_string s | None => false end.

Definition truthy_text (t : text) : bool :=
  match t with Raw s => truthy_string s | Json _ => true end.

(** [x === "..."] for a parsed value [x]. *)
Definition is_string (j : json) (s : string) : bool :=
  match j with JStr s' => bool_decide (s' = s) | _ => false end.

(** SameValueZero, the equality of [Set]: primitives by value, arrays and
    objects by identity; the arrays and objects of one parsed value are
    all distinct. *)
Definition same_value (a b : json) : bool :=
  match a, b with
  | JNull, JNull => true
  | JBool x, JBool y => bool_decide (x = y)
  | JNum x, JNum y => bool_decide (x = y)
  | JStr x, JStr y => bool_decide (x = y)
  | _, _ => false
  end.

(** *** Set objects: the elements in insertion order *)

Definition Set_has (s : list json) (x : json) : bool :=
  existsb (same_value x) s.

Definition Set_add (s : list json) (x : json) : list json :=
  if Set_has s x then s else s ++ [x].

Definition Set_delete (s : list json) (x : json) : list json :=
  filter (λ y, same_value x y = false) s.

Definition Set_of_list (l : list json) : list json :=
  foldl Set_add [] l.

Fixpoint chars (s : string) : list json :=
  match s with
  | EmptyString => []
  | String c s' => JStr (String c EmptyString) :: chars s'
  end.

(** [new Set(x)]: [null] gives the empty set, an array its elements, a
    string its characters; anything else is not iterable. *)
Definition new_Set (x : json) : outcome (list json) :=
  match x with
  | JNull => Return []
  | JArr l => Return (Set_of_list l)
  | JStr s => Return (Set_of_list (chars s))
  | JBool _ | JNum _ | JObj _ => Throw TypeError
  end.

(** [Array.from(x)] for a truthy parsed value [x]: a number, a boolean and
    an object without a [length] give the empty array. *)
Definition Array_from (x : json) : list json :=
  match x with
  | JArr l => l
  | JStr s => chars s
  | _ => []
  end.

(** *** Properties of a parsed value *)

Fixpoint digits_value (acc : N) (s : string) : option N :=
  match s with
  | EmptyString => Some acc
  | String c s' => d ← Ascii.is_nat c; digits_value (10 * acc + N.of_nat d)%N s'
  end.

(** The array index a property key denotes, if it is one: a decimal
    numeral without leading zero, below 2^32 - 1. *)
Definition array_index (key : string) : option nat :=
  match key with
  | EmptyString => None
  | _ =>
      n ← digits_value 0 key;
      if decide (pretty n = key ∧ (n < 4294967295)%N) then Some (N.to_nat n) else None
  end.

Definition has_key (key : string) (f : string * json) : bool :=
  bool_decide (f.1 = key).

(** The own property [x[key]] of a parsed value. *)
Definition get_property (x : json) (key : string) : option json :=
  match x with
  | JObj fs => snd <$> List.find (has_key key) fs
  | JArr l => i ← array_index key; l !! i
  | JStr s => i ← array_index key; chars s !! i
  | _ => None
  end.

(** The keys [for (key in x)] visits, in its order: the properties of an
    object as they are listed, the indices of an array or of a string. *)
Definition for_in_keys (x : json) : list string :=
  match x with
  | JObj fs => fst <$> fs
  | JArr l => pretty <$> seq 0 (length l)
  | JStr s => pretty <$> seq 0 (length (chars s))
  | _ => []
  end.

Fixpoint update_field (key : string) (v : json) (fs : list (string * json))
    : list (string * json) :=
  match fs with
  | [] => []
  | f :: fs' => if has_key key f then (key, v) :: fs' else f :: update_field key v fs'
  end.

(** A new property whose key is the array index [n] goes behind the
    smaller indices and before everything else. *)
Fixpoint insert_index (n : nat) (key : string) (v : json) (fs : list (string * json))
    : list (string * json) :=
  match fs with
  | [] => [(key, v)]
  | f :: fs' =>
      match array_index f.1 with
      | Some m => if decide (m < n) then f :: insert_index n key v fs'
                  else (key, v) :: fs
      | None => (key, v) :: fs
      end
  end.

(** [x[key] = v] outside strict mode.  On an object an own property is
    overwritten where it stands and a new one is listed last (an index
    among the indices); the key [__proto__] that is no own property
    reaches the prototype setter, which ignores a string.  On an array an
    index is written, with holes filled up to it, [length] refuses a
    string, any other key is a property that [JSON.stringify] does not
    print.  On a primitive the assignment is dropped. *)
Definition set_property (x : json) (key : string) (v : json) : outcome json :=
  match x with
  | JObj fs =>
      if existsb (has_key key) fs then Return (JObj (update_field key v fs))
      else if decide (key = "__proto__") then Return x
      else match array_index key with
           | Some n => Return (JObj (insert_index n key v fs))
           | None => Return (JObj (fs ++ [(key, v)]))
           end
  | JArr l =>
      match array_index key with
      | Some i =>
          if decide (i < length l) then Return (JArr (<[i := v]> l))
          else Return (JArr (l ++ replicate (i - length l) JNull ++ [v]))
      | None => if decide (key = "length") then Throw RangeError else Return x
      end
  | JNull => Throw TypeError
  | _ => Return x
  end.

(** *** The text of a JSON value, as [JSON.stringify] prints it *)

Definition hex_digit (n : nat) : ascii :=
  if n <? 10 then ascii_of_nat (48 + n) else ascii_of_nat (87 + n).

Definition escape (c : ascii) : string :=
  let n := nat_of_ascii c in
  if n =? 34 then String "\" (String c EmptyString)
  else if n =? 92 then "\\"
  else if n =? 8 then "\b"
  else if n =? 9 then "\t"
  else if n =? 10 then "\n"
  else if n =? 12 then "\f"
  else if n =? 13 then "\r"
  else if n <? 32 then
    "\u00" +:+ String (hex_digit (n / 16)) (String (hex_digit (n mod 16)) EmptyString)
  else String c EmptyString.

Fixpoint escape_all (s : string) : string :=
  match s with
  | EmptyString => EmptyString
  | String c s' => escape c +:+ escape_all s'
  end.

Definition quote (s : string) : string :=
  let q := ascii_of_nat 34 in
  String q (escape_all s +:+ String q EmptyString).

Fixpoint join (l : list string) : string :=
  match l with
  | [] => ""
  | [x] => x
  | x :: l' => x +:+ "," +:+ join l'
  end.

Fixpoint JSON_text (j : json) : string :=
  match j with
  | JNull => "null"
  | JBool true => "true"
  | JBool false => "false"
  | JNum lit => lit
  | JStr s => quote s
  | JArr l => "[" +:+ join (map JSON_text l) +:+ "]"
  | JObj fs =>
      "{" +:+ join (map (λ f, quote (fst f) +:+ ":" +:+ JSON_text (snd f)) fs) +:+ "}"
  end.

(** A stored string, read as a plain string. *)
Definition string_of (t : text) : string :=
  match t with
  | Raw s => s
  | Json j => JSON_text j
  end.

End JS.

Import JS.

(** ** The platform services *)

Module Platform.

(** *** Calendar: the remote store of events *)

Record attendee : Type := { email : option string }.

Record extended_properties : Type := {
  private : option (gmap string text);
  shared : option (gmap string text)
}.

(** An event resource, as far as the script reads it; a field that the
    resource does not carry is [None]. *)
Record event : Type := {
  summary : option string;
  attendees : option (list attendee);
  extendedProperties : option extended_properties
}.

Inductive request : Type :=
| Events_get (calendarId eventId : string)
| Events_get_fields (calendarId eventId : string)
| Events_update (calendarId eventId : string).

(** The calendars hold the events by calendar id and event id.  A request
    raises when the service refuses it (no permission, no network) or
    when it names no event.  [issued] lists the requests made so far,
    latest first. *)
Record calendar : Type := {
  events : gmap (string * string) event;
  refuses : request → bool;
  issued : list request
}.

(** *** Spreadsheets: the tabular source *)

(** The value of a cell: text, or a number, boolean or date, of which the
    script can observe the truthiness only. *)
Inductive cell : Type :=
| CellText (s : string)
| CellOther (truthiness : bool).

Global Instance cell_eq_dec : EqDecision cell.
Proof. solve_decision. Defined.

(** [columns] gives the cells of every column the sheet has, by letter. *)
Record sheet : Type := {
  lastRow : nat;
  columns : gmap string (list cell)
}.

(** *** The property store; the script uses these five keys *)

Record properties : Type := {
  spreadsheetId : option string;
  sheetName : option string;
  column : option string;
  emailDomainColumn : option string;
  userTags : option text
}.

(** *** The state of the services *)

(** A cache entry is a stored string and the seconds it was given to
    live.  [SpreadsheetApp] maps a spreadsheet id to its sheets by name.
    [uuid_source] is the sequence [Utilities.getUuid] draws from. *)
Record world : Type := {
  userCache : gmap string (text * N);
  userProperties : properties;
  Calendar : calendar;
  SpreadsheetApp : gmap string (gmap string sheet);
  uuid_source : nat → string;
  uuid_drawn : nat
}.

Definition set_userCache (f : gmap string (text * N) → gmap string (text * N))
    (w : world) : world :=
  {| userCache := f (userCache w); userProperties := userProperties w;
     Calendar := Calendar w; SpreadsheetApp := SpreadsheetApp w;
     uuid_source := uuid_source w; uuid_drawn := uuid_drawn w |}.

Definition set_userProperties (f : properties → properties) (w : world) : world :=
  {| userCache := userCache w; userProperties := f (userProperties w);
     Calendar := Calendar w; SpreadsheetApp := SpreadsheetApp w;
     uuid_source := uuid_source w; uuid_drawn := uuid_drawn w |}.

Definition set_Calendar (f : calendar → calendar) (w : world) : world :=
  {| userCache := userCache w; userProperties := userProperties w;
     Calendar := f (Calendar w); SpreadsheetApp := SpreadsheetApp w;
     uuid_source := uuid_source w; uuid_drawn := uuid_drawn w |}.

(** *** Computations: a result or an exception, and the state left *)

Definition M (A : Type) : Type := world → outcome A * world.

Global Instance M_ret : MRet M := λ A a w, (Return a, w).
Global Instance M_bind : MBind M := λ A B f m w,
  match m w with
  | (Return a, w') => f a w'
  | (Throw e, w') => (Throw e, w')
  end.
Global Instance M_throw : MThrow exn M := λ A e w, (Throw e, w).

(** [try { m } catch (error) { h }] *)
Definition try_catch {A} (m : M A) (h : exn → M A) : M A := λ w,
  match m w with
  | (Return a, w') => (Return a, w')
  | (Throw e, w') => h e w'
  end.

Definition lift {A} (o : outcome A) : M A := λ w, (o, w).

(** *** The calls the script makes *)

Definition userCache_get (key : string) : M (option text) := λ w,
  (Return (fst <$> userCache w !! key), w).

Definition userCache_put (key : string) (value : text) (ttl : N) : M unit := λ w,
  (Return (), set_userCache <[key := (value, ttl)]> w).

Definition userCache_remove (key : string) : M unit := λ w,
  (Return (), set_userCache (delete key) w).

Definition getProperties : M properties := λ w, (Return (userProperties w), w).

Definition setProperty_userTags (value : text) : M unit := λ w,
  (Return (),
   set_userProperties (λ p,
     {| spreadsheetId := spreadsheetId p; sheetName := sheetName p;
        column := column p; emailDomainColumn := emailDomainColumn p;
        userTags := Some value |}) w).

(** [userProperties.deleteProperty("userTags")] *)
Definition deleteProperty_userTags : M unit := λ w,
  (Return (),
   set_userProperties (λ p,
     {| spreadsheetId := spreadsheetId p; sheetName := sheetName p;
        column := column p; emailDomainColumn := emailDomainColumn p;
        userTags := None |}) w).

(** The four settings, and [userProperties.setProperty(key, value)] on
    them. *)
Inductive setting : Type :=
| spreadsheetId_key
| sheetName_key
| column_key
| emailDomainColumn_key.

Definition setProperty (key : setting) (value : string) : M unit := λ w,
  (Return (),
   set_userProperties (λ p,
     {| spreadsheetId :=
          match key with spreadsheetId_key => Some value | _ => spreadsheetId p end;
        sheetName := match key with sheetName_key => Some value | _ => sheetName p end;
        column := match key with column_key => Some value | _ => column p end;
        emailDomainColumn :=
          match key with
          | emailDomainColumn_key => Some value
          | _ => emailDomainColumn p
          end;
        userTags := userTags p |}) w).

Definition Utilities_getUuid : M string := λ w,
  (Return (uuid_source w (uuid_drawn w)),
   {| userCache := userCache w; userProperties := userProperties w;
      Calendar := Calendar w; SpreadsheetApp := SpreadsheetApp w;
      uuid_source := uuid_source w; uuid_drawn := S (uuid_drawn w) |}).

Definition issue (r : request) (c : calendar) : calendar :=
  {| events := events c; refuses := refuses c; issued := r :: issued c |}.

Definition answer (r : request) (calendarId eventId : string) : M event := λ w,
  let w' := set_Calendar (issue r) w in
  if refuses (Calendar w) r then (Throw ServiceError, w')
  else match events (Calendar w) !! (calendarId, eventId) with
       | Some ev => (Return ev, w')
       | None => (Throw ServiceError, w')
       end.

(** [Calendar.Events.get(calendarId, eventId)] *)
Definition Calendar_Events_get (calendarId eventId : string) : M event :=
  answer (Events_get calendarId eventId) calendarId eventId.

(** [Calendar.Events.get(calendarId, eventId, { fields: ... })] *)
Definition Calendar_Events_get_fields (calendarId eventId : string) : M event :=
  answer (Events_get_fields calendarId eventId) calendarId eventId.

(** [Calendar.Events.update(event, calendarId, eventId)]: the stored
    resource is replaced by [ev]. *)
Definition Calendar_Events_update (ev : event) (calendarId eventId : string)
    : M unit := λ w,
  let r := Events_update calendarId eventId in
  let w' := set_Calendar (issue r) w in
  if refuses (Calendar w) r then (Throw ServiceError, w')
  else match events (Calendar w) !! (calendarId, eventId) with
       | Some _ =>
           (Return (),
            set_Calendar (λ c,
              {| events := <[(calendarId, eventId) := ev]> (events c);
                 refuses := refuses c; issued := issued c |}) w')
       | None => (Throw ServiceError, w')
       end.

(** [SpreadsheetApp.openById(id)] raises when there is no such
    spreadsheet; [getSheetByName] gives [null] when there is no such
    sheet. *)
Definition SpreadsheetApp_openById (id : string) (w : world)
    : outcome (gmap string sheet) :=
  match SpreadsheetApp w !! id with
  | Some sheets => Return sheets
  | None => Throw ServiceError
  end.

(** [sheet.getRange(`${col}1:${col}${lastRow}`).getValues()]: the cells
    of rows 1 to [lastRow] of the column, row by row; a column the sheet
    does not have is no range. *)
Definition getColumnValues (sh : sheet) (col : string) : outcome (list cell) :=
  match columns sh !! col with
  | Some cells => Return (resize (lastRow sh) (CellText "") cells)
  | None => Throw ServiceError
  end.

End Platform.

(** ** The add-on *)

Module Tagger.
Import Platform.

Definition CACHE_TIME : N := 120.
Definition DEFAULT_USER_TAGS : list string :=
  ["#Work"; "#Personal"; "#Internal_Meeting"; "#External_Meeting"].

(** What the host passes to the triggers: [e.calendar] on opening an
    event, [e.parameters] on a click. *)
Record open_event : Type := {
  calendar_calendarId : option string;
  calendar_id : option string
}.

Record click_event : Type := {
  parameters_tag : string;
  parameters_cacheKey : option string
}.

(** The card, as far as it depends on the tags. *)
Inductive style : Type := FILLED | TEXT.

Record button : Type := {
  button_text : json;
  button_style : style;
  button_background : option string;
  button_cacheKey : string
}.

Record card : Type := {
  card_title : string;
  card_buttons : list button
}.

Inductive response : Type :=
| pushCard (c : card)
| updateCard (c : card)
| errorCard (message : string).

Definition buildErrorCard (message : string) : response := errorCard message.

(** *** fetchTagsFromSpreadsheet *)

Definition with_sigil (s : string) : string :=
  if startsWith s "#" then s else "#" +:+ s.

(** [values.forEach(row => ...)]: a cell that is truthy and no text has
    no [startsWith]. *)
Fixpoint collect_tags (values : list cell) (uniqueTags : list json)
    : outcome (list json) :=
  match values with
  | [] => Return uniqueTags
  | CellText s :: rest =>
      if truthy_string s then collect_tags rest (Set_add uniqueTags (JStr (with_sigil s)))
      else collect_tags rest uniqueTags
  | CellOther true :: _ => Throw TypeError
  | CellOther false :: rest => collect_tags rest uniqueTags
  end.

Definition fetchTagsFromSpreadsheet : M (list json) :=
  p ← getProperties;
  if negb (truthy_opt (spreadsheetId p)) || negb (truthy_opt (sheetName p))
     || negb (truthy_opt (column p))
  then mret []
  else
    try_catch
      (spreadsheet ← (λ w, (SpreadsheetApp_openById (default "" (spreadsheetId p)) w, w));
       match spreadsheet !! default "" (sheetName p) with
       | None => mret []
       | Some sh =>
           if decide (lastRow sh = 0) then mret []
           else
             values ← lift (getColumnValues sh (default "" (column p)));
             lift (collect_tags values [])
       end)
      (λ _, mret []).

(** *** getUserTags *)

Definition getUserTags : M json :=
  p ← getProperties;
  userTags ← lift (JSON_parse (userTags p));
  if truthy userTags then mret userTags
  else
    spreadsheetTags ← fetchTagsFromSpreadsheet;
    let userTags := (JStr <$> DEFAULT_USER_TAGS) ++ spreadsheetTags in
    let userTags := Set_of_list userTags in
    setProperty_userTags (JSON_stringify (JArr userTags));;
    mret (JArr userTags).

(** *** getAutoTagFromAttendees *)

(** How a loop body that may [return] ends. *)
Inductive flow (A : Type) : Type :=
| Next
| Returned (a : A).
Global Arguments Next {A}.
Global Arguments Returned {A} a.

Definition cell_is (c : cell) (domain : option string) : bool :=
  match c, domain with
  | CellText s, Some d => bool_decide (s = d)
  | _, _ => false
  end.

(** The tag of the matching row [i]. *)
Definition row_tag (tagData : list cell) (i : nat) : outcome (option string) :=
  match tagData !! i with
  | None => Throw TypeError
  | Some (CellText s) => if truthy_string s then Return (Some (with_sigil s)) else Return None
  | Some (CellOther true) => Throw TypeError
  | Some (CellOther false) => Return None
  end.

(** [for (let i = 0; i < emailDomainData.length; i++)], from row [i] on. *)
Fixpoint scan_rows (emailDomainData : list cell) (i : nat) (tagData : list cell)
    (domain : option string) : outcome (flow (option string)) :=
  match emailDomainData with
  | [] => Return Next
  | c :: rest =>
      if cell_is c domain then
        match row_tag tagData i with
        | Return tag => Return (Returned tag)
        | Throw e => Throw e
        end
      else scan_rows rest (S i) tagData domain
  end.

(** [for (const attendee of attendees)] *)
Fixpoint scan_attendees (attendees : list attendee) (emailDomainData tagData : list cell)
    : outcome (flow (option string)) :=
  match attendees with
  | [] => Return Next
  | attendee :: rest =>
      if truthy_opt (email attendee) then
        let domain := split "@" (default "" (email attendee)) !! 1 in
        match scan_rows emailDomainData 0 tagData domain with
        | Return Next => scan_attendees rest emailDomainData tagData
        | r => r
        end
      else scan_attendees rest emailDomainData tagData
  end.

Definition getAutoTagFromAttendees (attendees : list attendee) : M (option string) :=
  p ← getProperties;
  if negb (truthy_opt (emailDomainColumn p)) then mret None
  else if negb (truthy_opt (spreadsheetId p)) || negb (truthy_opt (sheetName p))
          || negb (truthy_opt (column p))
  then mret None
  else
    try_catch
      (spreadsheet ← (λ w, (SpreadsheetApp_openById (default "" (spreadsheetId p)) w, w));
       match spreadsheet !! default "" (sheetName p) with
       | None => mret None
       | Some sh =>
           if decide (lastRow sh = 0) then mret None
           else
             tagData ← lift (getColumnValues sh (default "" (column p)));
             emailDomainData ←
               lift (getColumnValues sh (default "" (emailDomainColumn p)));
             r ← lift (scan_attendees attendees emailDomainData tagData);
             match r with
             | Returned tag => mret tag
             | Next => mret None
             end
       end)
      (λ _, mret None).

(** *** extractTagFromTitle *)

(** [USER_TAGS.find(tag => tag.toLowerCase() === lowered)] on the
    elements [l]: an element that is no string has no [toLowerCase]. *)
Fixpoint find_tag (l : list json) (lowered : string) : outcome (option json) :=
  match l with
  | [] => Return None
  | JStr tag :: rest =>
      if decide (toLowerCase tag = lowered) then Return (Some (JStr tag))
      else find_tag rest lowered
  | _ :: _ => Throw TypeError
  end.

Definition Array_find_tag (USER_TAGS : json) (extractedTag : string)
    : outcome (option json) :=
  match USER_TAGS with
  | JArr l => find_tag l (toLowerCase extractedTag)
  | _ => Throw TypeError
  end.

(** [while ((match = tagRegex.exec(title)) !== null)] over the matches. *)
Fixpoint match_loop (USER_TAGS : json) (found : list string) (matchingTags : list json)
    : outcome (list json) :=
  match found with
  | [] => Return matchingTags
  | extractedTag :: rest =>
      match Array_find_tag USER_TAGS extractedTag with
      | Throw e => Throw e
      | Return (Some matchingTag) =>
          if truthy matchingTag then match_loop USER_TAGS rest (matchingTags ++ [matchingTag])
          else match_loop USER_TAGS rest matchingTags
      | Return None => match_loop USER_TAGS rest matchingTags
      end
  end.

Definition extractTagFromTitle (title : option string) : M (list json) :=
  if negb (truthy_opt title) then mret []
  else
    USER_TAGS ← getUserTags;
    lift (match_loop USER_TAGS (tagRegex_matches (default "" title)) []).

(** *** loadSelectedTags *)

Definition saved_selectedTags (ev : event) : option text :=
  ep ← extendedProperties ev; pr ← private ep; pr !! "selectedTags".

Definition loadSelectedTags (calendarId : string) (eventId : option string)
    : M (list json) :=
  match eventId with
  | None => mret []
  | Some eventId =>
      try_catch
        (ev ← Calendar_Events_get_fields calendarId eventId;
         match saved_selectedTags ev with
         | Some payload =>
             if truthy_text payload then
               parsed ← lift (JSON_parse (Some payload));
               lift (new_Set parsed)
             else mret []
         | None => mret []
         end)
        (λ _, mret [])
  end.

(** *** rebuildCard, showTagDialog *)

Definition selected_button (USER_TAGS : list json) (cacheKey : string) (tag : json)
    : button :=
  let isUserTag := Set_has USER_TAGS tag in
  {| button_text := tag;
     button_style := if isUserTag then FILLED else TEXT;
     button_background := if isUserTag then None else Some "#d3d3d3";
     button_cacheKey := cacheKey |}.

Definition catalog_button (cacheKey : string) (tag : json) : button :=
  {| button_text := tag; button_style := TEXT; button_background := None;
     button_cacheKey := cacheKey |}.

Definition rebuildCard (selectedTags : list json) (cacheKey : string)
    (title : option string) : M card :=
  catalog ← getUserTags;
  USER_TAGS ← lift (new_Set catalog);
  let tagButtons :=
    (selected_button USER_TAGS cacheKey <$> selectedTags)
    ++ (catalog_button cacheKey
          <$> filter (λ tag, Set_has selectedTags tag = false) USER_TAGS) in
  mret {| card_title := if truthy_opt title then default "" title else "";
          card_buttons := tagButtons |}.

Definition showTagDialog (selectedTags : list json) (cacheKey : string)
    (title : option string) : M response :=
  c ← rebuildCard selectedTags cacheKey title;
  mret (pushCard c).

(** *** onCalendarEventOpen *)

(** The branch [if (!selectedTags) { ... }] up to its write to the cache:
    the tag set to stage and the title to show. *)
Definition initialTags (calendarId : string) (eventId eventTitle : option string)
    (attendees : list attendee) : M (list json * option string) :=
  selectedTags ← loadSelectedTags calendarId eventId;
  selectedTags ←
    (if negb (bool_decide (is_Some eventId)) || bool_decide (length selectedTags = 0)
     then
       extractedTags ← extractTagFromTitle eventTitle;
       mret (foldl Set_add selectedTags extractedTags)
     else mret selectedTags);
  autoTag ← getAutoTagFromAttendees attendees;
  mret match autoTag with
       | Some tag =>
           if truthy_string tag then
             (Set_add selectedTags (JStr tag),
              match eventId with
              | None => Some (trim (tag +:+ " " +:+ (if truthy_opt eventTitle
                                                    then default "" eventTitle else "")))
              | Some _ => eventTitle
              end)
           else (selectedTags, eventTitle)
       | None => (selectedTags, eventTitle)
       end.

Definition onCalendarEventOpen (e : open_event) : M response :=
  let calendarId := calendar_calendarId e in
  '(eventId, eventTitle, attendees) ←
    (if truthy_opt (calendar_id e) then
       try_catch
         (ev ← match calendarId with
               | Some c => Calendar_Events_get c (default "" (calendar_id e))
               | None => mthrow ServiceError
               end;
          mret (calendar_id e, summary ev, default [] (Platform.attendees ev)))
         (λ _, mret (None, None, []))
     else mret (None, None, []));
  if negb (truthy_opt calendarId) then
    mret (buildErrorCard "Calendar ID is not available. Please try again later.")
  else
    let calendarId := default "" calendarId in
    userCache_put "calendarId" (Raw calendarId) 21600%N;;
    cacheKey ← match eventId with
               | Some eventId => mret ("selectedTags_" +:+ eventId)
               | None => uuid ← Utilities_getUuid; mret ("selectedTags_new_" +:+ uuid)
               end;
    cached ← userCache_get cacheKey;
    selectedTags ← lift (JSON_parse cached);
    if negb (truthy selectedTags) then
      '(selectedTags, eventTitle) ← initialTags calendarId eventId eventTitle attendees;
      userCache_put cacheKey (JSON_stringify (JArr selectedTags)) CACHE_TIME;;
      showTagDialog selectedTags cacheKey eventTitle
    else
      shown ← lift (new_Set selectedTags);
      showTagDialog shown cacheKey eventTitle.

(** *** pushModifiedEvent *)

Definition pushModifiedEvent (cacheKey : string) : M unit :=
  cached ← userCache_get "ModifiedEvents";
  parsed ← lift (JSON_parse cached);
  let stack := if truthy parsed then parsed else JObj [] in
  stack ← lift (set_property stack cacheKey (JStr "Dirty"));
  userCache_put "ModifiedEvents" (JSON_stringify stack) CACHE_TIME.

(** *** handleTagClick *)

Definition toggle (selectedTags : list json) (clickedTag : string) : list json :=
  if Set_has selectedTags (JStr clickedTag) then Set_delete selectedTags (JStr clickedTag)
  else Set_add selectedTags (JStr clickedTag).

Definition handleTagClick (e : click_event) : M response :=
  let clickedTag := parameters_tag e in
  if negb (truthy_opt (parameters_cacheKey e)) then
    mret (buildErrorCard "Cache Key is missing.")
  else
    let cacheKey := default "" (parameters_cacheKey e) in
    selectedTags ←
      try_catch
        (cached ← userCache_get cacheKey;
         parsed ← lift (JSON_parse cached);
         lift (new_Set parsed))
        (λ _, mret []);
    let selectedTags := toggle selectedTags clickedTag in
    userCache_put cacheKey (JSON_stringify (JArr selectedTags)) CACHE_TIME;;
    pushModifiedEvent cacheKey;;
    updatedCard ← rebuildCard selectedTags cacheKey None;
    mret (updateCard updatedCard).

(** *** saveTagsFromCache *)

Definition is_dirty (stack : json) (cacheKey : string) : bool :=
  match get_property stack cacheKey with
  | Some status => is_string status "Dirty"
  | None => false
  end.

(** [cacheKey.startsWith('selectedTags_new_') ? null
      : cacheKey.substring('selectedTags_'.length)] *)
Definition eventId_of (cacheKey : string) : option string :=
  if startsWith cacheKey "selectedTags_new_" then None
  else Some (substring (String.length "selectedTags_") cacheKey).

(** [event.extendedProperties = event.extendedProperties || { private: {} };
     event.extendedProperties.private.selectedTags = value]:
    extended properties without a [private] part cannot take the write. *)
Definition write_selectedTags (ev : event) (value : text) : outcome event :=
  let ep := default {| private := Some ∅; shared := None |} (extendedProperties ev) in
  match private ep with
  | Some pr =>
      Return {| summary := summary ev; attendees := Platform.attendees ev;
                extendedProperties :=
                  Some {| private := Some (<["selectedTags" := value]> pr);
                          shared := shared ep |} |}
  | None => Throw TypeError
  end.

(** The body of [for (let cacheKey in stack)]; it gives the stack the
    next round sees. *)
Definition saveTags_body (calendarId : string) (stack : json) (cacheKey : string)
    : M json :=
  if is_dirty stack cacheKey then
    let eventId := eventId_of cacheKey in
    cached ← userCache_get cacheKey;
    selectedTags ← lift (JSON_parse cached);
    if negb (truthy selectedTags) then mret stack
    else
      try_catch
        (if truthy_opt eventId then
           let eventId := default "" eventId in
           ev ← Calendar_Events_get calendarId eventId;
           ev ← lift (write_selectedTags ev
                        (JSON_stringify (JArr (Array_from selectedTags))));
           Calendar_Events_update ev calendarId eventId;;
           userCache_remove cacheKey;;
           lift (set_property stack cacheKey (JStr "Clean"))
         else mret stack)
        (λ _, mret stack)
  else mret stack.

Fixpoint saveTags_loop (calendarId : string) (keys : list string) (stack : json)
    : M json :=
  match keys with
  | [] => mret stack
  | cacheKey :: rest =>
      stack ← saveTags_body calendarId stack cacheKey;
      saveTags_loop calendarId rest stack
  end.

Definition saveTagsFromCache : M unit :=
  cached ← userCache_get "ModifiedEvents";
  stack ← lift (JSON_parse cached);
  if negb (truthy stack) then mret ()
  else
    calendarId ← userCache_get "calendarId";
    let calendarId := default "" (string_of <$> calendarId) in
    if negb (truthy_string calendarId) then mret ()
    else
      stack ← saveTags_loop calendarId (for_in_keys stack) stack;
      userCache_put "ModifiedEvents" (JSON_stringify stack) 21%N.

(** *** handleSaveConfig *)

(** [e.formInput] of the settings form, with its four inputs filled in. *)
Record config_event : Type := {
  formInput_spreadsheet_id : string;
  formInput_sheet_name : string;
  formInput_column : string;
  formInput_email_domain_column : string
}.

(** The home page, as far as it depends on the settings and the tags. *)
Record home_button : Type := {
  home_button_text : json;
  home_button_style : style;
  home_button_background : string;
  home_button_function : string
}.

Inductive tags_widget : Type :=
| buttonSet (buttons : list home_button)
| textParagraph (message : string).

Record home_card : Type := {
  input_spreadsheet_id : string;
  input_sheet_name : string;
  input_column : string;
  input_email_domain_column : string;
  currentTagsSection : tags_widget
}.

Inductive home_response : Type :=
| updateHomeCard (c : home_card)
| notification (message : string).

Definition handleSaveConfig (e : config_event) : M home_response :=
  try_catch
    (setProperty spreadsheetId_key (formInput_spreadsheet_id e);;
     setProperty sheetName_key (formInput_sheet_name e);;
     setProperty column_key (formInput_column e);;
     setProperty emailDomainColumn_key (formInput_email_domain_column e);;
     deleteProperty_userTags;;
     mret (notification "Configuration saved."))
    (λ _, mret (notification "Error saving configuration. Check logs.")).

(** *** createHomePageCard, handleRefreshTags, onHomePageOpen *)

(** [userProperties.getProperty(key) || ""] *)
Definition or_empty (x : option string) : string :=
  if truthy_opt x then default "" x else "".

(** [n > 0] for a number [n] that [JSON.parse] gave, by its literal. *)
Definition positive_literal (lit : string) : bool :=
  match lit with
  | EmptyString => false
  | String c _ => negb (bool_decide (c = "-"%char)) && negb (bool_decide (lit = "0"))
  end.

Definition home_tag_button (tag : json) : home_button :=
  {| home_button_text := tag; home_button_style := FILLED;
     home_button_background := "#d3d3d3";
     home_button_function := "handleTagClickFromHomepage" |}.

Section HomePage.

(** [v > 0] for a string, an array or an object [v]: the conversion of
    such a value to a number is the engine's, and is left open. *)
Variable greater_than_zero : json → outcome bool.

(** [currentTags.length > 0]: [null] has no properties, a boolean and a
    number have no [length], an object has the one it lists. *)
Definition length_positive (currentTags : json) : outcome bool :=
  match currentTags with
  | JNull => Throw TypeError
  | JArr l => Return (bool_decide (0 < length l))
  | JStr s => Return (bool_decide (0 < String.length s))
  | JBool _ | JNum _ => Return false
  | JObj _ =>
      match get_property currentTags "length" with
      | None | Some JNull => Return false
      | Some (JBool b) => Return b
      | Some (JNum lit) => Return (positive_literal lit)
      | Some v => greater_than_zero v
      end
  end.

(** [currentTags.forEach(tag => ...)]: an array alone has [forEach]. *)
Definition currentTags_buttons (currentTags : json) : outcome (list home_button) :=
  match currentTags with
  | JArr l => Return (home_tag_button <$> l)
  | _ => Throw TypeError
  end.

Definition createHomePageCard : M home_card :=
  p ← getProperties;
  let spreadsheetIdInput := or_empty (spreadsheetId p) in
  let sheetNameInput := or_empty (sheetName p) in
  let columnInput := or_empty (column p) in
  let emailDomainColumnInput := or_empty (emailDomainColumn p) in
  currentTags ← getUserTags;
  positive ← lift (length_positive currentTags);
  currentTagsSection ←
    (if positive : bool then
       buttons ← lift (currentTags_buttons currentTags);
       mret (buttonSet buttons)
     else
       mret (textParagraph "Error: Unable to retrieve tags. Please check your spreadsheet configuration and try refreshing."));
  mret {| input_spreadsheet_id := spreadsheetIdInput;
          input_sheet_name := sheetNameInput;
          input_column := columnInput;
          input_email_domain_column := emailDomainColumnInput;
          currentTagsSection := currentTagsSection |}.

Definition handleRefreshTags : M home_response :=
  try_catch
    (deleteProperty_userTags;;
     tags ← getUserTags;
     updatedCard ← createHomePageCard;
     mret (updateHomeCard updatedCard))
    (λ _, mret (notification "Error refreshing tags. Check logs.")).

Definition onHomePageOpen : M home_card :=
  handleRefreshTags;;
  createHomePageCard.

End HomePage.

End Tagger.

Import Platform Tagger.

(** ** The properties, in the words of the specification *)

Module Spec.

(** *** Attendee-domain lookup *)





(** A tag value with the sigil put in front if it is missing. *)
Definition normalized (value : string) : string :=
  match value with
  | EmptyString => "#"
  | String c _ => if decide (c = "#"%char) then value else String "#" value
  end.

(** The tag and domain columns the lookup reads, when the four settings
    are present and the sheet can be read. *)
Definition domain_table (w : world) : option (list cell * list cell) :=
  let p := userProperties w in
  if truthy_opt (emailDomainColumn p) && truthy_opt (spreadsheetId p)
     && truthy_opt (sheetName p) && truthy_opt (column p)
  then
    sheets ← SpreadsheetApp w !! default "" (spreadsheetId p);
    sh ← sheets !! default "" (sheetName p);
    if decide (lastRow sh = 0) then None
    else
      tags ← columns sh !! default "" (column p);
      domains ← columns sh !! default "" (emailDomainColumn p);
      Some (resize (lastRow sh) (CellText "") tags,
            resize (lastRow sh) (CellText "") domains)
  else None.

(** The first row whose domain cell is the text [d]. *)
Definition first_row (domains : list cell) (d : string) : option nat :=
  fst <$> list_find (λ c, c = CellText d) domains.




(** The tag a tag cell that is a text gives: none when it is empty, else
    the text with the sigil. *)
Definition text_tag (value : string) : option string :=
  if decide (value = "") then None else Some (normalized value).

(** What the caller of the two loops gets: a raised error is caught and
    gives no tag. *)
Definition settle (o : outcome (flow (option string))) : option string :=
  match o with
  | Return (Returned tag) => tag
  | Return Next => None
  | Throw _ => None
  end.

(** *** The tag catalogue *)

(** A list without its repetitions: of equal entries the first stays. *)
Fixpoint keep_first (l : list string) : list string :=
  match l with
  | [] => []
  | x :: l' => x :: filter (λ y, y ≠ x) (keep_first l')
  end.

(** The cells of the tag column, when the three settings are present and
    the sheet can be read; an empty sheet has none. *)
Definition tag_column (w : world) : option (list cell) :=
  let p := userProperties w in
  if truthy_opt (spreadsheetId p) && truthy_opt (sheetName p) && truthy_opt (column p)
  then
    sheets ← SpreadsheetApp w !! default "" (spreadsheetId p);
    sh ← sheets !! default "" (sheetName p);
    if decide (lastRow sh = 0) then Some []
    else
      tags ← columns sh !! default "" (column p);
      Some (resize (lastRow sh) (CellText "") tags)
  else None.

(** A cell the script cannot read as a tag: a number, boolean or date
    that is truthy. *)
Definition unreadable (c : cell) : Prop := c = CellOther true.

Global Instance unreadable_dec (c : cell) : Decision (unreadable c).
Proof. unfold unreadable. apply _. Defined.

(** The tag a cell of the tag column gives: a filled text with the sigil. *)
Definition cell_tag (c : cell) : option string :=
  match c with
  | CellText s => text_tag s
  | CellOther _ => None
  end.

(** The tags of the sheet: its filled cells in row order, with the sigil. *)
Definition sheet_tags (values : list cell) : list string := omap cell_tag values.

(** The external source fails: a setting is missing, or the spreadsheet,
    the sheet or the column is. *)
Definition source_fails (w : world) : Prop := tag_column w = None.

(** The tags [fetchTagsFromSpreadsheet] gets from the sheet: those of
    its cells, none when the source fails, and none either when one of
    the cells cannot be read. *)
Definition spreadsheet_tags (w : world) : list string :=
  match tag_column w with
  | Some values => if decide (Exists unreadable values) then [] else sheet_tags values
  | None => []
  end.

(** The memoized catalogue is absent, or parses to a falsy value. *)
Definition memo_miss (w : world) : Prop :=
  ∃ j, JSON_parse (userTags (userProperties w)) = Return j ∧ truthy j = false.

Definition catalog (tags : list string) : json := JArr (JStr <$> tags).

(** *** Title extraction *)

(** The word characters of a token. *)
Fixpoint all_word (s : string) : bool :=
  match s with
  | EmptyString => true
  | String c s' => is_word c && all_word s'
  end.

(** No word character comes first. *)
Definition word_ends (post : string) : bool :=
  match post with
  | EmptyString => true
  | String c _ => negb (is_word c)
  end.

(** [token] is a [#] of the title with the word characters behind it, all
    of them and one at least. *)
Definition token_of (title token : string) : Prop :=
  ∃ pre word post,
    title = pre +:+ "#" +:+ word +:+ post ∧ token = "#" +:+ word
    ∧ word ≠ "" ∧ all_word word = true ∧ word_ends post = true.

(** The same for a match that is being read: [open] is what was read of
    it behind its [#]. *)
Definition token_from (open s token : string) : Prop :=
  (∃ word post,
     s = word +:+ post ∧ token = "#" +:+ open +:+ word
     ∧ open +:+ word ≠ "" ∧ all_word word = true ∧ word_ends post = true)
  ∨ token_of s token.

Definition same_ignoring_case (a b : string) : Prop :=
  toLowerCase a = toLowerCase b.

Global Instance same_ignoring_case_dec (a b : string)
  : Decision (same_ignoring_case a b).
Proof. unfold same_ignoring_case. apply _. Defined.

(** The first tag of the catalogue that equals the token up to case. *)
Definition first_match (tags : list string) (token : string) : option string :=
  snd <$> list_find (λ tag, same_ignoring_case tag token) tags.

(** For every token of the title, in order, its first match. *)
Definition title_tags (tags : list string) (title : string) : list string :=
  omap (first_match tags) (tagRegex_matches title).

(** No two tags of the catalogue differ in case only. *)
Definition case_distinct (tags : list string) : Prop :=
  ∀ a b, a ∈ tags → b ∈ tags → same_ignoring_case a b → a = b.

(** *** The staging cache and the dirty index *)

(** A key the add-on issues. *)
Definition staging_key (key : string) : Prop := startsWith key "selectedTags_" = true.

(** The tag set staged under a key: what a click reads; nothing or a
    payload that is no list counts as the empty set. *)
Definition staged_set (w : world) (key : string) : list json :=
  match JSON_parse (fst <$> userCache w !! key) with
  | Return parsed =>
      match new_Set parsed with
      | Return tags => tags
      | Throw _ => []
      end
  | Throw _ => []
  end.

(** The dirty index, as it parses. *)
Definition dirty_index (w : world) : outcome json :=
  JSON_parse (fst <$> userCache w !! "ModifiedEvents").

(** The status the dirty index gives a key. *)
Definition status (w : world) (key : string) : option json :=
  match dirty_index w with
  | Return index => get_property index key
  | Throw _ => None
  end.

(** The dirty index is absent, empty or an object. *)
Definition index_ok (w : world) : Prop :=
  ∃ index, dirty_index w = Return index
           ∧ (truthy index = false ∨ ∃ fields, index = JObj fields).

Definition click (tag key : string) : click_event :=
  {| parameters_tag := tag; parameters_cacheKey := Some key |}.

(** No two elements of the list are the same value. *)
Fixpoint distinct (l : list json) : Prop :=
  match l with
  | [] => True
  | x :: l' => Set_has l' x = false ∧ distinct l'
  end.

(** *** Opening an event *)

(** Nothing usable is staged under the key. *)
Definition cache_miss (w : world) (key : string) : Prop :=
  ∃ j, JSON_parse (fst <$> userCache w !! key) = Return j ∧ truthy j = false.

(** The value of a result, [d] when it is an exception. *)
Definition value_or {A} (d : A) (o : outcome A) : A :=
  match o with
  | Return a => a
  | Throw _ => d
  end.

(** The tag set saved with the event, as [loadSelectedTags] reads it. *)
Definition loaded_tags (w : world) (calendarId eventId : string) : list json :=
  value_or [] (loadSelectedTags calendarId (Some eventId) w).1.

(** The same, from the calendar alone. *)
Definition persisted (cal : calendar) (calendarId eventId : string) : list json :=
  if refuses cal (Events_get_fields calendarId eventId) then []
  else match events cal !! (calendarId, eventId) with
       | Some ev =>
           match saved_selectedTags ev with
           | Some payload =>
               if truthy_text payload then
                 match JSON_parse (Some payload) with
                 | Return parsed => value_or [] (new_Set parsed)
                 | Throw _ => []
                 end
               else []
           | None => []
           end
       | None => []
       end.

(** The tag the attendee-domain lookup derives. *)
Definition attendee_tag (w : world) (attendees : list attendee) : option string :=
  value_or None (getAutoTagFromAttendees attendees w).1.

Definition add_tag (tags : list json) (tag : option string) : list json :=
  match tag with
  | Some t => Set_add tags (JStr t)
  | None => tags
  end.

Definition add_tags (tags extracted : list json) : list json :=
  foldl Set_add tags extracted.

(** Two states with the same settings and the same spreadsheets. *)
Definition same_sources (w1 w2 : world) : Prop :=
  spreadsheetId (userProperties w1) = spreadsheetId (userProperties w2)
  ∧ sheetName (userProperties w1) = sheetName (userProperties w2)
  ∧ column (userProperties w1) = column (userProperties w2)
  ∧ emailDomainColumn (userProperties w1) = emailDomainColumn (userProperties w2)
  ∧ SpreadsheetApp w1 = SpreadsheetApp w2.

(** The host passes no event id, or the event cannot be fetched. *)
Definition unsaved (e : open_event) (w : world) (c : string) : Prop :=
  truthy_opt (calendar_id e) = false
  ∨ ∃ eventId, calendar_id e = Some eventId
               ∧ (refuses (Calendar w) (Events_get c eventId) = true
                  ∨ events (Calendar w) !! (c, eventId) = None).

(** *** The flush *)

(** The event id a request names. *)
Definition request_event (r : request) : string :=
  match r with
  | Events_get _ i | Events_get_fields _ i | Events_update _ i => i
  end.

(** The event a key is flushed to, if any. *)
Definition target (key : string) : option string :=
  match eventId_of key with
  | Some i => if truthy_string i then Some i else None
  | None => None
  end.

(** The calendar id the last opening left in the cache. *)
Definition cached_calendar (w : world) : option string :=
  string_of <$> (fst <$> userCache w !! "calendarId").

(** Fetching the event or updating it raises. *)
Definition remote_fails (w : world) (c i : string) : Prop :=
  refuses (Calendar w) (Events_get c i) = true
  ∨ events (Calendar w) !! (c, i) = None
  ∨ refuses (Calendar w) (Events_update c i) = true.

(** The event is there, and fetching and updating it go through. *)
Definition remote_ok (w : world) (c i : string) (ev : event) : Prop :=
  refuses (Calendar w) (Events_get c i) = false
  ∧ events (Calendar w) !! (c, i) = Some ev
  ∧ refuses (Calendar w) (Events_update c i) = false.

(** The event has no extended properties yet, or has private ones. *)
Definition takes_tags (ev : event) : Prop :=
  ∀ ep, extendedProperties ev = Some ep → is_Some (private ep).

(** The state after [n] passes of the engine. *)
Fixpoint passes (n : nat) (w : world) : world :=
  match n with
  | 0 => w
  | S n' => passes n' (saveTagsFromCache w).2
  end.

(** The key addresses an event that is not saved yet. *)
Definition unsaved_key (key : string) : Prop :=
  startsWith key "selectedTags_new_" = true.

(** What holds of an unsaved key before and after a pass. *)
Definition unsaved_kept (key : string) (w : world) : Prop :=
  ∃ fs, dirty_index w = Return (JObj fs) ∧ Forall staging_key (fst <$> fs)
        ∧ is_dirty (JObj fs) key = true.

End Spec.

Import Spec.

(** ** Notions for the further properties *)

Module Notions.

(** The domain the lookup takes from an attendee: of the pieces its
    address falls into at every [@], the second. *)
Definition lookup_domain (a : attendee) : option string :=
  address ← email a;
  if truthy_string address then split "@" address !! 1 else None.

(** The memoized catalogue is absent or an array. *)
Definition memo_usable (w : world) : Prop :=
  userTags (userProperties w) = None
  ∨ ∃ l, userTags (userProperties w) = Some (Json (JArr l)).

(** The event [onCalendarEventOpen] fetches, if it fetches one. *)
Definition fetched (e : open_event) (w : world) : option event :=
  if truthy_opt (calendar_id e) then
    match calendar_calendarId e with
    | Some c =>
        if refuses (Calendar w) (Events_get c (default "" (calendar_id e))) then None
        else events (Calendar w) !! (c, default "" (calendar_id e))
    | None => None
    end
  else None.

(** The state its fetch leaves. *)
Definition after_fetch (e : open_event) (w : world) : world :=
  if truthy_opt (calendar_id e) then
    match calendar_calendarId e with
    | Some c => set_Calendar (issue (Events_get c (default "" (calendar_id e)))) w
    | None => w
    end
  else w.

(** A request that only reads. *)
Definition is_read (q : request) : Prop :=
  match q with
  | Events_get _ _ | Events_get_fields _ _ => True
  | Events_update _ _ => False
  end.

(** The calendar a request names. *)
Definition request_calendar (r : request) : string :=
  match r with
  | Events_get c _ | Events_get_fields c _ | Events_update c _ => c
  end.

(** The shared extended properties of an event, and one of its private
    ones. *)
Definition shared_properties (ev : event) : option (gmap string text) :=
  ep ← extendedProperties ev; shared ep.

Definition private_property (ev : event) (k : string) : option text :=
  ep ← extendedProperties ev; pr ← private ep; pr !! k.

(** The second event is the first but for the saved tag set. *)
Definition same_but_tags (ev ev' : event) : Prop :=
  summary ev' = summary ev
  ∧ attendees ev' = attendees ev
  ∧ shared_properties ev' = shared_properties ev
  ∧ ∀ k, k ≠ "selectedTags" → private_property ev' k = private_property ev k.

(** What a pass over the dirty index may change of the state [w]: of an
    event its saved tag set, and the log, by requests that name the
    calendar [c]. *)
Definition flushed (c : string) (w w' : world) : Prop :=
  (∀ x, option_Forall2 same_but_tags (events (Calendar w) !! x) (events (Calendar w') !! x))
  ∧ refuses (Calendar w') = refuses (Calendar w)
  ∧ userProperties w' = userProperties w
  ∧ SpreadsheetApp w' = SpreadsheetApp w
  ∧ ∃ new, issued (Calendar w') = new ++ issued (Calendar w)
           ∧ Forall (λ q, request_calendar q = c) new.

(** The settings the form leaves in the store. *)
Definition saved_config (e : config_event) : properties :=
  {| spreadsheetId := Some (formInput_spreadsheet_id e);
     sheetName := Some (formInput_sheet_name e);
     column := Some (formInput_column e);
     emailDomainColumn := Some (formInput_email_domain_column e);
     userTags := None |}.

End Notions.

Import Notions.

(** ** Sample states *)

Module Sample.

Definition no_properties : properties :=
  {| spreadsheetId := None; sheetName := None; column := None;
     emailDomainColumn := None; userTags := None |}.

Definition sheet_properties : properties :=
  {| spreadsheetId := Some "sheet-1"; sheetName := Some "Tags"; column := Some "A";
     emailDomainColumn := Some "B"; userTags := None |}.

Definition open_calendar (evs : gmap (string * string) event) : calendar :=
  {| events := evs; refuses := λ _, false; issued := [] |}.

Definition uuids (n : nat) : string := "uuid-" +:+ pretty n.

(** The table [{"example.com": "Sales"}]. *)
Definition sales_sheet : sheet :=
  {| lastRow := 1;
     columns := {[ "A" := [CellText "Sales"]; "B" := [CellText "example.com"] ]} |}.

Definition sales_world : world :=
  {| userCache := ∅; userProperties := sheet_properties;
     Calendar := open_calendar ∅;
     SpreadsheetApp := {[ "sheet-1" := {[ "Tags" := sales_sheet ]} ]};
     uuid_source := uuids; uuid_drawn := 0 |}.

Definition guest (address : string) : attendee := {| email := Some address |}.

(** A table whose first row for [example.com] has no tag, while a later
    row for it and the row of [other.org] have one. *)
Definition gap_sheet : sheet :=
  {| lastRow := 3;
     columns := {[ "A" := [CellText ""; CellText "Sales"; CellText "Ops"];
                   "B" := [CellText "example.com"; CellText "example.com";
                           CellText "other.org"] ]} |}.

Definition gap_world : world :=
  {| userCache := ∅; userProperties := sheet_properties;
     Calendar := open_calendar ∅;
     SpreadsheetApp := {[ "sheet-1" := {[ "Tags" := gap_sheet ]} ]};
     uuid_source := uuids; uuid_drawn := 0 |}.

(** A sheet whose tag column holds a number between two tags. *)
Definition numeric_sheet : sheet :=
  {| lastRow := 3;
     columns := {[ "A" := [CellText "Sales"; CellOther true; CellText "Ops"];
                   "B" := [CellText "example.com"; CellText "other.org";
                           CellText "third.net"] ]} |}.

Definition numeric_world : world :=
  {| userCache := ∅; userProperties := sheet_properties;
     Calendar := open_calendar ∅;
     SpreadsheetApp := {[ "sheet-1" := {[ "Tags" := numeric_sheet ]} ]};
     uuid_source := uuids; uuid_drawn := 0 |}.

(** No settings, nothing cached, no events. *)
Definition bare_world : world :=
  {| userCache := ∅; userProperties := no_properties;
     Calendar := open_calendar ∅; SpreadsheetApp := ∅;
     uuid_source := uuids; uuid_drawn := 0 |}.

(** A memoized catalogue with two tags that differ in case only, as the
    default [#Work] and a sheet row [work] give. *)
Definition case_world : world :=
  {| userCache := ∅;
     userProperties :=
       {| spreadsheetId := None; sheetName := None; column := None;
          emailDomainColumn := None;
          userTags := Some (Json (catalog ["#Work"; "#work"])) |};
     Calendar := open_calendar ∅; SpreadsheetApp := ∅;
     uuid_source := uuids; uuid_drawn := 0 |}.

(** The memoized catalogue [["#Work", "#Personal"]]. *)
Definition two_tag_world : world :=
  {| userCache := ∅;
     userProperties :=
       {| spreadsheetId := None; sheetName := None; column := None;
          emailDomainColumn := None;
          userTags := Some (Json (catalog ["#Work"; "#Personal"])) |};
     Calendar := open_calendar ∅; SpreadsheetApp := ∅;
     uuid_source := uuids; uuid_drawn := 0 |}.

(** A tag set staged under a key that the dirty index marks Clean. *)
Definition clean_world : world :=
  {| userCache :=
       {[ "selectedTags_e1" := (Json (JArr [JStr "#Work"]), 120%N);
          "ModifiedEvents" := (Json (JObj [("selectedTags_e1", JStr "Clean")]), 21%N) ]};
     userProperties := no_properties;
     Calendar := open_calendar ∅; SpreadsheetApp := ∅;
     uuid_source := uuids; uuid_drawn := 0 |}.

(** The event [e1] of the calendar [primary] carries the saved tag set
    [["#Work"]] and the guest [a@example.com]; the sheet maps
    [example.com] to [Sales]. *)
Definition tagged_event : event :=
  {| summary := Some "Review";
     attendees := Some [guest "a@example.com"];
     extendedProperties :=
       Some {| private := Some {[ "selectedTags" := Json (JArr [JStr "#Work"]) ]};
               shared := None |} |}.

Definition tagged_world : world :=
  {| userCache := ∅; userProperties := sheet_properties;
     Calendar := open_calendar {[ ("primary", "e1") := tagged_event ]};
     SpreadsheetApp := {[ "sheet-1" := {[ "Tags" := sales_sheet ]} ]};
     uuid_source := uuids; uuid_drawn := 0 |}.

Definition open_e1 : open_event :=
  {| calendar_calendarId := Some "primary"; calendar_id := Some "e1" |}.

(** *** States of the flush *)

Definition plain_event (title : string) : event :=
  {| summary := Some title; attendees := None; extendedProperties := None |}.

Definition dirty (keys : list string) : json :=
  JObj ((λ key, (key, JStr "Dirty")) <$> keys).

(** Three Dirty keys; the event of the second was deleted upstream. *)
Definition three_key_world : world :=
  {| userCache :=
       {[ "calendarId" := (Raw "primary", 21600%N);
          "ModifiedEvents" :=
            (Json (dirty ["selectedTags_e1"; "selectedTags_e2"; "selectedTags_e3"]),
             120%N);
          "selectedTags_e1" := (Json (JArr [JStr "#Work"]), 120%N);
          "selectedTags_e2" := (Json (JArr [JStr "#Personal"]), 120%N);
          "selectedTags_e3" := (Json (JArr [JStr "#Work"; JStr "#Sales"]), 120%N) ]};
     userProperties := no_properties;
     Calendar := open_calendar {[ ("primary", "e1") := plain_event "Standup";
                                  ("primary", "e3") := plain_event "Review" ]};
     SpreadsheetApp := ∅; uuid_source := uuids; uuid_drawn := 0 |}.

(** A Dirty key whose event has shared extended properties only. *)
Definition shared_only_event : event :=
  {| summary := Some "Imported"; attendees := None;
     extendedProperties :=
       Some {| private := None; shared := Some {[ "source" := Raw "import" ]} |} |}.

Definition shared_only_world : world :=
  {| userCache :=
       {[ "calendarId" := (Raw "primary", 21600%N);
          "ModifiedEvents" := (Json (dirty ["selectedTags_e1"]), 120%N);
          "selectedTags_e1" := (Json (JArr [JStr "#Work"]), 120%N) ]};
     userProperties := no_properties;
     Calendar := open_calendar {[ ("primary", "e1") := shared_only_event ]};
     SpreadsheetApp := ∅; uuid_source := uuids; uuid_drawn := 0 |}.

(** Two Dirty keys; the payload staged under the first is no JSON. *)
Definition malformed_world : world :=
  {| userCache :=
       {[ "calendarId" := (Raw "primary", 21600%N);
          "ModifiedEvents" :=
            (Json (dirty ["selectedTags_e1"; "selectedTags_e2"]), 120%N);
          "selectedTags_e1" := (Raw "{oops", 120%N);
          "selectedTags_e2" := (Json (JArr [JStr "#Work"]), 120%N) ]};
     userProperties := no_properties;
     Calendar := open_calendar {[ ("primary", "e1") := plain_event "Standup";
                                  ("primary", "e2") := plain_event "Review" ]};
     SpreadsheetApp := ∅; uuid_source := uuids; uuid_drawn := 0 |}.

(** A Dirty key of an unsaved event beside one of a saved event. *)
Definition unsaved_world : world :=
  {| userCache :=
       {[ "calendarId" := (Raw "primary", 21600%N);
          "ModifiedEvents" :=
            (Json (dirty ["selectedTags_new_uuid-0"; "selectedTags_e1"]), 120%N);
          "selectedTags_new_uuid-0" := (Json (JArr [JStr "#Work"]), 120%N);
          "selectedTags_e1" := (Json (JArr [JStr "#Personal"]), 120%N) ]};
     userProperties := no_properties;
     Calendar := open_calendar {[ ("primary", "e1") := plain_event "Standup" ]};
     SpreadsheetApp := ∅; uuid_source := uuids; uuid_drawn := 0 |}.

(** *** States of the further properties *)

(** The event [e1] with a tag set staged for it, 57 seconds before it
    expires. *)
Definition staged_world : world :=
  {| userCache := {[ "selectedTags_e1" := (Json (JArr [JStr "#Personal"]), 57%N) ]};
     userProperties := sheet_properties;
     Calendar := open_calendar {[ ("primary", "e1") := tagged_event ]};
     SpreadsheetApp := {[ "sheet-1" := {[ "Tags" := sales_sheet ]} ]};
     uuid_source := uuids; uuid_drawn := 0 |}.

(** A dirty index without a Dirty key, and the calendar id. *)
Definition idle_world : world :=
  {| userCache :=
       {[ "calendarId" := (Raw "primary", 21600%N);
          "ModifiedEvents" := (Json (JObj [("selectedTags_e1", JStr "Clean")]), 120%N) ]};
     userProperties := no_properties;
     Calendar := open_calendar {[ ("primary", "e1") := plain_event "Standup" ]};
     SpreadsheetApp := ∅; uuid_source := uuids; uuid_drawn := 0 |}.

(** Opening a new event of the calendar [team]. *)
Definition open_new_team : open_event :=
  {| calendar_calendarId := Some "team"; calendar_id := None |}.

(** The state [clean_world] with a dirty index that is no JSON. *)
Definition broken_index_world : world :=
  {| userCache :=
       {[ "selectedTags_e1" := (Json (JArr [JStr "#Work"]), 120%N);
          "ModifiedEvents" := (Raw "{oops", 120%N) ]};
     userProperties := no_properties;
     Calendar := open_calendar ∅; SpreadsheetApp := ∅;
     uuid_source := uuids; uuid_drawn := 0 |}.

(** A Dirty key under which an object is staged; the event has tags saved. *)
Definition object_payload_world : world :=
  {| userCache :=
       {[ "calendarId" := (Raw "primary", 21600%N);
          "ModifiedEvents" := (Json (dirty ["selectedTags_e1"]), 120%N);
          "selectedTags_e1" := (Json (JObj [("tag", JStr "#Work")]), 120%N) ]};
     userProperties := no_properties;
     Calendar := open_calendar {[ ("primary", "e1") := tagged_event ]};
     SpreadsheetApp := ∅; uuid_source := uuids; uuid_drawn := 0 |}.

End Sample.

(** ** Proofs *)

(** *** Running the computations *)

Ltac unfold_M :=
  unfold mbind, M_bind, mret, M_ret, mthrow, M_throw, try_catch, lift,
    getProperties in *.

(** *** Strings *)

Lemma append_cons (c : ascii) (s t : string) :
  String c s +:+ t = String c (s +:+ t).
Proof. reflexivity. Qed.

Lemma append_nil_r (s : string) : s +:+ "" = s.
Proof. induction s as [|c s IH]; [done|]. by rewrite append_cons, IH. Qed.

Lemma append_assoc (s t u : string) : (s +:+ t) +:+ u = s +:+ (t +:+ u).
Proof. induction s as [|c s IH]; [done|]. by rewrite !append_cons, IH. Qed.







Lemma with_sigil_normalized (value : string) : with_sigil value = normalized value.
Proof.
  unfold with_sigil, normalized. destruct value as [|c rest]; [done|].
  cbn [startsWith]. destruct (decide ("#"%char = c)) as [<-|Hc].
  - rewrite decide_True by done. by destruct rest.
  - by rewrite decide_False by done.
Qed.

(** *** Attendee-domain lookup *)

Lemma cell_is_text (c : cell) (d : string) :
  cell_is c (Some d) = bool_decide (c = CellText d).
Proof.
  destruct c as [s|b]; simpl; [|done].
  apply bool_decide_ext. split; [by intros ->|by intros [= ->]].
Qed.

Lemma scan_rows_no_domain (domains tags : list cell) (i : nat) :
  scan_rows domains i tags None = Return Next.
Proof.
  revert i. induction domains as [|c domains IH]; intros i; simpl; [done|].
  destruct c; simpl; apply IH.
Qed.

Lemma scan_rows_first (domains tags : list cell) (i : nat) (d : string) :
  scan_rows domains i tags (Some d) =
    match list_find (λ c, c = CellText d) domains with
    | Some (j, _) =>
        match row_tag tags (i + j) with
        | Return tag => Return (Returned tag)
        | Throw e => Throw e
        end
    | None => Return Next
    end.
Proof.
  revert i. induction domains as [|c domains IH]; intros i; [done|].
  cbn [scan_rows list_find]. rewrite cell_is_text.
  destruct (decide (c = CellText d)) as [Hc|Hc].
  - rewrite bool_decide_eq_true_2 by done. by rewrite Nat.add_0_r.
  - rewrite bool_decide_eq_false_2 by done. rewrite IH.
    destruct (list_find _ domains) as [[j x]|]; simpl; [|done].
    by rewrite Nat.add_succ_r.
Qed.



Lemma getAutoTagFromAttendees_table (attendees : list attendee) (w : world) :
  getAutoTagFromAttendees attendees w =
    (Return match domain_table w with
            | Some (tags, domains) => settle (scan_attendees attendees domains tags)
            | None => None
            end, w).
Proof.
  unfold getAutoTagFromAttendees, domain_table. unfold_M.
  unfold SpreadsheetApp_openById, getColumnValues.
  destruct (truthy_opt (emailDomainColumn (userProperties w))); simpl; [|done].
  destruct (truthy_opt (spreadsheetId (userProperties w))); simpl; [|done].
  destruct (truthy_opt (sheetName (userProperties w))); simpl; [|done].
  destruct (truthy_opt (column (userProperties w))); simpl; [|done].
  destruct (SpreadsheetApp w !! _) as [sheets|]; simpl; [|done].
  destruct (sheets !! _) as [sh|]; simpl; [|done].
  destruct (decide (lastRow sh = 0)); simpl; [done|].
  destruct (columns sh !! default "" (column _)) as [tags|]; simpl; [|done].
  destruct (columns sh !! default "" (emailDomainColumn _)) as [domains|]; simpl; [|done].
  destruct (scan_attendees _ _ _) as [[|tag]|e]; done.
Qed.




Lemma scan_attendees_skip (before rest : list attendee) (domains tags : list cell) :
  (∀ b address, b ∈ before → email b = Some address →
     scan_rows domains 0 tags (split "@" address !! 1) = Return Next) →
  scan_attendees (before ++ rest) domains tags = scan_attendees rest domains tags.
Proof.
  induction before as [|b before IH]; intros Hnone; [done|].
  cbn [app scan_attendees].
  destruct (email b) as [address|] eqn:Hb; cbn [truthy_opt default]; unfold id.
  - destruct (truthy_string address).
    + rewrite (Hnone b address); [|left|done]. apply IH.
      intros b' a' Hin. apply Hnone. by right.
    + apply IH. intros b' a' Hin. apply Hnone. by right.
  - apply IH. intros b' a' Hin. apply Hnone. by right.
Qed.

(** C10: when the first row that matches the domain of the first attendee
    with a matching row has an empty tag cell, the lookup gives no tag,
    whatever the later rows and the remaining attendees are. *)
Theorem empty_tag_cell_ends_lookup
    (before after : list attendee) (a : attendee) (w : world)
    (tags domains : list cell) (address d : string) (i : nat) :
  domain_table w = Some (tags, domains) →
  (∀ b address, b ∈ before → email b = Some address →
     scan_rows domains 0 tags (split "@" address !! 1) = Return Next) →
  email a = Some address → address ≠ "" →
  split "@" address !! 1 = Some d →
  first_row domains d = Some i →
  tags !! i = Some (CellText "") →
  getAutoTagFromAttendees (before ++ a :: after) w = (Return None, w).
Proof.
  intros Htable Hbefore Ha Haddr Hd Hrow Htag.
  rewrite getAutoTagFromAttendees_table, Htable.
  rewrite scan_attendees_skip by done.
  cbn [scan_attendees]. rewrite Ha. cbn [truthy_opt default]. unfold id.
  unfold truthy_string. rewrite bool_decide_eq_false_2 by done. cbn [negb].
  rewrite Hd, scan_rows_first.
  unfold first_row in Hrow.
  destruct (list_find _ domains) as [[j x]|]; [|done].
  injection Hrow as ->. rewrite Nat.add_0_l.
  unfold row_tag. by rewrite Htag.
Qed.

Lemma empty_tag_cell_ends_lookup_witness :
  getAutoTagFromAttendees
    ([] ++ Sample.guest "a@example.com" :: [Sample.guest "b@other.org"]) Sample.gap_world
  = (Return None, Sample.gap_world).
Proof.
  apply (empty_tag_cell_ends_lookup [] [Sample.guest "b@other.org"]
           (Sample.guest "a@example.com") Sample.gap_world
           [CellText ""; CellText "Sales"; CellText "Ops"]
           [CellText "example.com"; CellText "example.com"; CellText "other.org"]
           "a@example.com" "example.com" 0).
  - reflexivity.
  - intros b address Hb. by apply elem_of_nil in Hb.
  - reflexivity.
  - discriminate.
  - reflexivity.
  - reflexivity.
  - reflexivity.
Defined.

(** *** The tag catalogue *)

Lemma Set_has_strings (seen : list string) (x : string) :
  Set_has (JStr <$> seen) (JStr x) = bool_decide (x ∈ seen).
Proof.
  unfold Set_has. induction seen as [|y seen IH]; [done|].
  cbn [fmap list_fmap existsb same_value]. rewrite IH.
  destruct (decide (x = y)) as [->|Hxy].
  - rewrite (bool_decide_eq_true_2 (y = y)) by done. simpl.
    symmetry. apply bool_decide_eq_true_2. left.
  - rewrite (bool_decide_eq_false_2 (x = y)) by done. simpl.
    apply bool_decide_ext. rewrite elem_of_cons. naive_solver.
Qed.

Lemma filter_filter_seen (seen l : list string) (x : string) :
  filter (λ y, y ∉ seen ++ [x]) l = filter (λ y, y ∉ seen) (filter (λ y, y ≠ x) l).
Proof.
  induction l as [|y l IH]; [done|].
  rewrite (filter_cons (λ y, y ≠ x)). destruct (decide (y ≠ x)) as [Hy|Hy].
  - rewrite !filter_cons. destruct (decide (y ∉ seen)) as [Hs|Hs].
    + rewrite decide_True; [by rewrite IH|]. set_solver.
    + rewrite decide_False; [done|]. set_solver.
  - rewrite filter_cons, decide_False; [done|]. apply dec_stable in Hy. set_solver.
Qed.

Lemma filter_seen_member (seen l : list string) (x : string) :
  x ∈ seen → filter (λ y, y ∉ seen) (filter (λ y, y ≠ x) l) = filter (λ y, y ∉ seen) l.
Proof.
  intros Hx. induction l as [|y l IH]; [done|].
  rewrite (filter_cons (λ y, y ≠ x)). destruct (decide (y ≠ x)) as [Hy|Hy].
  - rewrite !filter_cons. by rewrite IH.
  - apply dec_stable in Hy. subst y. rewrite IH.
    rewrite (filter_cons _ x), decide_False; [done|]. by intros ?.
Qed.

Lemma foldl_Set_add_strings (seen l : list string) :
  foldl Set_add (JStr <$> seen) (JStr <$> l)
  = JStr <$> (seen ++ filter (λ y, y ∉ seen) (keep_first l)).
Proof.
  revert seen. induction l as [|x l IH]; intros seen.
  - simpl. by rewrite app_nil_r.
  - cbn [fmap list_fmap foldl keep_first]. unfold Set_add at 2.
    rewrite Set_has_strings. rewrite filter_cons.
    destruct (decide (x ∈ seen)) as [Hx|Hx].
    + rewrite bool_decide_eq_true_2 by done. rewrite decide_False by (by intros ?).
      change (list_fmap string json JStr) with (fmap (M:=list) JStr).
      by rewrite IH, filter_seen_member.
    + rewrite bool_decide_eq_false_2 by done. rewrite decide_True by done.
      change (list_fmap string json JStr) with (fmap (M:=list) JStr).
      change [JStr x] with (JStr <$> [x]). rewrite <- fmap_app.
      rewrite IH, filter_filter_seen. by rewrite <- app_assoc.
Qed.

Lemma Set_of_list_strings (l : list string) :
  Set_of_list (JStr <$> l) = JStr <$> keep_first l.
Proof.
  unfold Set_of_list. change [] with (JStr <$> @nil string).
  rewrite foldl_Set_add_strings. simpl. f_equal.
  induction (keep_first l) as [|y k IH]; [done|].
  rewrite filter_cons, decide_True by (by intros ?%elem_of_nil). by f_equal.
Qed.

Lemma filter_drop_excluded (P : string → Prop) `{!∀ y, Decision (P y)}
    (l : list string) (x : string) :
  ¬ P x → filter P (filter (λ y, y ≠ x) l) = filter P l.
Proof.
  intros Hx. induction l as [|y l IH]; [done|].
  rewrite (filter_cons (λ y, y ≠ x)). destruct (decide (y ≠ x)) as [Hy|Hy].
  - rewrite !filter_cons. by rewrite IH.
  - apply dec_stable in Hy. subst y. rewrite IH.
    by rewrite (filter_cons P x), decide_False.
Qed.

Lemma filter_swap (P Q : string → Prop) `{!∀ y, Decision (P y)} `{!∀ y, Decision (Q y)}
    (l : list string) :
  filter P (filter Q l) = filter Q (filter P l).
Proof.
  induction l as [|y l IH]; [done|].
  rewrite (filter_cons Q), (filter_cons P).
  destruct (decide (Q y)) as [HQ|HQ], (decide (P y)) as [HP|HP];
    rewrite ?filter_cons, ?decide_True, ?decide_False by done; by rewrite ?IH.
Qed.

Lemma keep_first_filter (P : string → Prop) `{!∀ y, Decision (P y)} (l : list string) :
  keep_first (filter P l) = filter P (keep_first l).
Proof.
  induction l as [|x l IH]; [done|].
  cbn [keep_first]. rewrite !filter_cons.
  destruct (decide (P x)) as [Hx|Hx].
  - cbn [keep_first]. rewrite IH. f_equal. apply filter_swap.
  - rewrite IH. by rewrite filter_drop_excluded.
Qed.

Lemma keep_first_idemp (l : list string) : keep_first (keep_first l) = keep_first l.
Proof.
  induction l as [|x l IH]; [done|].
  cbn [keep_first]. rewrite keep_first_filter, IH. f_equal.
  rewrite list_filter_filter. apply list_filter_iff. naive_solver.
Qed.

Lemma keep_first_app_keep_first (l k : list string) :
  keep_first (l ++ keep_first k) = keep_first (l ++ k).
Proof.
  induction l as [|x l IH]; [apply keep_first_idemp|].
  cbn [app keep_first]. by rewrite IH.
Qed.

Lemma keep_first_NoDup (l : list string) : NoDup l → keep_first l = l.
Proof.
  induction 1 as [|x l Hx Hl IH]; [done|].
  cbn [keep_first]. rewrite IH. f_equal.
  clear IH Hl. induction l as [|y l IH]; [done|].
  rewrite filter_cons, decide_True by set_solver. f_equal. apply IH. set_solver.
Qed.

Lemma collect_tags_spec (values : list cell) (uniqueTags : list json) :
  collect_tags values uniqueTags =
    if decide (Exists unreadable values) then Throw TypeError
    else Return (foldl Set_add uniqueTags (JStr <$> sheet_tags values)).
Proof.
  revert uniqueTags. induction values as [|c values IH]; intros uniqueTags.
  - rewrite decide_False; [done|]. by intros ?%Exists_nil.
  - destruct c as [s|[]]; cbn [collect_tags].
    + rewrite IH, IH. unfold sheet_tags. cbn [omap list_omap cell_tag].
      unfold truthy_string, text_tag.
      destruct (decide (s = "")) as [->|Hs]; simpl.
      * destruct (decide (Exists unreadable values)) as [He|He].
        -- rewrite decide_True; [done|]. by right.
        -- rewrite decide_False; [done|]. by intros [[=]|?]%Exists_cons.
      * rewrite bool_decide_eq_false_2 by done. simpl. rewrite with_sigil_normalized.
        destruct (decide (Exists unreadable values)) as [He|He].
        -- rewrite decide_True; [done|]. by right.
        -- rewrite decide_False; [done|]. by intros [[=]|?]%Exists_cons.
    + rewrite decide_True; [done|]. by left.
    + rewrite IH. unfold sheet_tags. cbn [omap list_omap cell_tag].
      destruct (decide (Exists unreadable values)) as [He|He].
      * rewrite decide_True; [done|]. by right.
      * rewrite decide_False; [done|]. by intros [[=]|?]%Exists_cons.
Qed.

Lemma fetchTagsFromSpreadsheet_tags (w : world) :
  fetchTagsFromSpreadsheet w = (Return (JStr <$> keep_first (spreadsheet_tags w)), w).
Proof.
  unfold fetchTagsFromSpreadsheet, spreadsheet_tags, tag_column. unfold_M.
  unfold SpreadsheetApp_openById, getColumnValues.
  destruct (truthy_opt (spreadsheetId (userProperties w))); simpl; [|done].
  destruct (truthy_opt (sheetName (userProperties w))); simpl; [|done].
  destruct (truthy_opt (column (userProperties w))); simpl; [|done].
  destruct (SpreadsheetApp w !! _) as [sheets|]; simpl; [|done].
  destruct (sheets !! _) as [sh|]; simpl; [|done].
  destruct (decide (lastRow sh = 0)); simpl; [done|].
  destruct (columns sh !! _) as [tags|]; simpl; [|done].
  rewrite collect_tags_spec.
  destruct (decide (Exists unreadable _)); [done|].
  change [] with (JStr <$> @nil string) at 1.
  rewrite foldl_Set_add_strings. simpl. do 3 f_equal.
  induction (keep_first _) as [|y k IH]; [done|].
  rewrite filter_cons, decide_True by (by intros ?%elem_of_nil). by f_equal.
Qed.

Lemma getUserTags_run (w : world) :
  getUserTags w =
    match JSON_parse (userTags (userProperties w)) with
    | Throw e => (Throw e, w)
    | Return j =>
        if truthy j then (Return j, w)
        else
          let tags := keep_first (DEFAULT_USER_TAGS ++ spreadsheet_tags w) in
          (Return (catalog tags), (setProperty_userTags (JSON_stringify (catalog tags)) w).2)
    end.
Proof.
  unfold getUserTags. unfold_M.
  destruct (JSON_parse (userTags (userProperties w))) as [j|e]; [|done].
  destruct (truthy j); [done|].
  rewrite fetchTagsFromSpreadsheet_tags.
  rewrite <- fmap_app, Set_of_list_strings, keep_first_app_keep_first.
  reflexivity.
Qed.

(** C9, on the code: on a memoization miss [getUserTags] raises nothing,
    and returns and memoizes a catalogue.  When the sheet answers and each
    of its cells can be read, the catalogue is the default tags followed by
    the tags of the sheet, without repetitions, the first of equal tags
    staying; when the external source fails (a setting, the spreadsheet,
    the sheet or the column is missing) it is the default list.  The code
    leaves the claim on a sheet whose tag column holds a number: for the
    column [Sales, 42, Ops] the source does not fail, the sheet has the
    tags [#Sales] and [#Ops], and the catalogue is the default list
    alone. *)
Theorem getUserTags_on_miss :
  (∀ w : world, memo_miss w →
     (∃ tags, getUserTags w =
                (Return (catalog tags),
                 (setProperty_userTags (JSON_stringify (catalog tags)) w).2))
     ∧ (∀ values, tag_column w = Some values → ¬ Exists unreadable values →
          getUserTags w =
            (let tags := keep_first (DEFAULT_USER_TAGS ++ sheet_tags values) in
             (Return (catalog tags),
              (setProperty_userTags (JSON_stringify (catalog tags)) w).2)))
     ∧ (source_fails w →
          getUserTags w =
            (Return (catalog DEFAULT_USER_TAGS),
             (setProperty_userTags (JSON_stringify (catalog DEFAULT_USER_TAGS)) w).2)))
  ∧ (let w := Sample.numeric_world in
     let values := [CellText "Sales"; CellOther true; CellText "Ops"] in
     memo_miss w
     ∧ tag_column w = Some values
     ∧ ¬ source_fails w
     ∧ sheet_tags values = ["#Sales"; "#Ops"]
     ∧ getUserTags w =
         (Return (catalog DEFAULT_USER_TAGS),
          (setProperty_userTags (JSON_stringify (catalog DEFAULT_USER_TAGS)) w).2)).
Proof.
  assert (∀ w, memo_miss w → getUserTags w =
    (let tags := keep_first (DEFAULT_USER_TAGS ++ spreadsheet_tags w) in
     (Return (catalog tags), (setProperty_userTags (JSON_stringify (catalog tags)) w).2)))
    as Hrun.
  { intros w (j & Hparse & Hfalsy). by rewrite getUserTags_run, Hparse, Hfalsy. }
  split.
  - intros w Hmiss. specialize (Hrun w Hmiss). split; [|split].
    + eexists. exact Hrun.
    + intros values Hcolumn Hreadable. rewrite Hrun. unfold spreadsheet_tags.
      rewrite Hcolumn. by rewrite decide_False.
    + intros Hfails. rewrite Hrun. unfold spreadsheet_tags.
      unfold source_fails in Hfails. rewrite Hfails. reflexivity.
  - cbv zeta.
    assert (memo_miss Sample.numeric_world) as Hmiss by (by exists JNull).
    split; [exact Hmiss|]. split; [reflexivity|]. split; [discriminate|].
    split; [reflexivity|]. rewrite (Hrun _ Hmiss). reflexivity.
Qed.

Lemma getUserTags_on_miss_witness :
  getUserTags Sample.sales_world =
    (Return (catalog ["#Work"; "#Personal"; "#Internal_Meeting"; "#External_Meeting";
                      "#Sales"]),
     (setProperty_userTags
        (JSON_stringify (catalog ["#Work"; "#Personal"; "#Internal_Meeting";
                                  "#External_Meeting"; "#Sales"]))
        Sample.sales_world).2)
  ∧ source_fails Sample.bare_world
  ∧ getUserTags Sample.bare_world =
      (Return (catalog DEFAULT_USER_TAGS),
       (setProperty_userTags (JSON_stringify (catalog DEFAULT_USER_TAGS))
          Sample.bare_world).2).
Proof.
  split; [|split; [reflexivity|]].
  - apply (proj1 (proj2 (proj1 getUserTags_on_miss Sample.sales_world
                           (ex_intro _ JNull (conj eq_refl eq_refl))))
             [CellText "Sales"] eq_refl).
    intros [Hcell|Hrest]%Exists_cons; [discriminate Hcell|by apply Exists_nil in Hrest].
  - apply (proj2 (proj2 (proj1 getUserTags_on_miss Sample.bare_world
                           (ex_intro _ JNull (conj eq_refl eq_refl))))).
    reflexivity.
Defined.

(** *** Title extraction *)

Lemma close_match_nonempty (cur : option string) :
  Forall (λ token, token ≠ "") (close_match cur).
Proof.
  destruct cur as [[|a [|b t]]|]; simpl; try by constructor.
Qed.

Lemma matches_go_nonempty (cur : option string) (s : string) :
  Forall (λ token, token ≠ "") (matches_go cur s).
Proof.
  revert cur. induction s as [|c s IH]; intros cur; cbn [matches_go].
  - apply close_match_nonempty.
  - destruct (is_word c); [destruct cur; apply IH|].
    destruct (decide (c = "#"%char)); apply Forall_app;
      (split; [apply close_match_nonempty|apply IH]).
Qed.

Lemma append_nil_l (s : string) : "" +:+ s = s.
Proof. reflexivity. Qed.

Lemma hash_append (s : string) : "#" +:+ s = String "#" s.
Proof. reflexivity. Qed.

Lemma hash_not_word : is_word "#" = false.
Proof. reflexivity. Qed.

Lemma token_of_nil (token : string) : ¬ token_of "" token.
Proof. intros (pre & word & post & Heq & _). by destruct pre. Qed.

Lemma token_of_skip (c : ascii) (s token : string) :
  c ≠ "#"%char → token_of (String c s) token ↔ token_of s token.
Proof.
  intros Hc. split.
  - intros (pre & word & post & Heq & Hrest).
    destruct pre as [|d pre].
    { rewrite append_nil_l, hash_append in Heq. by injection Heq as ? _. }
    rewrite append_cons in Heq. injection Heq as -> ->.
    by exists pre, word, post.
  - intros (pre & word & post & -> & Hrest).
    by exists (String c pre), word, post.
Qed.

Lemma token_of_hash (s token : string) :
  token_of (String "#" s) token ↔ token_from "" s token.
Proof.
  unfold token_from. split.
  - intros (pre & word & post & Heq & Htoken & Hword & Hall & Hend).
    destruct pre as [|d pre].
    + left. rewrite append_nil_l, hash_append in Heq. injection Heq as ->.
      exists word, post. by rewrite !append_nil_l.
    + right. rewrite append_cons in Heq. injection Heq as <- ->.
      by exists pre, word, post.
  - intros [(word & post & -> & Htoken & Hword & Hall & Hend)|Hof].
    + rewrite !append_nil_l in *. by exists "", word, post.
    + destruct Hof as (pre & word & post & -> & Hrest).
      by exists (String "#" pre), word, post.
Qed.

Lemma all_word_app (u v : string) :
  all_word (u +:+ v) = all_word u && all_word v.
Proof.
  induction u as [|c u IH]; [done|]. rewrite append_cons. simpl.
  by rewrite IH, andb_assoc.
Qed.

Lemma token_from_word (c : ascii) (open s token : string) :
  is_word c = true →
  token_from open (String c s) token ↔ token_from (open +:+ String c "") s token.
Proof.
  intros Hc. assert (c ≠ "#"%char) as Hhash by (intros ->; discriminate).
  unfold token_from. rewrite token_of_skip by done. split.
  - intros [(word & post & Heq & -> & Hne & Hall & Hend)|Hof]; [|by right]. left.
    destruct word as [|d word].
    + rewrite append_nil_l in Heq. subst post. simpl in Hend. by rewrite Hc in Hend.
    + rewrite append_cons in Heq. injection Heq as <- ->.
      simpl in Hall. apply andb_true_iff in Hall as [_ Hall].
      exists word, post. rewrite !append_assoc. repeat split; done.
  - intros [(word & post & -> & -> & Hne & Hall & Hend)|Hof]; [|by right]. left.
    exists (String c word), post. rewrite !append_assoc in *.
    repeat split; try done. simpl. by rewrite Hc.
Qed.

Lemma token_from_end (c : ascii) (open s token : string) :
  is_word c = false →
  token_from open (String c s) token ↔
  (open ≠ "" ∧ token = "#" +:+ open) ∨ token_of (String c s) token.
Proof.
  intros Hc. unfold token_from. split.
  - intros [(word & post & Heq & -> & Hne & Hall & Hend)|Hof]; [|by right]. left.
    destruct word as [|d word].
    + rewrite append_nil_r in *. done.
    + rewrite append_cons in Heq. injection Heq as <- ->.
      simpl in Hall. by rewrite Hc in Hall.
  - intros [[Hne ->]|Hof]; [|by right]. left.
    exists "", (String c s). rewrite append_nil_r. repeat split; try done.
    simpl. by rewrite Hc.
Qed.

Lemma close_match_open (open token : string) :
  token ∈ close_match (Some ("#" +:+ open)) ↔ open ≠ "" ∧ token = "#" +:+ open.
Proof.
  destruct open as [|c open]; simpl.
  - split; [by intros ?%elem_of_nil|by intros [? _]].
  - rewrite list_elem_of_singleton. naive_solver.
Qed.

Lemma matches_go_tokens (s token : string) :
  (token ∈ matches_go None s ↔ token_of s token)
  ∧ ∀ open, token ∈ matches_go (Some ("#" +:+ open)) s ↔ token_from open s token.
Proof.
  induction s as [|c s [IHnone IHopen]].
  - split.
    + split; [by intros ?%elem_of_nil|by intros ?%token_of_nil].
    + intros open. cbn [matches_go]. rewrite close_match_open. unfold token_from. split.
      * intros [Hne ->]. left. exists "", "". rewrite !append_nil_r. by repeat split.
      * intros [(word & post & Heq & -> & Hne & _)|Hof]; [|by apply token_of_nil in Hof].
        destruct word; [|done]. rewrite append_nil_r in *. done.
  - cbn [matches_go]. destruct (is_word c) eqn:Hc.
    + assert (c ≠ "#"%char) as Hhash by (intros ->; discriminate). split.
      * by rewrite token_of_skip.
      * intros open. rewrite token_from_word by done.
        rewrite <- IHopen. by rewrite append_assoc.
    + destruct (decide (c = "#"%char)) as [->|Hhash].
      * split.
        -- cbn [close_match app]. rewrite token_of_hash. apply (IHopen "").
        -- intros open. rewrite elem_of_app, close_match_open, token_from_end by done.
           rewrite token_of_hash. by rewrite (IHopen "").
      * split.
        -- cbn [close_match app]. by rewrite token_of_skip.
        -- intros open. rewrite elem_of_app, close_match_open, token_from_end by done.
           by rewrite IHnone, (token_of_skip c) by done.
Qed.

Lemma tagRegex_matches_tokens (title token : string) :
  token ∈ tagRegex_matches title ↔ token_of title token.
Proof. apply matches_go_tokens. Qed.

Lemma toLowerCase_nonempty (s : string) : s ≠ "" → toLowerCase s ≠ "".
Proof. by destruct s. Qed.

Lemma find_tag_first (tags : list string) (token : string) :
  find_tag (JStr <$> tags) (toLowerCase token) = Return (JStr <$> first_match tags token).
Proof.
  unfold first_match. induction tags as [|tag tags IH]; [done|].
  cbn [fmap list_fmap find_tag list_find]. unfold same_ignoring_case at 1.
  destruct (decide (toLowerCase tag = toLowerCase token)) as [Heq|Hne]; [done|].
  change (list_fmap string json JStr tags) with (JStr <$> tags). rewrite IH.
  by destruct (list_find _ tags) as [[i x]|].
Qed.

Lemma first_match_nonempty (tags : list string) (token tag : string) :
  token ≠ "" → first_match tags token = Some tag → tag ≠ "".
Proof.
  unfold first_match. intros Htoken Hfind.
  destruct (list_find _ tags) as [[i x]|] eqn:Hx; [|done].
  injection Hfind as ->. apply list_find_Some in Hx as (_ & Hsame & _).
  intros ->. unfold same_ignoring_case in Hsame. simpl in Hsame.
  by apply (toLowerCase_nonempty token).
Qed.

Lemma match_loop_first (tags : list string) (found : list string) (acc : list json) :
  Forall (λ token, token ≠ "") found →
  match_loop (catalog tags) found acc
  = Return (acc ++ (JStr <$> omap (first_match tags) found)).
Proof.
  intros Hfound. revert acc.
  induction Hfound as [|token found Htoken _ IH]; intros acc.
  - simpl. by rewrite app_nil_r.
  - cbn [match_loop catalog Array_find_tag omap list_omap].
    rewrite find_tag_first.
    destruct (first_match tags token) as [tag|] eqn:Hfirst; cbn [fmap option_fmap option_map].
    + pose proof (first_match_nonempty _ _ _ Htoken Hfirst) as Htag.
      cbn [truthy]. rewrite bool_decide_eq_false_2 by done. cbn [negb].
      unfold catalog in IH. rewrite IH. cbn [fmap list_fmap].
      by rewrite <- app_assoc.
    + apply IH.
Qed.

Lemma extractTagFromTitle_first (w w' : world) (tags : list string) (title : string) :
  getUserTags w = (Return (catalog tags), w') →
  (extractTagFromTitle (Some title) w).1 = Return (JStr <$> title_tags tags title).
Proof.
  intros Hcat. unfold extractTagFromTitle, title_tags. cbn [truthy_opt default].
  unfold truthy_string. destruct (decide (title = "")) as [->|Htitle]; [done|].
  rewrite bool_decide_eq_false_2 by done. cbn [negb]. unfold_M. rewrite Hcat.
  unfold id. rewrite match_loop_first by apply matches_go_nonempty. done.
Qed.

Lemma title_tags_member (tags : list string) (title tag : string) :
  tag ∈ title_tags tags title ↔
  ∃ token, token ∈ tagRegex_matches title ∧ first_match tags token = Some tag.
Proof.
  unfold title_tags. rewrite list_elem_of_omap. naive_solver.
Qed.

Lemma first_match_case_distinct (tags : list string) (token tag : string) :
  case_distinct tags →
  first_match tags token = Some tag ↔ tag ∈ tags ∧ same_ignoring_case tag token.
Proof.
  intros Hdistinct. unfold first_match. split.
  - destruct (list_find _ tags) as [[i x]|] eqn:Hx; [|done].
    intros [= ->]. apply list_find_Some in Hx as (Hi & Hsame & _).
    split; [|done]. by eapply list_elem_of_lookup_2.
  - intros [Hin Hsame].
    destruct (list_find (λ t, same_ignoring_case t token) tags) as [[i x]|] eqn:Hx.
    + apply list_find_Some in Hx as (Hi & Hx & _). simpl. f_equal.
      apply Hdistinct; [by eapply list_elem_of_lookup_2|done|].
      unfold same_ignoring_case in *. congruence.
    + apply list_find_None in Hx. rewrite Forall_forall in Hx. by destruct (Hx tag).
Qed.

(** C7, as the code has it: for every token of the title, that is every
    [#] with the word characters behind it, in order, title extraction
    returns the first tag of the catalogue that equals the token up to
    case, and drops a token that matches no tag.  When no two tags of the
    catalogue differ in case only, the tags returned are exactly the tags
    of the catalogue that equal a token up to case.  The title
    ["Sync #Work with #bogus team"] and the catalogue
    [["#Work", "#Personal"]] give exactly [["#Work"]]. *)
Theorem title_extraction :
  (∀ (w w' : world) (tags : list string) (title : string),
     getUserTags w = (Return (catalog tags), w') →
     (extractTagFromTitle (Some title) w).1 = Return (JStr <$> title_tags tags title)
     ∧ (∀ tag, tag ∈ title_tags tags title ↔
               ∃ token, token_of title token ∧ first_match tags token = Some tag)
     ∧ (case_distinct tags →
        ∀ tag, tag ∈ title_tags tags title ↔
               tag ∈ tags ∧ ∃ token, token_of title token ∧ same_ignoring_case tag token))
  ∧ extractTagFromTitle (Some "Sync #Work with #bogus team") Sample.two_tag_world
    = (Return [JStr "#Work"], Sample.two_tag_world).
Proof.
  split; [|reflexivity].
  intros w w' tags title Hcat. split; [by eapply extractTagFromTitle_first|].
  assert (∀ tag, tag ∈ title_tags tags title ↔
                 ∃ token, token_of title token ∧ first_match tags token = Some tag)
    as Hmember.
  { intros tag. rewrite title_tags_member.
    split; intros (token & Htoken & Hfirst); exists token;
      (split; [by apply tagRegex_matches_tokens|done]). }
  split; [exact Hmember|].
  intros Hdistinct tag. rewrite Hmember. split.
  - intros (token & Htoken & Hfirst).
    apply first_match_case_distinct in Hfirst as [Hin Hsame]; [|done]. eauto.
  - intros (Hin & token & Htoken & Hsame). exists token. split; [done|].
    by apply first_match_case_distinct.
Qed.

Lemma title_extraction_witness :
  (extractTagFromTitle (Some "Sync #Work with #bogus team") Sample.two_tag_world).1
  = Return (JStr <$> title_tags ["#Work"; "#Personal"] "Sync #Work with #bogus team")
  ∧ ∀ tag, tag ∈ title_tags ["#Work"; "#Personal"] "Sync #Work with #bogus team" ↔
           tag ∈ ["#Work"; "#Personal"]
           ∧ ∃ token, token_of "Sync #Work with #bogus team" token
                      ∧ same_ignoring_case tag token.
Proof.
  destruct (proj1 title_extraction Sample.two_tag_world Sample.two_tag_world
              ["#Work"; "#Personal"] "Sync #Work with #bogus team" eq_refl)
    as (Hrun & _ & Hexact).
  split; [exact Hrun|]. apply Hexact.
  intros a b Ha Hb.
  repeat (apply elem_of_cons in Ha as [->|Ha]);
    repeat (apply elem_of_cons in Hb as [->|Hb]);
    try (by apply elem_of_nil in Ha); try (by apply elem_of_nil in Hb);
    done || discriminate.
Defined.

(** C7, as it is stated, fails: with the catalogue [["#Work", "#work"]] the
    title ["#work"] has the token [#work], the tag [#work] of the catalogue
    equals it, and yet [#Work] alone is returned. *)
Lemma title_extraction_counterexample :
  extractTagFromTitle (Some "#work") Sample.case_world
  = (Return [JStr "#Work"], Sample.case_world)
  ∧ getUserTags Sample.case_world = (Return (catalog ["#Work"; "#work"]), Sample.case_world)
  ∧ token_of "#work" "#work"
  ∧ same_ignoring_case "#work" "#work"
  ∧ ¬ (∀ tag, JStr tag ∈ [JStr "#Work"] ↔
         tag ∈ ["#Work"; "#work"]
         ∧ ∃ token, token_of "#work" token ∧ same_ignoring_case tag token).
Proof.
  assert (token_of "#work" "#work") as Htoken by (by exists "", "work", "").
  split; [reflexivity|]. split; [reflexivity|].
  split; [done|]. split; [reflexivity|].
  intros Hall. destruct (Hall "#work") as [_ Hback].
  assert (JStr "#work" ∈ [JStr "#Work"]) as Hin.
  { apply Hback. split; [right; left|]. exists "#work". by split. }
  apply list_elem_of_singleton in Hin. discriminate.
Qed.

(** *** Sets of tags *)

Lemma same_value_sym (a b : json) : same_value a b = same_value b a.
Proof.
  destruct a, b; simpl; try done; apply bool_decide_ext; naive_solver.
Qed.

Lemma same_value_string (t : string) (y : json) :
  same_value (JStr t) y = true ↔ y = JStr t.
Proof.
  destruct y; simpl; try (split; [done|discriminate]).
  rewrite bool_decide_eq_true. naive_solver.
Qed.

Lemma same_value_string_refl (t : string) : same_value (JStr t) (JStr t) = true.
Proof. by apply same_value_string. Qed.

Lemma Set_has_app (l k : list json) (x : json) :
  Set_has (l ++ k) x = Set_has l x || Set_has k x.
Proof. apply existsb_app. Qed.

Lemma Set_has_false (l : list json) (x : json) :
  Set_has l x = false ↔ ∀ y, y ∈ l → same_value x y = false.
Proof.
  unfold Set_has. induction l as [|z l IH]; simpl.
  - split; [by intros _ y ?%elem_of_nil|done].
  - rewrite orb_false_iff, IH. split.
    + intros [Hz Hl] y [->|Hy]%elem_of_cons; auto.
    + intros Hall. split; [apply Hall; left|]. intros y Hy. apply Hall. by right.
Qed.

Lemma distinct_app (a b : list json) :
  distinct (a ++ b) ↔ distinct a ∧ distinct b ∧ ∀ y, y ∈ b → Set_has a y = false.
Proof.
  induction a as [|x a IH]; simpl.
  - split; [intros ?; by repeat split|tauto].
  - rewrite Set_has_app, orb_false_iff, IH. split.
    + intros [[Ha Hb] (Hda & Hdb & Hab)]. repeat split; try done.
      intros y Hy. rewrite orb_false_iff. split; [|by apply Hab].
      rewrite same_value_sym. by apply (proj1 (Set_has_false b x)).
    + intros ([Ha Hda] & Hdb & Hab). repeat split; try done.
      * apply Set_has_false. intros y Hy. rewrite same_value_sym.
        specialize (Hab y Hy). by apply orb_false_iff in Hab as [? _].
      * intros y Hy. specialize (Hab y Hy). by apply orb_false_iff in Hab as [_ ?].
Qed.

Lemma distinct_snoc (l : list json) (x : json) :
  distinct l → Set_has l x = false → distinct (l ++ [x]).
Proof.
  intros Hl Hx. apply distinct_app. repeat split; try done.
  by intros y ->%list_elem_of_singleton.
Qed.

Lemma Set_add_distinct (l : list json) (x : json) :
  distinct l → distinct (Set_add l x).
Proof.
  intros Hl. unfold Set_add. destruct (Set_has l x) eqn:Hx; [done|].
  by apply distinct_snoc.
Qed.

Lemma foldl_Set_add_distinct (acc l : list json) :
  distinct acc → distinct (foldl Set_add acc l).
Proof.
  revert acc. induction l as [|x l IH]; intros acc Hacc; [done|].
  simpl. apply IH. by apply Set_add_distinct.
Qed.

Lemma Set_of_list_distinct (l : list json) : distinct (Set_of_list l).
Proof. by apply foldl_Set_add_distinct. Qed.

Lemma foldl_Set_add_id (acc l : list json) :
  distinct (acc ++ l) → foldl Set_add acc l = acc ++ l.
Proof.
  revert acc. induction l as [|x l IH]; intros acc Hd.
  - by rewrite app_nil_r.
  - simpl. unfold Set_add at 2.
    assert (Set_has acc x = false) as ->.
    { apply distinct_app in Hd as (_ & _ & Hx). apply Hx. left. }
    rewrite IH; rewrite <- app_assoc; done.
Qed.

Lemma Set_of_list_id (l : list json) : distinct l → Set_of_list l = l.
Proof. intros Hl. unfold Set_of_list. by rewrite foldl_Set_add_id. Qed.

Lemma Set_delete_keeps (l : list json) (x : json) :
  Set_has l x = false → Set_delete l x = l.
Proof.
  intros Hx. unfold Set_delete. induction l as [|y l IH]; [done|].
  rewrite filter_cons. simpl in Hx. apply orb_false_iff in Hx as [Hy Hl].
  unfold Set_has in IH. by rewrite decide_True, IH.
Qed.

Lemma Set_delete_distinct (l : list json) (x : json) :
  distinct l → distinct (Set_delete l x).
Proof.
  unfold Set_delete. induction l as [|y l IH]; [done|].
  intros [Hy Hl]. rewrite filter_cons. destruct (decide _); [|by apply IH].
  split; [|by apply IH]. apply Set_has_false. intros z Hz.
  apply list_elem_of_filter in Hz as [_ Hz]. by apply (proj1 (Set_has_false l y)).
Qed.

Lemma Set_delete_gone (l : list json) (t : string) :
  Set_has (Set_delete l (JStr t)) (JStr t) = false.
Proof.
  apply Set_has_false. intros y Hy.
  unfold Set_delete in Hy. by apply list_elem_of_filter in Hy as [? _].
Qed.

Lemma Set_delete_perm (l : list json) (t : string) :
  distinct l → Set_has l (JStr t) = true →
  Set_delete l (JStr t) ++ [JStr t] ≡ₚ l.
Proof.
  unfold Set_delete. induction l as [|y l IH]; [done|].
  intros [Hy Hl] Hhas. rewrite filter_cons.
  unfold Set_has in Hhas. cbn [existsb] in Hhas.
  destruct (same_value (JStr t) y) eqn:Hty.
  - apply same_value_string in Hty as ->.
    rewrite decide_False by done.
    fold (Set_delete l (JStr t)). rewrite Set_delete_keeps by done.
    by rewrite Permutation_app_comm.
  - rewrite decide_True by done. simpl. f_equiv. by apply IH.
Qed.

Lemma toggle_distinct (l : list json) (t : string) :
  distinct l → distinct (toggle l t).
Proof.
  intros Hl. unfold toggle. destruct (Set_has l (JStr t)).
  - by apply Set_delete_distinct.
  - by apply Set_add_distinct.
Qed.

Lemma toggle_toggle (l : list json) (t : string) :
  distinct l → toggle (toggle l t) t ≡ₚ l.
Proof.
  intros Hl. unfold toggle at 2. destruct (Set_has l (JStr t)) eqn:Hhas.
  - unfold toggle, Set_add. rewrite Set_delete_gone. by apply Set_delete_perm.
  - unfold toggle, Set_add. rewrite Hhas.
    rewrite Set_has_app, Hhas. unfold Set_has at 1. cbn [existsb].
    rewrite same_value_string_refl. cbn [orb].
    unfold Set_delete. rewrite filter_app.
    fold (Set_delete l (JStr t)). rewrite Set_delete_keeps by done.
    rewrite filter_cons, decide_False; [by rewrite app_nil_r|].
    intros H; cbv beta in H; by rewrite same_value_string_refl in H.
Qed.

(** *** What a computation leaves untouched *)

Lemma getUserTags_frame (w : world) :
  let w' := (getUserTags w).2 in
  userCache w' = userCache w ∧ Calendar w' = Calendar w
  ∧ SpreadsheetApp w' = SpreadsheetApp w
  ∧ uuid_source w' = uuid_source w ∧ uuid_drawn w' = uuid_drawn w.
Proof.
  unfold getUserTags. unfold_M.
  destruct (JSON_parse _) as [j|e]; simpl; [|done].
  destruct (truthy j); simpl; [done|].
  by rewrite fetchTagsFromSpreadsheet_tags.
Qed.

Lemma rebuildCard_frame (selectedTags : list json) (key : string) (title : option string)
    (w : world) :
  let w' := (rebuildCard selectedTags key title w).2 in
  userCache w' = userCache w ∧ Calendar w' = Calendar w
  ∧ SpreadsheetApp w' = SpreadsheetApp w
  ∧ uuid_source w' = uuid_source w ∧ uuid_drawn w' = uuid_drawn w.
Proof.
  unfold rebuildCard. unfold_M.
  pose proof (getUserTags_frame w) as Hframe. cbv zeta in Hframe.
  destruct (getUserTags w) as [[j|e] w1]; simpl in *; [|done].
  by destruct (new_Set j).
Qed.

(** *** Staging keys *)

Lemma staging_key_shape (key : string) :
  staging_key key →
  key ≠ "" ∧ key ≠ "ModifiedEvents" ∧ key ≠ "calendarId" ∧ key ≠ "__proto__"
  ∧ array_index key = None.
Proof.
  unfold staging_key. intros Hkey.
  destruct key as [|c key]; [discriminate|]. simpl in Hkey.
  destruct (decide _) as [<-|]; [|discriminate].
  repeat split; discriminate || done.
Qed.

Lemma find_update_field (key : string) (v : json) (fs : list (string * json)) :
  existsb (has_key key) fs = true →
  List.find (has_key key) (update_field key v fs) = Some (key, v).
Proof.
  induction fs as [|f fs IH]; [done|]. simpl.
  destruct (has_key key f) eqn:Hf; simpl.
  - intros _. unfold has_key. simpl. by rewrite bool_decide_eq_true_2.
  - intros Hfs. rewrite Hf. by apply IH.
Qed.

Lemma find_append_field (key : string) (v : json) (fs : list (string * json)) :
  existsb (has_key key) fs = false →
  List.find (has_key key) (fs ++ [(key, v)]) = Some (key, v).
Proof.
  induction fs as [|f fs IH]; simpl.
  - intros _. unfold has_key. simpl. by rewrite bool_decide_eq_true_2.
  - destruct (has_key key f) eqn:Hf; simpl; [done|]. apply IH.
Qed.

Lemma set_property_staging_key (fs : list (string * json)) (key : string) (v : json) :
  staging_key key →
  ∃ fs', set_property (JObj fs) key v = Return (JObj fs')
         ∧ get_property (JObj fs') key = Some v.
Proof.
  intros (_ & _ & _ & Hproto & Hindex)%staging_key_shape.
  unfold set_property. destruct (existsb (has_key key) fs) eqn:Hhas.
  - eexists. split; [done|]. simpl. by rewrite find_update_field.
  - rewrite decide_False by done. rewrite Hindex.
    eexists. split; [done|]. simpl. by rewrite find_append_field.
Qed.

(** *** Clicks *)

Lemma handleTagClick_cache (tag key : string) (w : world) :
  key ≠ "" → key ≠ "ModifiedEvents" →
  userCache (handleTagClick (click tag key) w).2 =
    let staged :=
      <[key := (Json (JArr (toggle (staged_set w key) tag)), CACHE_TIME)]> (userCache w) in
    match dirty_index w with
    | Return index =>
        match set_property (if truthy index then index else JObj []) key (JStr "Dirty") with
        | Return stack => <["ModifiedEvents" := (Json stack, CACHE_TIME)]> staged
        | Throw _ => staged
        end
    | Throw _ => staged
    end.
Proof.
  intros Hkey Hindex.
  unfold handleTagClick, click. cbn [parameters_cacheKey parameters_tag truthy_opt default].
  unfold truthy_string. rewrite bool_decide_eq_false_2 by done. cbn [negb]. unfold id.
  unfold pushModifiedEvent, userCache_get, userCache_put, dirty_index, staged_set.
  unfold_M. cbn [fst snd userCache set_userCache].
  assert (∀ (m : gmap string (text * N)) v,
            fst <$> <[key := v]> m !! "ModifiedEvents" = fst <$> m !! "ModifiedEvents")
    as Hother by (intros m v; by rewrite lookup_insert_ne).
  destruct (JSON_parse (fst <$> userCache w !! key)) as [parsed|e];
    [destruct (new_Set parsed) as [tags|e]|];
    rewrite Hother;
    (destruct (JSON_parse (fst <$> userCache w !! "ModifiedEvents")) as [index|e'];
       [|done]);
    (destruct (set_property _ key (JStr "Dirty")) as [stack|e']; [|done]);
    match goal with
    | |- context [rebuildCard ?s ?k ?t ?w2] =>
        pose proof (rebuildCard_frame s k t w2) as (Hcache & _);
        destruct (rebuildCard s k t w2) as [[c|e'] w3]; simpl in *; by rewrite Hcache
    end.
Qed.

Lemma staged_set_distinct (w : world) (key : string) : distinct (staged_set w key).
Proof.
  unfold staged_set. destruct (JSON_parse _) as [[| | | | |]|]; simpl; try done;
    apply Set_of_list_distinct.
Qed.

(** C5, as the code has it: two clicks on the same tag under the same
    staging key leave the staged tag set with the members it had before the
    first click (an absent or unreadable entry counting as the empty set),
    under a renewed time to live, and leave the key marked Dirty in the
    dirty index, whatever its status was before. *)
Theorem toggle_twice (w : world) (tag key : string) :
  staging_key key → index_ok w →
  let w2 := (handleTagClick (click tag key) (handleTagClick (click tag key) w).2).2 in
  (∃ tags, userCache w2 !! key = Some (Json (JArr tags), CACHE_TIME)
           ∧ tags ≡ₚ staged_set w key)
  ∧ staged_set w2 key ≡ₚ staged_set w key
  ∧ status w2 key = Some (JStr "Dirty").
Proof.
  intros Hstaging (index & Hindex & Hshape).
  pose proof (staging_key_shape key Hstaging) as (Hkey & HkeyME & _).
  assert (∃ fs0, (if truthy index then index else JObj []) = JObj fs0) as [fs0 Hfs0].
  { destruct Hshape as [->|[fs ->]]; eauto. }
  destruct (set_property_staging_key fs0 key (JStr "Dirty") Hstaging)
    as (fs1 & Hset1 & Hget1).
  destruct (set_property_staging_key fs1 key (JStr "Dirty") Hstaging)
    as (fs2 & Hset2 & Hget2).
  set (w1 := (handleTagClick (click tag key) w).2).
  set (S0 := staged_set w key).
  pose proof (staged_set_distinct w key) as HS0. fold S0 in HS0.
  assert (userCache w1 =
            <["ModifiedEvents" := (Json (JObj fs1), CACHE_TIME)]>
              (<[key := (Json (JArr (toggle S0 tag)), CACHE_TIME)]> (userCache w)))
    as Hcache1.
  { subst w1. rewrite handleTagClick_cache by done. cbv zeta.
    by rewrite Hindex, Hfs0, Hset1. }
  assert (staged_set w1 key = toggle S0 tag) as Hstaged1.
  { unfold staged_set. rewrite Hcache1.
    rewrite lookup_insert_ne, lookup_insert_eq by done. simpl.
    apply Set_of_list_id. by apply toggle_distinct. }
  assert (dirty_index w1 = Return (JObj fs1)) as Hindex1.
  { unfold dirty_index. rewrite Hcache1. by rewrite lookup_insert_eq. }
  intros w2.
  assert (userCache w2 =
            <["ModifiedEvents" := (Json (JObj fs2), CACHE_TIME)]>
              (<[key := (Json (JArr (toggle (toggle S0 tag) tag)), CACHE_TIME)]>
                 (userCache w1)))
    as Hcache2.
  { subst w2. rewrite handleTagClick_cache by done. cbv zeta.
    rewrite Hindex1, Hstaged1. cbn [truthy]. by rewrite Hset2. }
  split; [|split].
  - exists (toggle (toggle S0 tag) tag). split; [|by apply toggle_toggle].
    rewrite Hcache2. by rewrite lookup_insert_ne, lookup_insert_eq.
  - unfold staged_set at 1. rewrite Hcache2.
    rewrite lookup_insert_ne, lookup_insert_eq by done. simpl.
    rewrite Set_of_list_id by (by do 2 apply toggle_distinct).
    by apply toggle_toggle.
  - unfold status, dirty_index. rewrite Hcache2. rewrite lookup_insert_eq. simpl.
    simpl in Hget2. by rewrite Hget2.
Qed.

Lemma toggle_twice_witness :
  let w2 := (handleTagClick (click "#Urgent" "selectedTags_e1")
               (handleTagClick (click "#Urgent" "selectedTags_e1") Sample.clean_world).2).2 in
  (∃ tags, userCache w2 !! "selectedTags_e1" = Some (Json (JArr tags), CACHE_TIME)
           ∧ tags ≡ₚ staged_set Sample.clean_world "selectedTags_e1")
  ∧ staged_set w2 "selectedTags_e1" ≡ₚ staged_set Sample.clean_world "selectedTags_e1"
  ∧ status w2 "selectedTags_e1" = Some (JStr "Dirty").
Proof.
  apply (toggle_twice Sample.clean_world "#Urgent" "selectedTags_e1").
  - reflexivity.
  - exists (JObj [("selectedTags_e1", JStr "Clean")]). split; [reflexivity|].
    right. by eexists.
Defined.

(** C5, as it is stated, fails: a key that the dirty index marks Clean is
    marked Dirty after two clicks on one tag, while its tag set is what it
    was. *)
Lemma toggle_twice_counterexample :
  let w := Sample.clean_world in
  let w2 := (handleTagClick (click "#Urgent" "selectedTags_e1")
               (handleTagClick (click "#Urgent" "selectedTags_e1") w).2).2 in
  status w "selectedTags_e1" = Some (JStr "Clean")
  ∧ staged_set w2 "selectedTags_e1" = staged_set w "selectedTags_e1"
  ∧ status w2 "selectedTags_e1" = Some (JStr "Dirty")
  ∧ status w2 "selectedTags_e1" ≠ status w "selectedTags_e1".
Proof.
  cbv zeta. repeat split; try reflexivity. discriminate.
Qed.

(** *** Opening an event *)

Lemma bind_return {A B} (m : M A) (f : A → M B) (w w' : world) (a : A) :
  m w = (Return a, w') → (m ≫= f) w = f a w'.
Proof. intros Hm. unfold_M. by rewrite Hm. Qed.

Lemma bind_throw {A B} (m : M A) (f : A → M B) (w w' : world) (e : exn) :
  m w = (Throw e, w') → (m ≫= f) w = (Throw e, w').
Proof. intros Hm. unfold_M. by rewrite Hm. Qed.

Lemma loadSelectedTags_persisted (calendarId eventId : string) (w : world) :
  loadSelectedTags calendarId (Some eventId) w =
    (Return (persisted (Calendar w) calendarId eventId),
     set_Calendar (issue (Events_get_fields calendarId eventId)) w).
Proof.
  unfold loadSelectedTags, persisted, Calendar_Events_get_fields, answer. unfold_M.
  destruct (refuses _ _); [done|].
  destruct (events _ !! _) as [ev|]; [|done].
  destruct (saved_selectedTags ev) as [payload|]; [|done].
  destruct (truthy_text payload); [|done].
  destruct (JSON_parse _) as [parsed|]; [|done].
  by destruct (new_Set parsed).
Qed.

Lemma tag_column_sources (w1 w2 : world) :
  same_sources w1 w2 → tag_column w1 = tag_column w2.
Proof. intros (H1 & H2 & H3 & H4 & H5). unfold tag_column. by rewrite H1, H2, H3, H5. Qed.

Lemma domain_table_sources (w1 w2 : world) :
  same_sources w1 w2 → domain_table w1 = domain_table w2.
Proof.
  intros (H1 & H2 & H3 & H4 & H5). unfold domain_table. by rewrite H1, H2, H3, H4, H5.
Qed.

Lemma getUserTags_sources (w1 w2 : world) :
  same_sources w1 w2 → userTags (userProperties w1) = userTags (userProperties w2) →
  (getUserTags w1).1 = (getUserTags w2).1.
Proof.
  intros Hsame Htags. rewrite !getUserTags_run, Htags.
  destruct (JSON_parse _) as [j|e]; [|done]. destruct (truthy j); [done|].
  cbv zeta. unfold spreadsheet_tags. by rewrite (tag_column_sources w1 w2).
Qed.

Lemma getUserTags_keeps (w : world) :
  let w' := (getUserTags w).2 in
  same_sources w' w ∧ userCache w' = userCache w ∧ Calendar w' = Calendar w
  ∧ uuid_source w' = uuid_source w ∧ uuid_drawn w' = uuid_drawn w.
Proof.
  rewrite getUserTags_run.
  destruct (JSON_parse _) as [j|e]; [|done]. by destruct (truthy j).
Qed.

Lemma extractTagFromTitle_sources (title : option string) (w1 w2 : world) :
  same_sources w1 w2 → userTags (userProperties w1) = userTags (userProperties w2) →
  (extractTagFromTitle title w1).1 = (extractTagFromTitle title w2).1.
Proof.
  intros Hsame Htags. unfold extractTagFromTitle.
  destruct (negb (truthy_opt title)); [done|]. unfold_M.
  pose proof (getUserTags_sources w1 w2 Hsame Htags) as Hsrc.
  destruct (getUserTags w1) as [[j1|e1] w1'], (getUserTags w2) as [[j2|e2] w2'];
    simpl in Hsrc; try done; by injection Hsrc as ->.
Qed.

Lemma extractTagFromTitle_keeps (title : option string) (w : world) :
  let w' := (extractTagFromTitle title w).2 in
  same_sources w' w ∧ userCache w' = userCache w ∧ Calendar w' = Calendar w
  ∧ uuid_source w' = uuid_source w ∧ uuid_drawn w' = uuid_drawn w.
Proof.
  unfold extractTagFromTitle.
  destruct (negb (truthy_opt title)); [done|]. unfold_M.
  pose proof (getUserTags_keeps w) as Hkeeps.
  by destruct (getUserTags w) as [[j|e] w'].
Qed.

Lemma with_sigil_nonempty (s : string) : s ≠ "" → with_sigil s ≠ "".
Proof.
  intros Hs. unfold with_sigil. destruct (startsWith s "#"); [done|]. discriminate.
Qed.

Lemma row_tag_nonempty (tags : list cell) (i : nat) (t : string) :
  row_tag tags i = Return (Some t) → t ≠ "".
Proof.
  unfold row_tag. destruct (tags !! i) as [[s|[]]|]; try done.
  unfold truthy_string. destruct (decide (s = "")) as [->|Hs]; [done|].
  rewrite bool_decide_eq_false_2 by done. simpl. intros [= <-].
  by apply with_sigil_nonempty.
Qed.

Lemma scan_rows_nonempty (domains tags : list cell) (i : nat) (d : option string)
    (t : string) :
  scan_rows domains i tags d = Return (Returned (Some t)) → t ≠ "".
Proof.
  revert i. induction domains as [|c domains IH]; intros i; [done|].
  cbn [scan_rows]. destruct (cell_is c d); [|apply IH].
  destruct (row_tag tags i) as [r|] eqn:Hrow; [|done].
  intros [= ->]. by eapply row_tag_nonempty.
Qed.

Lemma scan_attendees_nonempty (atts : list attendee) (domains tags : list cell)
    (t : string) :
  settle (scan_attendees atts domains tags) = Some t → t ≠ "".
Proof.
  induction atts as [|a atts IH]; [done|]. cbn [scan_attendees].
  destruct (truthy_opt (email a)); [|done].
  destruct (scan_rows _ _ _ _) as [[|r]|] eqn:Hrows; [done| |done].
  simpl. intros ->. by eapply scan_rows_nonempty.
Qed.

Lemma attendee_tag_nonempty (w : world) (atts : list attendee) (t : string) :
  attendee_tag w atts = Some t → t ≠ "".
Proof.
  unfold attendee_tag. rewrite getAutoTagFromAttendees_table. cbn [fst value_or].
  destruct (domain_table w) as [[tags domains]|]; [|done].
  apply scan_attendees_nonempty.
Qed.

Lemma same_sources_refl (w : world) : same_sources w w.
Proof. by repeat split. Qed.

Lemma attendee_tag_sources (w1 w2 : world) (atts : list attendee) :
  same_sources w1 w2 → attendee_tag w1 atts = attendee_tag w2 atts.
Proof.
  intros Hsame. unfold attendee_tag. rewrite !getAutoTagFromAttendees_table.
  cbn [fst]. by rewrite (domain_table_sources w1 w2).
Qed.

Lemma getAutoTagFromAttendees_tag (atts : list attendee) (w : world) :
  getAutoTagFromAttendees atts w = (Return (attendee_tag w atts), w).
Proof.
  unfold attendee_tag. by rewrite getAutoTagFromAttendees_table.
Qed.

Lemma initialTags_existing (c eventId : string) (title : option string)
    (atts : list attendee) (w : world) :
  let loaded := persisted (Calendar w) c eventId in
  let auto := attendee_tag w atts in
  (loaded ≠ [] →
   ∃ w', initialTags c (Some eventId) title atts w = (Return (add_tag loaded auto, title), w')
         ∧ userCache w' = userCache w)
  ∧ (loaded = [] → ∀ extracted,
       (extractTagFromTitle title w).1 = Return extracted →
       ∃ w', initialTags c (Some eventId) title atts w
             = (Return (add_tag (add_tags loaded extracted) auto, title), w')
             ∧ userCache w' = userCache w).
Proof.
  intros loaded auto. unfold initialTags.
  rewrite (bind_return _ _ _ _ _ (loadSelectedTags_persisted c eventId w)).
  fold loaded. set (w1 := set_Calendar _ w).
  rewrite bool_decide_eq_true_2 by (by eexists). cbn [negb orb].
  assert (∀ tags w2, same_sources w2 w →
    (getAutoTagFromAttendees atts ≫= λ autoTag,
       mret match autoTag with
            | Some tag =>
                if truthy_string tag then (Set_add tags (JStr tag), title)
                else (tags, title)
            | None => (tags, title)
            end) w2 = (Return (add_tag tags auto, title), w2)) as Hauto.
  { intros tags w2 Hsame.
    rewrite (bind_return _ _ _ _ _ (getAutoTagFromAttendees_tag atts w2)).
    rewrite (attendee_tag_sources w2 w) by done. fold auto.
    destruct auto as [t|] eqn:Ht; [|done].
    apply attendee_tag_nonempty in Ht. unfold truthy_string.
    by rewrite bool_decide_eq_false_2. }
  split.
  - intros Hloaded. exists w1.
    rewrite bool_decide_eq_false_2 by (by destruct loaded).
    rewrite (bind_return _ _ w1 w1 loaded) by done.
    split; [|done]. by apply Hauto.
  - intros Hloaded extracted Hextract. rewrite Hloaded.
    rewrite bool_decide_eq_true_2 by done.
    pose proof (extractTagFromTitle_keeps title w1) as (Hsame & Hcache & _).
    pose proof (extractTagFromTitle_sources title w1 w (same_sources_refl w) eq_refl)
      as Hsrc.
    destruct (extractTagFromTitle title w1) as [r w2] eqn:Hrun.
    assert (r = Return extracted) as -> by (by rewrite <- Hextract, <- Hsrc).
    exists w2. split; [|done].
    erewrite bind_return; [|erewrite bind_return; [|exact Hrun]; done].
    apply Hauto. simpl in Hsame. destruct Hsame as (?&?&?&?&?). by repeat split.
Qed.

Ltac run_bind :=
  match goal with
  | |- context [@mbind M M_bind ?A ?B ?f ?m ?w0] =>
      erewrite (bind_return m f w0)
  end.

Lemma showTagDialog_cache (tags : list json) (key : string) (title : option string)
    (w : world) :
  userCache (showTagDialog tags key title w).2 = userCache w.
Proof.
  unfold showTagDialog. unfold_M.
  pose proof (rebuildCard_frame tags key title w) as (Hcache & _).
  by destruct (rebuildCard tags key title w) as [[card|e] w'].
Qed.

Lemma onCalendarEventOpen_staged (e : open_event) (w wd : world) (c eventId : string)
    (ev : event) (tags : list json) (title : option string) :
  calendar_calendarId e = Some c → c ≠ "" →
  calendar_id e = Some eventId → eventId ≠ "" →
  refuses (Calendar w) (Events_get c eventId) = false →
  events (Calendar w) !! (c, eventId) = Some ev →
  cache_miss w ("selectedTags_" +:+ eventId) →
  let wb := set_userCache <["calendarId" := (Raw c, 21600%N)]>
              (set_Calendar (issue (Events_get c eventId)) w) in
  initialTags c (Some eventId) (summary ev) (default [] (attendees ev)) wb
    = (Return (tags, title), wd) →
  userCache wd = userCache wb →
  userCache (onCalendarEventOpen e w).2 !! ("selectedTags_" +:+ eventId)
  = Some (Json (JArr tags), CACHE_TIME).
Proof.
  intros Hc Hcne Hid Hidne Hrefuse Hev (j & Hparse & Hfalsy) wb Hinit Hcache.
  unfold onCalendarEventOpen. rewrite Hc, Hid. cbn [truthy_opt default].
  unfold truthy_string. rewrite !bool_decide_eq_false_2 by done. cbn [negb]. unfold id.
  run_bind; cycle 1.
  { unfold try_catch. run_bind; cycle 1.
    { unfold Calendar_Events_get, answer. by rewrite Hrefuse, Hev. }
    done. }
  cbv beta iota zeta.
  run_bind; [|done]. run_bind; [|done]. run_bind; [|done].
  run_bind; cycle 1.
  { unfold lift. cbn [userCache set_userCache set_Calendar].
    rewrite lookup_insert_ne by done. by rewrite Hparse. }
  rewrite Hfalsy. cbn [negb].
  run_bind; [|exact Hinit]. cbv beta iota zeta. run_bind; [|done].
  rewrite showTagDialog_cache. cbn [userCache set_userCache].
  by rewrite lookup_insert_eq.
Qed.

Lemma onCalendarEventOpen_existing (e : open_event) (w : world) (c eventId : string) (ev : event) :
  calendar_calendarId e = Some c → c ≠ "" →
  calendar_id e = Some eventId → eventId ≠ "" →
  refuses (Calendar w) (Events_get c eventId) = false →
  events (Calendar w) !! (c, eventId) = Some ev →
  cache_miss w ("selectedTags_" +:+ eventId) →
  let key := "selectedTags_" +:+ eventId in
  let loaded := loaded_tags w c eventId in
  let auto := attendee_tag w (default [] (attendees ev)) in
  let w' := (onCalendarEventOpen e w).2 in
  (loaded ≠ [] →
   userCache w' !! key = Some (Json (JArr (add_tag loaded auto)), CACHE_TIME))
  ∧ (loaded = [] → ∀ extracted,
       (extractTagFromTitle (summary ev) w).1 = Return extracted →
       userCache w' !! key
       = Some (Json (JArr (add_tag (add_tags loaded extracted) auto)), CACHE_TIME)).
Proof.
  intros Hc Hcne Hid Hidne Hrefuse Hev Hmiss. intros key loaded auto w'.
  set (wb := set_userCache <["calendarId" := (Raw c, 21600%N)]>
               (set_Calendar (issue (Events_get c eventId)) w)).
  assert (same_sources wb w) as Hsame by (by repeat split).
  assert (loaded = persisted (Calendar wb) c eventId) as Hloaded.
  { subst loaded. unfold loaded_tags. by rewrite loadSelectedTags_persisted. }
  assert (auto = attendee_tag wb (default [] (attendees ev))) as Hauto.
  { subst auto. by rewrite (attendee_tag_sources wb w). }
  pose proof (initialTags_existing c eventId (summary ev) (default [] (attendees ev)) wb)
    as [Hfull Hempty].
  cbv zeta in Hfull, Hempty. rewrite <- Hloaded, <- Hauto in Hfull, Hempty.
  split.
  - intros Hne. destruct (Hfull Hne) as (wd & Hinit & Hcache).
    by eapply onCalendarEventOpen_staged.
  - intros Heq extracted Hextract.
    destruct (Hempty Heq extracted) as (wd & Hinit & Hcache).
    { by rewrite (extractTagFromTitle_sources _ wb w). }
    by eapply onCalendarEventOpen_staged.
Qed.

Lemma initialTags_new (c : string) (w : world) :
  initialTags c None None [] w = (Return ([], None), w).
Proof.
  unfold initialTags. cbn [loadSelectedTags].
  run_bind; [|done]. cbn [negb bool_decide orb].
  rewrite bool_decide_eq_false_2 by (by intros [? ?]). cbn [negb orb].
  run_bind; cycle 1.
  { run_bind; [|done]. done. }
  cbn [foldl].
  run_bind; [|apply getAutoTagFromAttendees_tag].
  assert (attendee_tag w [] = None) as ->; [|done].
  unfold attendee_tag. rewrite getAutoTagFromAttendees_table. cbn [fst value_or].
  by destruct (domain_table w) as [[tags domains]|].
Qed.

Lemma onCalendarEventOpen_new (e : open_event) (w : world) (c : string) :
  calendar_calendarId e = Some c → c ≠ "" →
  unsaved e w c →
  let key := "selectedTags_new_" +:+ uuid_source w (uuid_drawn w) in
  cache_miss w key →
  userCache (onCalendarEventOpen e w).2 !! key = Some (Json (JArr []), CACHE_TIME).
Proof.
  intros Hc Hcne Hunsaved key (j & Hparse & Hfalsy).
  unfold onCalendarEventOpen. rewrite Hc. cbn [truthy_opt default].
  unfold truthy_string. rewrite (bool_decide_eq_false_2 (c = "")) by done.
  cbn [negb]. unfold id.
  assert (∃ w0, (if truthy_opt (calendar_id e)
                 then try_catch
                        (Calendar_Events_get c (default "" (calendar_id e))
                         ≫= λ ev, mret (calendar_id e, summary ev,
                                        default [] (attendees ev)))
                        (λ _, mret (None, None, []))
                 else mret (None, None, [])) w = (Return (None, None, []), w0)
               ∧ userCache w0 = userCache w ∧ uuid_source w0 = uuid_source w
               ∧ uuid_drawn w0 = uuid_drawn w) as (w0 & Hfetch & Hcache0 & Hsrc0 & Hdrawn0).
  { destruct Hunsaved as [->|(eventId & Hid & Hfail)]; [by exists w|].
    rewrite Hid. destruct (truthy_opt (Some eventId)); [|by exists w].
    exists (set_Calendar (issue (Events_get c eventId)) w). split; [|done].
    unfold try_catch, Calendar_Events_get, answer. unfold_M. cbn [default from_option].
    unfold id. destruct Hfail as [->| ->]; [done|]. by destruct (refuses _ _). }
  run_bind; [|exact Hfetch]. cbv beta iota zeta.
  run_bind; [|done].
  run_bind; cycle 1.
  { run_bind; [|done]. done. }
  run_bind; [|done].
  run_bind; cycle 1.
  { unfold lift. cbn [userCache set_userCache uuid_source uuid_drawn].
    rewrite Hsrc0, Hdrawn0, Hcache0. fold key.
    rewrite lookup_insert_ne by done. by rewrite Hparse. }
  rewrite Hfalsy. cbn [negb].
  run_bind; [|apply initialTags_new]. cbv beta iota zeta.
  run_bind; [|done].
  rewrite showTagDialog_cache. cbn [userCache set_userCache uuid_source uuid_drawn].
  rewrite Hsrc0, Hdrawn0. fold key. by rewrite lookup_insert_eq.
Qed.

(** C6, as the code has it: on a staging-cache miss at event-open the
    attendee-domain lookup always runs and its tag, if any, joins the
    initial tag set; title extraction runs, and its tags join, exactly when
    the tag set loaded from the event is empty or the event is new.  So for
    an existing event with a loaded set that is not empty the staged set is
    the loaded set and the attendee tag; with an empty loaded set it is the
    title tags and the attendee tag; for a new event, which has neither a
    title nor attendees to derive from, it is empty. *)
Theorem staged_on_open (e : open_event) (w : world) (c : string) :
  calendar_calendarId e = Some c → c ≠ "" →
  let w' := (onCalendarEventOpen e w).2 in
  (∀ (eventId : string) (ev : event),
     calendar_id e = Some eventId → eventId ≠ "" →
     refuses (Calendar w) (Events_get c eventId) = false →
     events (Calendar w) !! (c, eventId) = Some ev →
     cache_miss w ("selectedTags_" +:+ eventId) →
     let key := "selectedTags_" +:+ eventId in
     let loaded := loaded_tags w c eventId in
     let auto := attendee_tag w (default [] (attendees ev)) in
     (loaded ≠ [] →
      userCache w' !! key = Some (Json (JArr (add_tag loaded auto)), CACHE_TIME))
     ∧ (loaded = [] → ∀ extracted,
          (extractTagFromTitle (summary ev) w).1 = Return extracted →
          userCache w' !! key
          = Some (Json (JArr (add_tag (add_tags loaded extracted) auto)), CACHE_TIME)))
  ∧ (unsaved e w c →
     let key := "selectedTags_new_" +:+ uuid_source w (uuid_drawn w) in
     cache_miss w key →
     userCache w' !! key = Some (Json (JArr []), CACHE_TIME)).
Proof.
  intros Hc Hcne w'. split.
  - intros eventId ev Hid Hidne Hrefuse Hev Hmiss.
    by apply (onCalendarEventOpen_existing e w c eventId ev).
  - intros Hunsaved key Hmiss. by apply (onCalendarEventOpen_new e w c).
Qed.

Lemma staged_on_open_witness :
  userCache (onCalendarEventOpen Sample.open_e1 Sample.tagged_world).2 !! "selectedTags_e1"
  = Some (Json (JArr [JStr "#Work"; JStr "#Sales"]), CACHE_TIME).
Proof.
  apply (proj1 (proj1 (staged_on_open Sample.open_e1 Sample.tagged_world "primary"
                         eq_refl ltac:(discriminate))
                  "e1" Sample.tagged_event eq_refl ltac:(discriminate) eq_refl eq_refl
                  (ex_intro _ JNull (conj eq_refl eq_refl)))).
  discriminate.
Defined.

(** C6, as it is stated, fails: the event [e1] exists and carries the saved
    tag set [["#Work"]], nothing is staged for it, and opening it stages
    [["#Work", "#Sales"]]: the tag derived from the attendee's domain is
    added to a loaded set that is not empty. *)
Lemma staged_on_open_counterexample :
  let w := Sample.tagged_world in
  let w' := (onCalendarEventOpen Sample.open_e1 w).2 in
  events (Calendar w) !! ("primary", "e1") = Some Sample.tagged_event
  ∧ userCache w !! "selectedTags_e1" = None
  ∧ loaded_tags w "primary" "e1" = [JStr "#Work"]
  ∧ userCache w' !! "selectedTags_e1"
    = Some (Json (JArr [JStr "#Work"; JStr "#Sales"]), CACHE_TIME)
  ∧ [JStr "#Work"; JStr "#Sales"] ≠ loaded_tags w "primary" "e1".
Proof.
  cbv zeta. repeat split; try reflexivity. discriminate.
Qed.

(** *** The flush *)

Lemma find_update_field_other (key key' : string) (v : json) (fs : list (string * json)) :
  key ≠ key' →
  List.find (has_key key) (update_field key' v fs) = List.find (has_key key) fs.
Proof.
  intros Hne. induction fs as [|f fs IH]; [done|]. simpl.
  destruct (has_key key' f) eqn:Hf; simpl.
  - unfold has_key in *. simpl. apply bool_decide_eq_true in Hf.
    rewrite !bool_decide_eq_false_2; [done|congruence|congruence].
  - rewrite IH. done.
Qed.

Lemma update_field_keys (key : string) (v : json) (fs : list (string * json)) :
  fst <$> update_field key v fs = fst <$> fs.
Proof.
  induction fs as [|f fs IH]; [done|]. cbn [update_field].
  destruct (has_key key f) eqn:Hf; cbn [fmap list_fmap].
  - unfold has_key in Hf. apply bool_decide_eq_true in Hf. by rewrite <- Hf.
  - f_equal. apply IH.
Qed.

Lemma is_dirty_has_key (fs : list (string * json)) (key : string) :
  is_dirty (JObj fs) key = true → existsb (has_key key) fs = true.
Proof.
  unfold is_dirty. simpl. intros Hd.
  destruct (List.find (has_key key) fs) as [f|] eqn:Hfind; [|done].
  apply find_some in Hfind as [Hin Hkey]. apply existsb_exists. eauto.
Qed.

Lemma mark_clean (fs : list (string * json)) (key : string) :
  is_dirty (JObj fs) key = true →
  set_property (JObj fs) key (JStr "Clean") = Return (JObj (update_field key (JStr "Clean") fs)).
Proof. intros Hd. simpl. by rewrite is_dirty_has_key. Qed.

(** What the body of the loop does for one key. *)
Lemma saveTags_body_run (c key : string) (fs : list (string * json)) (w : world) :
  saveTags_body c (JObj fs) key w =
    if is_dirty (JObj fs) key then
      match JSON_parse (fst <$> userCache w !! key) with
      | Throw e => (Throw e, w)
      | Return selectedTags =>
          if truthy selectedTags then
            match target key with
            | None => (Return (JObj fs), w)
            | Some i =>
                let w1 := set_Calendar (issue (Events_get c i)) w in
                if refuses (Calendar w) (Events_get c i) then (Return (JObj fs), w1)
                else
                  match events (Calendar w) !! (c, i) with
                  | None => (Return (JObj fs), w1)
                  | Some ev =>
                      match write_selectedTags ev (Json (JArr (Array_from selectedTags))) with
                      | Throw _ => (Return (JObj fs), w1)
                      | Return ev' =>
                          let w2 := set_Calendar (issue (Events_update c i)) w1 in
                          if refuses (Calendar w) (Events_update c i)
                          then (Return (JObj fs), w2)
                          else
                            (Return (JObj (update_field key (JStr "Clean") fs)),
                             set_userCache (delete key)
                               (set_Calendar (λ cal,
                                  {| events := <[(c, i) := ev']> (events cal);
                                     refuses := refuses cal; issued := issued cal |}) w2))
                      end
                  end
            end
          else (Return (JObj fs), w)
      end
    else (Return (JObj fs), w).
Proof.
  unfold saveTags_body, target.
  destruct (is_dirty (JObj fs) key) eqn:Hd; [|done].
  unfold userCache_get, Calendar_Events_get, Calendar_Events_update, answer,
    userCache_remove. unfold_M.
  destruct (JSON_parse _) as [sel|e]; [|done].
  destruct (truthy sel); [|done]. cbn [negb].
  destruct (eventId_of key) as [i|]; [|done]. cbn [truthy_opt default]. unfold id.
  destruct (truthy_string i); [|done].
  destruct (refuses (Calendar w) (Events_get c i)); [done|].
  destruct (events (Calendar w) !! (c, i)) as [ev|] eqn:Hev; [|done].
  unfold JSON_stringify.
  destruct (write_selectedTags ev _) as [ev'|e]; [|done].
  cbn [Calendar set_Calendar issue refuses events].
  destruct (refuses (Calendar w) (Events_update c i)); [done|].
  rewrite Hev. by rewrite mark_clean.
Qed.

Lemma startsWith_split (s p : string) :
  startsWith s p = true → s = p +:+ substring (String.length p) s.
Proof.
  revert s. induction p as [|a p IH]; intros s; [done|].
  destruct s as [|b s]; [done|]. cbn [startsWith String.length substring].
  destruct (decide (a = b)) as [->|]; [|done]. intros Hp.
  rewrite append_cons. f_equal. by apply IH.
Qed.

Lemma staging_key_eventId (key i : string) :
  staging_key key → eventId_of key = Some i → key = "selectedTags_" +:+ i.
Proof.
  unfold staging_key, eventId_of. intros Hkey.
  destruct (startsWith key "selectedTags_new_"); [done|]. intros [= <-].
  by apply startsWith_split.
Qed.

Lemma target_eventId (key i : string) : target key = Some i → eventId_of key = Some i.
Proof.
  unfold target. destruct (eventId_of key) as [j|]; [|done].
  by destruct (truthy_string j); [intros [= ->]|].
Qed.

Lemma target_inj (k k' i : string) :
  staging_key k → staging_key k' → target k = Some i → target k' = Some i → k = k'.
Proof.
  intros Hk Hk' Ht Ht'.
  rewrite (staging_key_eventId k i), (staging_key_eventId k' i);
    auto using target_eventId.
Qed.

(** What the body of the loop for the key [key'] leaves as it is. *)
Lemma saveTags_body_frame (c key' : string) (fs : list (string * json)) (w : world) :
  let r := (saveTags_body c (JObj fs) key' w).1 in
  let w' := (saveTags_body c (JObj fs) key' w).2 in
  (∀ k, k ≠ key' ∨ target key' = None → userCache w' !! k = userCache w !! k)
  ∧ (∀ x, (∀ i, target key' = Some i → x ≠ (c, i)) →
          events (Calendar w') !! x = events (Calendar w) !! x)
  ∧ refuses (Calendar w') = refuses (Calendar w)
  ∧ (∃ new, issued (Calendar w') = new ++ issued (Calendar w)
            ∧ ∀ q, q ∈ new → target key' = Some (request_event q))
  ∧ match r with
    | Return stack =>
        ∃ fs', stack = JObj fs' ∧ fst <$> fs' = fst <$> fs
               ∧ ∀ k, k ≠ key' ∨ target key' = None →
                      get_property (JObj fs') k = get_property (JObj fs) k
    | Throw _ => True
    end.
Proof.
  rewrite saveTags_body_run.
  assert (∀ w0 : world,
    userCache w0 = userCache w → events (Calendar w0) = events (Calendar w) →
    refuses (Calendar w0) = refuses (Calendar w) →
    (∃ new, issued (Calendar w0) = new ++ issued (Calendar w)
            ∧ ∀ q, q ∈ new → target key' = Some (request_event q)) →
    (∀ k, k ≠ key' ∨ target key' = None → userCache w0 !! k = userCache w !! k)
    ∧ (∀ x, (∀ i, target key' = Some i → x ≠ (c, i)) →
            events (Calendar w0) !! x = events (Calendar w) !! x)
    ∧ refuses (Calendar w0) = refuses (Calendar w)
    ∧ (∃ new, issued (Calendar w0) = new ++ issued (Calendar w)
              ∧ ∀ q, q ∈ new → target key' = Some (request_event q))
    ∧ ∃ fs', JObj fs = JObj fs' ∧ fst <$> fs' = fst <$> fs
             ∧ ∀ k, k ≠ key' ∨ target key' = None →
                    get_property (JObj fs') k = get_property (JObj fs) k) as Hsame.
  { intros w0 Hcache Hevents Hrefuses Hlog. rewrite Hcache, Hevents.
    repeat split; try done. by exists fs. }
  assert (∃ new, issued (Calendar w) = new ++ issued (Calendar w)
                 ∧ ∀ q, q ∈ new → target key' = Some (request_event q)) as Hnil.
  { exists []. split; [done|]. by intros q ?%elem_of_nil. }
  destruct (is_dirty (JObj fs) key'); [|by apply Hsame].
  destruct (JSON_parse _) as [sel|e].
  2:{ cbn [fst snd]. repeat split; try done. }
  destruct (truthy sel); [|by apply Hsame].
  destruct (target key') as [i|] eqn:Htarget; [|by apply Hsame].
  cbv zeta.
  assert (∃ new, issued (Calendar (set_Calendar (issue (Events_get c i)) w))
                 = new ++ issued (Calendar w)
                 ∧ ∀ q, q ∈ new → Some i = Some (request_event q)) as Hone.
  { exists [Events_get c i]. split; [done|]. by intros q ->%list_elem_of_singleton. }
  assert (∃ new, issued (Calendar (set_Calendar (issue (Events_update c i))
                                     (set_Calendar (issue (Events_get c i)) w)))
                 = new ++ issued (Calendar w)
                 ∧ ∀ q, q ∈ new → Some i = Some (request_event q)) as Htwo.
  { exists [Events_update c i; Events_get c i]. split; [done|].
    intros q [->| ->%list_elem_of_singleton]%elem_of_cons; done. }
  destruct (refuses (Calendar w) (Events_get c i)); [by apply Hsame|].
  destruct (events (Calendar w) !! (c, i)) as [ev|]; [|by apply Hsame].
  destruct (write_selectedTags ev _) as [ev'|e]; [|by apply Hsame].
  destruct (refuses (Calendar w) (Events_update c i)); [by apply Hsame|].
  cbn [fst snd userCache set_userCache Calendar set_Calendar events refuses issued issue].
  split; [|split; [|split; [|split]]].
  - intros k [Hk|Hk]; [|done]. by rewrite lookup_delete_ne.
  - intros x Hx. rewrite lookup_insert_ne; [done|]. intros <-. by apply (Hx i).
  - done.
  - exact Htwo.
  - eexists. split; [done|]. split; [apply update_field_keys|].
    intros k [Hk|Hk]; [|done]. simpl. by rewrite find_update_field_other.
Qed.

Lemma saveTags_loop_cons (c key : string) (keys : list string) (stack : json) (w : world) :
  saveTags_loop c (key :: keys) stack w =
    match saveTags_body c stack key w with
    | (Return stack', w') => saveTags_loop c keys stack' w'
    | (Throw e, w') => (Throw e, w')
    end.
Proof. reflexivity. Qed.

Lemma saveTags_loop_app (c : string) (keys keys' : list string) (stack : json) (w : world) :
  saveTags_loop c (keys ++ keys') stack w =
    match saveTags_loop c keys stack w with
    | (Return stack', w') => saveTags_loop c keys' stack' w'
    | (Throw e, w') => (Throw e, w')
    end.
Proof.
  revert stack w. induction keys as [|key keys IH]; intros stack w; [done|].
  cbn [app]. rewrite !saveTags_loop_cons.
  destruct (saveTags_body c stack key w) as [[stack'|e] w']; [apply IH|done].
Qed.

(** What a run of the loop over [keys] leaves as it is. *)
Lemma saveTags_loop_frame (c : string) (keys : list string) (fs : list (string * json))
    (w : world) :
  let r := (saveTags_loop c keys (JObj fs) w).1 in
  let w' := (saveTags_loop c keys (JObj fs) w).2 in
  (∀ k, (k ∈ keys → target k = None) → userCache w' !! k = userCache w !! k)
  ∧ (∀ x, (∀ k i, k ∈ keys → target k = Some i → x ≠ (c, i)) →
          events (Calendar w') !! x = events (Calendar w) !! x)
  ∧ refuses (Calendar w') = refuses (Calendar w)
  ∧ (∃ new, issued (Calendar w') = new ++ issued (Calendar w)
            ∧ ∀ q, q ∈ new → ∃ k, k ∈ keys ∧ target k = Some (request_event q))
  ∧ match r with
    | Return stack =>
        ∃ fs', stack = JObj fs' ∧ fst <$> fs' = fst <$> fs
               ∧ ∀ k, (k ∈ keys → target k = None) →
                      get_property (JObj fs') k = get_property (JObj fs) k
    | Throw _ => True
    end.
Proof.
  revert fs w. induction keys as [|key keys IH]; intros fs w.
  { cbn [saveTags_loop fst snd mret M_ret]. repeat split; try done.
    - exists []. split; [done|]. by intros q ?%elem_of_nil.
    - by exists fs. }
  rewrite saveTags_loop_cons.
  pose proof (saveTags_body_frame c key fs w)
    as (Hcache & Hevents & Hrefuses & (new & Hnew & Hlog) & Hstack).
  cbv zeta in Hcache, Hevents, Hrefuses, Hnew, Hstack.
  assert (∀ k, (k ∈ key :: keys → target k = None) → k ≠ key ∨ target key = None)
    as Hside.
  { intros k Hk. destruct (decide (k = key)) as [->|]; [right; apply Hk; left|by left]. }
  destruct (saveTags_body c (JObj fs) key w) as [[stack1|e] w1]; cbn [fst snd] in *.
  - destruct Hstack as (fs1 & -> & Hkeys1 & Hget1).
    pose proof (IH fs1 w1)
      as (Hcache' & Hevents' & Hrefuses' & (new' & Hnew' & Hlog') & Hstack').
    cbv zeta in Hcache', Hevents', Hrefuses', Hnew', Hstack'.
    split; [|split; [|split; [|split]]].
    + intros k Hk. rewrite Hcache', Hcache; [done|by apply Hside|].
      intros Hin. apply Hk. by right.
    + intros x Hx. rewrite Hevents', Hevents; [done| |].
      * intros i. apply Hx. left.
      * intros k i Hin. apply Hx. by right.
    + by rewrite Hrefuses'.
    + exists (new' ++ new). split; [by rewrite Hnew', Hnew, app_assoc|].
      intros q [Hq|Hq]%elem_of_app.
      * destruct (Hlog' q Hq) as (k & Hk & Ht). exists k. split; [by right|done].
      * exists key. split; [left|by apply Hlog].
    + destruct (saveTags_loop c keys (JObj fs1) w1) as [[stack2|e] w2];
        cbn [fst snd] in *; [|done].
      destruct Hstack' as (fs2 & -> & Hkeys2 & Hget2).
      exists fs2. split; [done|]. split; [by rewrite Hkeys2|].
      intros k Hk. rewrite Hget2, Hget1; [done|by apply Hside|].
      intros Hin. apply Hk. by right.
  - split; [|split; [|split; [|split]]]; try done.
    + intros k Hk. apply Hcache. by apply Hside.
    + intros x Hx. apply Hevents. intros i. apply Hx. left.
    + exists new. split; [done|]. intros q Hq. exists key. split; [left|by apply Hlog].
Qed.

Lemma saveTagsFromCache_run (w : world) :
  saveTagsFromCache w =
    match dirty_index w with
    | Throw e => (Throw e, w)
    | Return stack =>
        if truthy stack then
          let c := default "" (cached_calendar w) in
          if truthy_string c then
            match saveTags_loop c (for_in_keys stack) stack w with
            | (Return stack', w') =>
                (Return (), set_userCache <["ModifiedEvents" := (Json stack', 21%N)]> w')
            | (Throw e, w') => (Throw e, w')
            end
          else (Return (), w)
        else (Return (), w)
    end.
Proof.
  unfold saveTagsFromCache, dirty_index, cached_calendar, userCache_get, userCache_put.
  unfold_M. destruct (JSON_parse _) as [stack|e]; [|done].
  destruct (truthy stack); [|done]. cbn [negb]. cbv zeta.
  destruct (truthy_string _); [|done]. cbn [negb].
  by destruct (saveTags_loop _ _ _ _) as [[stack'|e] w'].
Qed.

Lemma saveTags_body_returns (c key : string) (fs : list (string * json)) (w : world) :
  (is_dirty (JObj fs) key = true →
   ∃ j, JSON_parse (fst <$> userCache w !! key) = Return j) →
  ∃ stack, (saveTags_body c (JObj fs) key w).1 = Return stack.
Proof.
  intros Hparse. rewrite saveTags_body_run.
  destruct (is_dirty (JObj fs) key); [|by eexists].
  destruct Hparse as [j ->]; [done|].
  destruct (truthy j); [|by eexists].
  destruct (target key) as [i|]; [|by eexists]. cbv zeta.
  destruct (refuses _ (Events_get c i)); [by eexists|].
  destruct (events _ !! _) as [ev|]; [|by eexists].
  destruct (write_selectedTags ev _); [|by eexists].
  destruct (refuses _ _); by eexists.
Qed.

Lemma saveTags_loop_returns (c : string) (keys : list string) (fs : list (string * json))
    (w : world) :
  NoDup keys →
  (∀ k, k ∈ keys → is_dirty (JObj fs) k = true →
        ∃ j, JSON_parse (fst <$> userCache w !! k) = Return j) →
  ∃ stack, (saveTags_loop c keys (JObj fs) w).1 = Return stack.
Proof.
  intros Hnodup. revert fs w.
  induction Hnodup as [|key keys Hkey Hnodup IH]; intros fs w Hparse; [by eexists|].
  rewrite saveTags_loop_cons.
  destruct (saveTags_body_returns c key fs w) as [stack1 Hret].
  { apply Hparse. left. }
  pose proof (saveTags_body_frame c key fs w) as (Hcache & _ & _ & _ & Hstack).
  cbv zeta in Hcache, Hstack.
  destruct (saveTags_body c (JObj fs) key w) as [[stack1'|e] w1]; [|done].
  cbn [fst snd] in *. destruct Hstack as (fs1 & -> & _ & Hget).
  apply IH. intros k Hk Hdirty.
  assert (k ≠ key) as Hne by (by intros ->).
  rewrite Hcache by (by left). apply Hparse; [by right|].
  unfold is_dirty in *. by rewrite <- Hget by (by left).
Qed.

Lemma write_selectedTags_takes (ev : event) (value : text) :
  takes_tags ev →
  ∃ ev', write_selectedTags ev value = Return ev'
         ∧ saved_selectedTags ev' = Some value.
Proof.
  unfold takes_tags, write_selectedTags, saved_selectedTags. intros Htakes.
  destruct (extendedProperties ev) as [ep|]; simpl.
  - destruct (Htakes ep eq_refl) as [pr ->]. eexists. split; [done|]. simpl.
    by rewrite lookup_insert_eq.
  - eexists. split; [done|]. simpl. by rewrite lookup_insert_eq.
Qed.

Lemma is_dirty_status (stack : json) (key : string) :
  is_dirty stack key = true ↔ get_property stack key = Some (JStr "Dirty").
Proof.
  unfold is_dirty. destruct (get_property stack key) as [[]|]; simpl;
    try (split; [done|by intros [=]]).
  rewrite bool_decide_eq_true. split; [by intros ->|by intros [= ->]].
Qed.

Lemma saveTags_loop_key (c key i : string) (keys : list string)
    (fs : list (string * json)) (tags : list json) (w : world) :
  NoDup keys → Forall staging_key keys →
  (∀ k, k ∈ keys → is_dirty (JObj fs) k = true →
        ∃ j, JSON_parse (fst <$> userCache w !! k) = Return j) →
  key ∈ keys → is_dirty (JObj fs) key = true → target key = Some i →
  fst <$> userCache w !! key = Some (Json (JArr tags)) →
  ∃ fs' w',
    saveTags_loop c keys (JObj fs) w = (Return (JObj fs'), w')
    ∧ (remote_fails w c i →
       get_property (JObj fs') key = Some (JStr "Dirty")
       ∧ userCache w' !! key = userCache w !! key)
    ∧ (∀ ev, remote_ok w c i ev → takes_tags ev →
         get_property (JObj fs') key = Some (JStr "Clean")
         ∧ userCache w' !! key = None
         ∧ ∃ ev', events (Calendar w') !! (c, i) = Some ev'
                  ∧ saved_selectedTags ev' = Some (Json (JArr tags))).
Proof.
  intros Hnodup Hstaging Hparse Hin Hdirty Htarget Hstaged.
  destruct (saveTags_loop_returns c keys fs w Hnodup Hparse) as [stack Hret].
  apply list_elem_of_split in Hin as (pre & post & ->).
  apply NoDup_app in Hnodup as (_ & Hpre & Hpost).
  apply NoDup_cons in Hpost as [Hpost _].
  assert (key ∉ pre) as Hnotpre by (intros ?; apply (Hpre key); [done|left]).
  assert (∀ k j, k ∈ pre ++ key :: post → k ≠ key → target k = Some j → (c, i) ≠ (c, j))
    as Hother.
  { intros k j Hk Hne Hj [= <-]. apply Hne.
    rewrite Forall_forall in Hstaging.
    apply (target_inj k key i); auto. apply Hstaging. set_solver. }
  rewrite saveTags_loop_app in Hret |- *.
  pose proof (saveTags_loop_frame c pre fs w)
    as (Hcache1 & Hevents1 & Hrefuses1 & _ & Hstack1).
  cbv zeta in Hcache1, Hevents1, Hrefuses1, Hstack1.
  destruct (saveTags_loop c pre (JObj fs) w) as [[stack1|e] w1]; [|done].
  cbn [fst snd] in *. destruct Hstack1 as (fs1 & -> & Hkeys1 & Hget1).
  rewrite saveTags_loop_cons in Hret |- *. rewrite saveTags_body_run in Hret |- *.
  assert (is_dirty (JObj fs1) key = true) as Hdirty1.
  { apply is_dirty_status. rewrite Hget1 by (by intros ?). by apply is_dirty_status. }
  rewrite Hdirty1 in Hret |- *.
  rewrite Hcache1, Hstaged in Hret |- * by (by intros ?). cbn [JSON_parse truthy] in Hret |- *.
  rewrite Htarget in Hret |- *. cbv zeta in Hret |- *.
  rewrite Hrefuses1 in Hret |- *.
  rewrite (Hevents1 (c, i)) in Hret |- *
    by (intros k j Hk; apply Hother; [set_solver|by intros ->]).
  cbn [Array_from] in Hret |- *.
  assert (∀ fs2 w2,
    (∃ stack', (saveTags_loop c post (JObj fs2) w2).1 = Return stack') →
    ∃ fs' w',
      saveTags_loop c post (JObj fs2) w2 = (Return (JObj fs'), w')
      ∧ get_property (JObj fs') key = get_property (JObj fs2) key
      ∧ userCache w' !! key = userCache w2 !! key
      ∧ events (Calendar w') !! (c, i) = events (Calendar w2) !! (c, i)) as Hrest.
  { intros fs2 w2 [stack' Hret2].
    pose proof (saveTags_loop_frame c post fs2 w2)
      as (Hcache3 & Hevents3 & _ & _ & Hstack3).
    cbv zeta in Hcache3, Hevents3, Hstack3.
    destruct (saveTags_loop c post (JObj fs2) w2) as [[stack3|e] w3]; [|done].
    cbn [fst snd] in *. destruct Hstack3 as (fs3 & -> & _ & Hget3).
    exists fs3, w3. split; [done|]. split; [by apply Hget3; intros ?|].
    split; [by apply Hcache3; intros ?|].
    apply Hevents3. intros k j Hk. apply Hother; [set_solver|by intros ->]. }
  assert (∀ w2,
    userCache w2 = userCache w1 → 
    (∃ stack', (saveTags_loop c post (JObj fs1) w2).1 = Return stack') →
    ∃ fs' w',
      saveTags_loop c post (JObj fs1) w2 = (Return (JObj fs'), w')
      ∧ get_property (JObj fs') key = Some (JStr "Dirty")
      ∧ userCache w' !! key = userCache w !! key) as Hkept.
  { intros w2 Hcache2 Hret2.
    destruct (Hrest fs1 w2 Hret2) as (fs' & w' & Hrun & Hget & Hcache & _).
    exists fs', w'. split; [done|]. split.
    - rewrite Hget. by apply is_dirty_status.
    - by rewrite Hcache, Hcache2, Hcache1. }
  destruct (refuses (Calendar w) (Events_get c i)) eqn:Hget.
  { match type of Hret with
    | (saveTags_loop _ _ _ ?w2).1 = _ =>
        destruct (Hkept w2 eq_refl (ex_intro _ _ Hret)) as (fs' & w' & Hrun & Hst & Hca)
    end.
    exists fs', w'. split; [done|]. split; [done|]. intros ev (? & ? & ?); congruence. }
  destruct (events (Calendar w) !! (c, i)) as [ev|] eqn:Hev.
  2:{ match type of Hret with
    | (saveTags_loop _ _ _ ?w2).1 = _ =>
        destruct (Hkept w2 eq_refl (ex_intro _ _ Hret)) as (fs' & w' & Hrun & Hst & Hca)
    end.
      exists fs', w'. split; [done|]. split; [done|]. intros ev (? & ? & ?); congruence. }
  destruct (write_selectedTags ev (Json (JArr tags))) as [ev'|e] eqn:Hwrite.
  2:{ match type of Hret with
    | (saveTags_loop _ _ _ ?w2).1 = _ =>
        destruct (Hkept w2 eq_refl (ex_intro _ _ Hret)) as (fs' & w' & Hrun & Hst & Hca)
    end.
      exists fs', w'. split; [done|]. split; [done|].
      intros ev0 (_ & Hev0 & _) Htakes. rewrite Hev in Hev0. injection Hev0 as <-.
      destruct (write_selectedTags_takes ev (Json (JArr tags)) Htakes) as (? & ? & _).
      congruence. }
  destruct (refuses (Calendar w) (Events_update c i)) eqn:Hupdate.
  { match type of Hret with
    | (saveTags_loop _ _ _ ?w2).1 = _ =>
        destruct (Hkept w2 eq_refl (ex_intro _ _ Hret)) as (fs' & w' & Hrun & Hst & Hca)
    end.
    exists fs', w'. split; [done|]. split; [done|]. intros ev0 (? & ? & ?); congruence. }
  match type of Hret with
  | (saveTags_loop _ _ (JObj ?fs2) ?w2).1 = _ =>
      destruct (Hrest fs2 w2 (ex_intro _ _ Hret)) as (fs' & w' & Hrun & Hst & Hca & Hevs)
  end.
  exists fs', w'. split; [done|]. split.
  { intros [?|[?|?]]; congruence. }
  intros ev0 (_ & Hev0 & _) Htakes. rewrite Hev in Hev0. injection Hev0 as <-.
  rewrite Hst, Hca, Hevs.
  cbn [userCache set_userCache Calendar set_Calendar events].
  split; [|split].
  - cbn [get_property]. by rewrite find_update_field by (by apply is_dirty_has_key).
  - by rewrite lookup_delete_eq.
  - rewrite lookup_insert_eq. exists ev'. split; [done|].
    destruct (write_selectedTags_takes ev (Json (JArr tags)) Htakes) as (ev'' & Hw & Hs).
    congruence.
Qed.

Lemma is_dirty_key (fs : list (string * json)) (key : string) :
  is_dirty (JObj fs) key = true → key ∈ fst <$> fs.
Proof.
  intros Hd%is_dirty_has_key. apply existsb_exists in Hd as (f & Hin & Hkey).
  unfold has_key in Hkey. apply bool_decide_eq_true in Hkey as <-.
  apply list_elem_of_fmap. exists f. split; [done|]. by apply list_elem_of_In.
Qed.

(** C2: in a pass over a dirty index of staging keys whose staged payloads
    parse, every Dirty key of an existing event is settled on its own: when
    fetching or updating its event raises, the key stays Dirty and its
    staging entry stays as it is; when both go through (and the event can
    take the tags), the key becomes Clean, its staging entry is removed and
    the event carries the staged tag list, whatever happens to the keys
    before and after it.  The pass itself returns. *)
Theorem flush_isolates_failures (w : world) (fs : list (string * json)) (c : string) :
  dirty_index w = Return (JObj fs) →
  NoDup (fst <$> fs) → Forall staging_key (fst <$> fs) →
  cached_calendar w = Some c → c ≠ "" →
  (∀ k, k ∈ fst <$> fs → is_dirty (JObj fs) k = true →
        ∃ j, JSON_parse (fst <$> userCache w !! k) = Return j) →
  let w' := (saveTagsFromCache w).2 in
  (saveTagsFromCache w).1 = Return ()
  ∧ ∀ k i tags,
      is_dirty (JObj fs) k = true → target k = Some i →
      fst <$> userCache w !! k = Some (Json (JArr tags)) →
      (remote_fails w c i →
       status w' k = Some (JStr "Dirty") ∧ userCache w' !! k = userCache w !! k)
      ∧ (∀ ev, remote_ok w c i ev → takes_tags ev →
           status w' k = Some (JStr "Clean") ∧ userCache w' !! k = None
           ∧ ∃ ev', events (Calendar w') !! (c, i) = Some ev'
                    ∧ saved_selectedTags ev' = Some (Json (JArr tags))).
Proof.
  intros Hindex Hnodup Hstaging Hcal Hc Hparse w'. subst w'.
  rewrite saveTagsFromCache_run, Hindex, Hcal. cbn [truthy default for_in_keys]. cbv zeta.
  unfold id, truthy_string. rewrite bool_decide_eq_false_2 by done. cbn [negb].
  split.
  - destruct (saveTags_loop_returns c (fst <$> fs) fs w Hnodup Hparse) as [stack Hret].
    by destruct (saveTags_loop _ _ _ _) as [[stack'|e] w'].
  - intros k i tags Hdirty Htarget Hstaged.
    pose proof (is_dirty_key fs k Hdirty) as Hin.
    destruct (saveTags_loop_key c k i (fst <$> fs) fs tags w
                Hnodup Hstaging Hparse Hin Hdirty Htarget Hstaged)
      as (fs' & w' & -> & Hfails & Hok).
    cbn [fst snd].
    assert (status (set_userCache <["ModifiedEvents" := (Json (JObj fs'), 21%N)]> w') k
            = get_property (JObj fs') k) as ->.
    { unfold status, dirty_index. cbn [userCache set_userCache].
      by rewrite lookup_insert_eq. }
    assert (k ≠ "ModifiedEvents") as Hne.
    { rewrite Forall_forall in Hstaging. by apply staging_key_shape, Hstaging. }
    cbn [userCache set_userCache Calendar]. rewrite lookup_insert_ne by done.
    split; [exact Hfails|exact Hok].
Qed.

Lemma unsaved_key_staging (key : string) : unsaved_key key → staging_key key.
Proof.
  unfold unsaved_key, staging_key. intros Hkey.
  by rewrite (startsWith_split _ _ Hkey).
Qed.

Lemma unsaved_key_target (key : string) : unsaved_key key → target key = None.
Proof. unfold unsaved_key, target, eventId_of. by intros ->. Qed.

Lemma saveTags_body_unsaved (c key : string) (stack : json) (w : world) :
  unsaved_key key →
  (saveTags_body c stack key w).2 = w
  ∧ ((saveTags_body c stack key w).1 = Return stack
     ∨ (saveTags_body c stack key w).1 = Throw SyntaxError).
Proof.
  intros Hkey. unfold saveTags_body, eventId_of. rewrite Hkey.
  destruct (is_dirty stack key); [|by split; [|left]].
  unfold userCache_get. unfold_M.
  destruct (userCache w !! key) as [[[s|j] ttl]|]; simpl.
  - by split; [|right].
  - destruct (truthy j); by split; [|left].
  - by split; [|left].
Qed.

Lemma saveTagsFromCache_unsaved (key : string) (w : world) :
  unsaved_key key → unsaved_kept key w →
  let w' := (saveTagsFromCache w).2 in
  unsaved_kept key w'
  ∧ userCache w' !! key = userCache w !! key
  ∧ ∀ q, q ∈ issued (Calendar w') →
         q ∈ issued (Calendar w)
         ∨ request_event q ≠ substring (String.length "selectedTags_") key.
Proof.
  intros Hkey (fs & Hindex & Hstaging & Hdirty) w'. subst w'.
  assert (unsaved_kept key w) as Hkept by (by exists fs).
  rewrite saveTagsFromCache_run, Hindex. cbn [truthy for_in_keys]. cbv zeta.
  destruct (truthy_string _); [|by auto].
  set (c := default "" (cached_calendar w)).
  pose proof (saveTags_loop_frame c (fst <$> fs) fs w)
    as (Hcache & _ & _ & (new & Hnew & Hlog) & Hstack).
  cbv zeta in Hcache, Hnew, Hstack.
  pose proof (unsaved_key_target key Hkey) as Htarget.
  pose proof (unsaved_key_staging key Hkey) as Hstagingkey.
  assert ("ModifiedEvents" ∉ fst <$> fs) as Hme.
  { intros Hin. rewrite Forall_forall in Hstaging.
    by apply Hstaging, staging_key_shape in Hin as (_ & ? & _). }
  assert (∀ w0, issued (Calendar w0) = new ++ issued (Calendar w) →
          ∀ q, q ∈ issued (Calendar w0) →
               q ∈ issued (Calendar w)
               ∨ request_event q ≠ substring (String.length "selectedTags_") key)
    as Hissued.
  { intros w0 Hw0 q Hq. rewrite Hw0 in Hq. apply elem_of_app in Hq as [Hq|Hq]; [|by left].
    right. intros Heq. destruct (Hlog q Hq) as (k & Hk & Hkt).
    rewrite Forall_forall in Hstaging.
    assert (k = key) as ->; [|congruence].
    rewrite (staging_key_eventId k (request_event q)), Heq;
      [|by apply Hstaging|by apply target_eventId].
    symmetry. by apply startsWith_split. }
  destruct (saveTags_loop c (fst <$> fs) (JObj fs) w) as [[stack|e] w1]; cbn [fst snd] in *.
  - destruct Hstack as (fs1 & -> & Hkeys & Hget).
    split; [|split].
    + exists fs1. split; [|split].
      * unfold dirty_index. cbn [userCache set_userCache]. by rewrite lookup_insert_eq.
      * by rewrite Hkeys.
      * apply is_dirty_status. rewrite Hget by done. by apply is_dirty_status.
    + cbn [userCache set_userCache].
      rewrite lookup_insert_ne by (by apply staging_key_shape in Hstagingkey as (_ & ? & _)).
      by apply Hcache.
    + by apply Hissued.
  - split; [|split].
    + exists fs. split; [|done]. unfold dirty_index in *. by rewrite Hcache.
    + by apply Hcache.
    + by apply Hissued.
Qed.

(** C3: a Dirty key with the prefix of unsaved events is skipped by every
    pass: the round of the loop for it changes nothing and issues no remote
    request; after any number of passes the key is still Dirty, its staging
    entry is what it was, and no request for an event of that key has been
    issued. *)
Theorem unsaved_key_never_flushed (w : world) (key : string) :
  unsaved_key key → unsaved_kept key w →
  (∀ c stack w0, (saveTags_body c stack key w0).2 = w0)
  ∧ ∀ n,
      status (passes n w) key = Some (JStr "Dirty")
      ∧ userCache (passes n w) !! key = userCache w !! key
      ∧ ∀ q, q ∈ issued (Calendar (passes n w)) →
             q ∈ issued (Calendar w)
             ∨ request_event q ≠ substring (String.length "selectedTags_") key.
Proof.
  intros Hkey Hkept. split; [intros c stack w0; by apply saveTags_body_unsaved|].
  intros n. revert w Hkept. induction n as [|n IH]; intros w Hkept.
  - cbn [passes]. split; [|by auto].
    destruct Hkept as (fs & Hindex & _ & Hdirty). unfold status. rewrite Hindex.
    by apply is_dirty_status.
  - cbn [passes].
    destruct (saveTagsFromCache_unsaved key w Hkey Hkept) as (Hkept' & Hcache & Hlog).
    destruct (IH _ Hkept') as (Hst & Hca & Hlg).
    split; [done|]. split; [by rewrite Hca|].
    intros q Hq. destruct (Hlg q Hq) as [Hq'|Hq']; [by apply Hlog|by right].
Qed.

Lemma three_keys_hyps :
  let w := Sample.three_key_world in
  let fs := [("selectedTags_e1", JStr "Dirty"); ("selectedTags_e2", JStr "Dirty");
             ("selectedTags_e3", JStr "Dirty")] in
  dirty_index w = Return (JObj fs)
  ∧ NoDup (fst <$> fs) ∧ Forall staging_key (fst <$> fs)
  ∧ cached_calendar w = Some "primary" ∧ "primary" ≠ ""
  ∧ (∀ k, k ∈ fst <$> fs → is_dirty (JObj fs) k = true →
          ∃ j, JSON_parse (fst <$> userCache w !! k) = Return j).
Proof.
  cbv zeta. split; [reflexivity|]. split.
  { apply (bool_decide_unpack _). vm_compute. exact I. }
  split; [repeat constructor|]. split; [reflexivity|]. split; [discriminate|].
  intros k Hk _. cbn [fmap list_fmap fst] in Hk.
  repeat (apply elem_of_cons in Hk as [->|Hk]); [by eexists..|].
  by apply elem_of_nil in Hk.
Defined.

Lemma flush_isolates_failures_witness :
  let w := Sample.three_key_world in
  let w' := (saveTagsFromCache w).2 in
  (saveTagsFromCache w).1 = Return ()
  ∧ (status w' "selectedTags_e1" = Some (JStr "Clean")
     ∧ userCache w' !! "selectedTags_e1" = None)
  ∧ (status w' "selectedTags_e2" = Some (JStr "Dirty")
     ∧ userCache w' !! "selectedTags_e2" = userCache w !! "selectedTags_e2")
  ∧ (status w' "selectedTags_e3" = Some (JStr "Clean")
     ∧ userCache w' !! "selectedTags_e3" = None).
Proof.
  intros w w'.
  destruct three_keys_hyps as (Hindex & Hnodup & Hstaging & Hcal & Hc & Hparse).
  destruct (flush_isolates_failures w _ "primary" Hindex Hnodup Hstaging Hcal Hc Hparse)
    as [Hret Hkeys].
  split; [exact Hret|]. split; [|split].
  - destruct (Hkeys "selectedTags_e1" "e1" [JStr "#Work"] eq_refl eq_refl eq_refl)
      as [_ Hok].
    destruct (Hok (Sample.plain_event "Standup")) as (Hst & Hca & _).
    + by repeat split.
    + by intros ep.
    + by split.
  - destruct (Hkeys "selectedTags_e2" "e2" [JStr "#Personal"] eq_refl eq_refl eq_refl)
      as [Hfails _].
    apply Hfails. right. left. reflexivity.
  - destruct (Hkeys "selectedTags_e3" "e3" [JStr "#Work"; JStr "#Sales"]
                eq_refl eq_refl eq_refl) as [_ Hok].
    destruct (Hok (Sample.plain_event "Review")) as (Hst & Hca & _).
    + by repeat split.
    + by intros ep.
    + by split.
Defined.

Lemma unsaved_key_never_flushed_witness :
  let key := "selectedTags_new_uuid-0" in
  let w := Sample.unsaved_world in
  status (passes 3 w) key = Some (JStr "Dirty")
  ∧ userCache (passes 3 w) !! key = userCache w !! key.
Proof.
  intros key w.
  assert (unsaved_kept key w) as Hkept.
  { exists [("selectedTags_new_uuid-0", JStr "Dirty"); ("selectedTags_e1", JStr "Dirty")].
    split; [reflexivity|]. split; [repeat constructor|reflexivity]. }
  destruct (proj2 (unsaved_key_never_flushed w key eq_refl Hkept) 3) as (Hst & Hca & _).
  by split.
Defined.

(** C1 fails on the code: the calendar answers every request, the key
    [selectedTags_e1] is Dirty, addresses the existing event [e1] and has
    the tag list [["#Work"]] staged, but the event has extended properties
    with a [shared] part only; the pass fetches the event, cannot write the
    tags into the missing [private] part, issues no update, and leaves the
    key Dirty, its staging entry in place and the event as it was. *)
Theorem flush_skips_event_without_private :
  let w := Sample.shared_only_world in
  let w' := (saveTagsFromCache w).2 in
  status w "selectedTags_e1" = Some (JStr "Dirty")
  ∧ target "selectedTags_e1" = Some "e1"
  ∧ remote_ok w "primary" "e1" Sample.shared_only_event
  ∧ fst <$> userCache w !! "selectedTags_e1" = Some (Json (JArr [JStr "#Work"]))
  ∧ (saveTagsFromCache w).1 = Return ()
  ∧ status w' "selectedTags_e1" = Some (JStr "Dirty")
  ∧ userCache w' !! "selectedTags_e1" = userCache w !! "selectedTags_e1"
  ∧ events (Calendar w') !! ("primary", "e1") = Some Sample.shared_only_event
  ∧ issued (Calendar w') = [Events_get "primary" "e1"].
Proof. cbv zeta. unfold remote_ok. repeat split; reflexivity. Qed.

(** C4 fails on the code: with a staged payload that is no JSON under the
    first of two Dirty keys, the pass of the engine ends in the SyntaxError
    of [JSON.parse]: the second key is not reached, stays Dirty and staged,
    and no request is issued; opening the event of the first key ends in the
    same SyntaxError.  A click on a tag of that key does take the payload
    for the empty set. *)
Theorem malformed_payload_escapes :
  let w := Sample.malformed_world in
  let w' := (saveTagsFromCache w).2 in
  (fst <$> userCache w !! "selectedTags_e1" = Some (Raw "{oops"))
  ∧ (saveTagsFromCache w).1 = Throw SyntaxError
  ∧ status w' "selectedTags_e2" = Some (JStr "Dirty")
  ∧ userCache w' !! "selectedTags_e2" = userCache w !! "selectedTags_e2"
  ∧ issued (Calendar w') = []
  ∧ (onCalendarEventOpen Sample.open_e1 w).1 = Throw SyntaxError
  ∧ staged_set (handleTagClick (click "#Work" "selectedTags_e1") w).2 "selectedTags_e1"
    = [JStr "#Work"].
Proof. cbv zeta. repeat split; reflexivity. Qed.

(** ** Further properties of the code *)

(** *** The catalogue *)

Lemma keep_first_member (l : list string) (x : string) : x ∈ keep_first l ↔ x ∈ l.
Proof.
  split.
  - induction l as [|y l IH]; [done|]. cbn [keep_first].
    intros [->|Hx]%elem_of_cons; [left|].
    apply list_elem_of_filter in Hx as [_ Hx]. right. by apply IH.
  - induction l as [|y l IH]; [done|]. cbn [keep_first].
    destruct (decide (x = y)) as [->|Hxy]; [left|].
    intros [->|Hx]%elem_of_cons; [done|]. right.
    apply list_elem_of_filter. split; [done|]. by apply IH.
Qed.

Lemma keep_first_distinct (l : list string) : NoDup (keep_first l).
Proof.
  induction l as [|y l IH]; [constructor|]. cbn [keep_first].
  apply NoDup_cons. split.
  - by intros [? _]%list_elem_of_filter.
  - by apply NoDup_filter.
Qed.

Lemma with_sigil_sigil (s : string) : startsWith (with_sigil s) "#" = true.
Proof.
  unfold with_sigil. destruct (startsWith s "#") eqn:Hs; [done|].
  rewrite hash_append. by destruct s.
Qed.

Lemma spreadsheet_tags_sigil (w : world) (t : string) :
  t ∈ spreadsheet_tags w → startsWith t "#" = true.
Proof.
  unfold spreadsheet_tags. destruct (tag_column w) as [values|]; [|by intros ?%elem_of_nil].
  destruct (decide _); [by intros ?%elem_of_nil|].
  unfold sheet_tags. intros (c & Hc & Ht)%list_elem_of_omap.
  destruct c as [s|]; [|done]. cbn [cell_tag] in Ht. unfold text_tag in Ht.
  destruct (decide (s = "")); [done|].
  injection Ht as <-. rewrite <- with_sigil_normalized. apply with_sigil_sigil.
Qed.

(** X1: [fetchTagsFromSpreadsheet] never raises and leaves the state as it
    is, whatever the settings and the spreadsheet hold; the tags it returns
    are pairwise different and each begins with [#]. *)
Theorem fetchTagsFromSpreadsheet_total (w : world) :
  ∃ tags, fetchTagsFromSpreadsheet w = (Return (JStr <$> tags), w)
          ∧ NoDup tags ∧ Forall (λ t, startsWith t "#" = true) tags.
Proof.
  exists (keep_first (spreadsheet_tags w)). split; [apply fetchTagsFromSpreadsheet_tags|].
  split; [apply keep_first_distinct|].
  apply Forall_forall. intros t Ht. apply (proj1 (keep_first_member _ _)) in Ht.
  by eapply spreadsheet_tags_sigil.
Qed.

(** X2: the catalogue is memoized: once [getUserTags] has returned, a call
    in any state whose [userTags] property is the one it left returns the
    same catalogue and changes nothing, whatever the spreadsheet holds by
    then. *)
Theorem getUserTags_memoized (w w' : world) (j : json) :
  getUserTags w = (Return j, w') →
  ∀ w2, userTags (userProperties w2) = userTags (userProperties w') →
        getUserTags w2 = (Return j, w2).
Proof.
  rewrite getUserTags_run. intros Hrun w2 Hmemo. rewrite getUserTags_run, Hmemo.
  destruct (JSON_parse (userTags (userProperties w))) as [j0|e] eqn:Hparse; [|done].
  destruct (truthy j0) eqn:Htruthy.
  - injection Hrun as <- <-. by rewrite Hparse, Htruthy.
  - cbv zeta in Hrun. injection Hrun as <- <-. reflexivity.
Qed.

Lemma getUserTags_memoized_witness :
  getUserTags (getUserTags Sample.sales_world).2
  = (Return (catalog ["#Work"; "#Personal"; "#Internal_Meeting"; "#External_Meeting";
                      "#Sales"]),
     (getUserTags Sample.sales_world).2).
Proof.
  apply (getUserTags_memoized Sample.sales_world (getUserTags Sample.sales_world).2);
    reflexivity.
Defined.

(** X3: [getUserTags] raises exactly when the [userTags] property holds a
    string that is no JSON; the error is a [SyntaxError] and the state is
    left as it is. *)
Theorem getUserTags_raises (w w' : world) (e : exn) :
  getUserTags w = (Throw e, w') ↔
  (∃ s, userTags (userProperties w) = Some (Raw s)) ∧ e = SyntaxError ∧ w' = w.
Proof.
  rewrite getUserTags_run. split.
  - destruct (userTags (userProperties w)) as [[s|j]|]; simpl.
    + intros [= <- <-]. eauto.
    + by destruct (truthy j).
    + done.
  - intros ((s & ->) & -> & ->). reflexivity.
Qed.

(** *** The attendee lookup *)

Lemma lookup_domain_truthy (a : attendee) :
  truthy_opt (email a) = true →
  lookup_domain a = split "@" (default "" (email a)) !! 1.
Proof.
  unfold lookup_domain. destruct (email a) as [address|]; [|done]. simpl.
  by intros ->.
Qed.

Lemma scan_attendees_sound (atts : list attendee) (domains tags : list cell) (t : string) :
  settle (scan_attendees atts domains tags) = Some t →
  ∃ a d i s, a ∈ atts ∧ lookup_domain a = Some d
             ∧ domains !! i = Some (CellText d) ∧ tags !! i = Some (CellText s)
             ∧ s ≠ "" ∧ t = with_sigil s.
Proof.
  induction atts as [|a atts IH]; [done|]. cbn [scan_attendees].
  assert (settle (scan_attendees atts domains tags) = Some t →
          ∃ a0 d i s, a0 ∈ a :: atts ∧ lookup_domain a0 = Some d
                      ∧ domains !! i = Some (CellText d) ∧ tags !! i = Some (CellText s)
                      ∧ s ≠ "" ∧ t = with_sigil s) as Hrest.
  { intros (a0 & d & i & s & Ha0 & H)%IH. exists a0, d, i, s. split; [by right|done]. }
  destruct (truthy_opt (email a)) eqn:Hemail; [|done].
  rewrite <- (lookup_domain_truthy a Hemail).
  destruct (lookup_domain a) as [d|] eqn:Hd; [|by rewrite scan_rows_no_domain].
  rewrite scan_rows_first.
  destruct (list_find _ domains) as [[j x]|] eqn:Hfind; [|done].
  apply list_find_Some in Hfind as (Hj & -> & _). simpl.
  unfold row_tag. destruct (tags !! j) as [[s|[|]]|] eqn:Htag; simpl; try done.
  unfold truthy_string. destruct (decide (s = "")) as [->|Hs]; [done|].
  rewrite bool_decide_eq_false_2 by done. simpl. intros [= <-].
  exists a, d, j, s. repeat split; try done. left.
Qed.

(** X4: [getAutoTagFromAttendees] never raises and leaves the state as it
    is, for every list of attendees; a tag it returns begins with [#] and
    is the filled tag cell, with the sigil, of a row whose domain cell is
    the second [@]-piece of the address of one of the attendees. *)
Theorem auto_tag_sound (attendees : list attendee) (w : world) :
  ∃ tag, getAutoTagFromAttendees attendees w = (Return tag, w)
         ∧ ∀ t, tag = Some t →
             startsWith t "#" = true
             ∧ ∃ tags domains a d i s,
                 domain_table w = Some (tags, domains)
                 ∧ a ∈ attendees ∧ lookup_domain a = Some d
                 ∧ domains !! i = Some (CellText d) ∧ tags !! i = Some (CellText s)
                 ∧ s ≠ "" ∧ t = with_sigil s.
Proof.
  rewrite getAutoTagFromAttendees_table. eexists. split; [done|].
  intros t Ht. destruct (domain_table w) as [[tags domains]|]; [|done].
  apply scan_attendees_sound in Ht as (a & d & i & s & Ha & Hd & Hi & Hs & Hne & ->).
  split; [apply with_sigil_sigil|]. by exists tags, domains, a, d, i, s.
Qed.

(** *** Tokens of the title *)

(** X5: without a title, or with the empty title, [extractTagFromTitle]
    returns no tag and does not read the catalogue; with a title that has
    no token it reads the catalogue, which memoizes it or raises, and
    returns no tag whatever the catalogue is. *)
Theorem extractTagFromTitle_no_token :
  (∀ w, extractTagFromTitle None w = (Return [], w)
        ∧ extractTagFromTitle (Some "") w = (Return [], w))
  ∧ ∀ (title : string) (w : world),
      title ≠ "" → (∀ token, ¬ token_of title token) →
      extractTagFromTitle (Some title) w =
        match getUserTags w with
        | (Return _, w') => (Return [], w')
        | (Throw e, w') => (Throw e, w')
        end.
Proof.
  split; [done|]. intros title w Hne Hnone.
  assert (tagRegex_matches title = []) as Hno.
  { destruct (tagRegex_matches title) as [|token l] eqn:Hm; [done|].
    destruct (Hnone token). apply tagRegex_matches_tokens. rewrite Hm. left. }
  unfold extractTagFromTitle. unfold_M. simpl. unfold truthy_string.
  rewrite bool_decide_eq_false_2 by done. simpl. rewrite Hno.
  by destruct (getUserTags w) as [[j|e] w'].
Qed.

Lemma extractTagFromTitle_no_token_witness :
  extractTagFromTitle (Some "Lunch with the C# team") Sample.two_tag_world
  = (Return [], Sample.two_tag_world).
Proof.
  refine (eq_trans (proj2 extractTagFromTitle_no_token "Lunch with the C# team"
                      Sample.two_tag_world _ _) eq_refl).
  - discriminate.
  - intros token Htoken%tagRegex_matches_tokens. vm_compute in Htoken.
    by apply elem_of_nil in Htoken.
Defined.

(** *** The tags saved with an event *)

Lemma persisted_distinct (cal : calendar) (c i : string) : distinct (persisted cal c i).
Proof.
  unfold persisted. destruct (refuses _ _); [done|].
  destruct (events _ !! _) as [ev|]; [|done].
  destruct (saved_selectedTags ev) as [payload|]; [|done].
  destruct (truthy_text payload); [|done].
  destruct (JSON_parse _) as [parsed|]; [|done].
  destruct parsed; simpl; try done; apply Set_of_list_distinct.
Qed.

(** X6: [loadSelectedTags] never raises: for a new event it returns the
    empty set and asks nothing; for an event id it returns a set, no
    element twice, and leaves one request for the event, its fields
    restricted, in the log, with nothing else changed. *)
Theorem loadSelectedTags_total (c : string) (eventId : option string) (w : world) :
  eventId ≠ Some "" →
  ∃ tags,
    loadSelectedTags c eventId w =
      (Return tags,
       match eventId with
       | Some i => set_Calendar (issue (Events_get_fields c i)) w
       | None => w
       end)
    ∧ distinct tags.
Proof.
  intros _. destruct eventId as [i|].
  - rewrite loadSelectedTags_persisted. eexists. split; [done|]. apply persisted_distinct.
  - by exists [].
Qed.

Lemma loadSelectedTags_total_witness :
  ∃ tags,
    loadSelectedTags "primary" (Some "e1") Sample.tagged_world =
      (Return tags,
       set_Calendar (issue (Events_get_fields "primary" "e1")) Sample.tagged_world)
    ∧ distinct tags.
Proof. apply (loadSelectedTags_total "primary" (Some "e1") Sample.tagged_world). discriminate. Defined.

(** *** The card *)

Lemma filter_unselected (sel l : list string) :
  filter (λ tag, Set_has (JStr <$> sel) tag = false) (JStr <$> l)
  = JStr <$> filter (λ t, t ∉ sel) l.
Proof.
  induction l as [|x l IH]; [done|]. rewrite fmap_cons, !filter_cons, IH.
  rewrite Set_has_strings.
  destruct (decide (x ∈ sel)) as [Hx|Hx].
  - rewrite bool_decide_eq_true_2 by done.
    rewrite decide_False by done. by rewrite decide_False by (by intros ?).
  - rewrite bool_decide_eq_false_2 by done.
    rewrite decide_True by done. by rewrite decide_True by done.
Qed.

Lemma JStr_inj : Inj (=) (=) JStr.
Proof. by intros x y [= ->]. Qed.

Lemma new_Set_catalog (tags : list string) :
  new_Set (catalog tags) = Return (JStr <$> keep_first tags).
Proof. unfold catalog. simpl. by rewrite Set_of_list_strings. Qed.

(** X7: the card [rebuildCard] builds for the selected tags [sel] and a
    catalogue of strings shows the selected tags first, in their order,
    then the tags of the catalogue that are not selected; no tag has two
    buttons when none is selected twice; every button carries the cache
    key; a button is filled exactly when its tag is selected and in the
    catalogue, and grey exactly when its tag is selected and not in the
    catalogue. *)
Theorem rebuildCard_buttons (sel tags : list string) (key : string)
    (title : option string) (w w' : world) :
  getUserTags w = (Return (catalog tags), w') →
  ∃ c, rebuildCard (JStr <$> sel) key title w = (Return c, w')
       ∧ card_title c = or_empty title
       ∧ button_text <$> card_buttons c
         = JStr <$> (sel ++ filter (λ t, t ∉ sel) (keep_first tags))
       ∧ (NoDup sel → NoDup (button_text <$> card_buttons c))
       ∧ ∀ b, b ∈ card_buttons c →
           button_cacheKey b = key
           ∧ ∃ t, button_text b = JStr t
                  ∧ button_style b = (if decide (t ∈ sel ∧ t ∈ tags) then FILLED else TEXT)
                  ∧ button_background b
                    = (if decide (t ∈ sel ∧ t ∉ tags) then Some "#d3d3d3" else None).
Proof.
  intros Hcat. unfold rebuildCard. unfold_M. rewrite Hcat. cbv beta iota zeta.
  rewrite new_Set_catalog. cbv beta iota zeta. eexists. split; [done|].
  cbn [card_title card_buttons]. split; [done|].
  rewrite filter_unselected.
  assert (button_text <$>
            (selected_button (JStr <$> keep_first tags) key <$> (JStr <$> sel))
            ++ (catalog_button key <$> (JStr <$> filter (λ t, t ∉ sel) (keep_first tags)))
          = JStr <$> (sel ++ filter (λ t, t ∉ sel) (keep_first tags))) as Htexts.
  { rewrite !fmap_app. f_equal.
    - rewrite <- !list_fmap_compose. by apply list_fmap_ext.
    - rewrite <- !list_fmap_compose. by apply list_fmap_ext. }
  split; [exact Htexts|]. split.
  { intros Hsel. rewrite Htexts. apply (@NoDup_fmap_2 _ _ JStr JStr_inj).
    apply NoDup_app. split; [done|]. split.
    - by intros x Hx [Hnot _]%list_elem_of_filter.
    - apply NoDup_filter, keep_first_distinct. }
  intros b [Hb|Hb]%elem_of_app.
  - apply list_elem_of_fmap in Hb as (x & -> & Hx).
    apply list_elem_of_fmap in Hx as (t & -> & Ht).
    split; [done|]. exists t. split; [done|].
    cbn [selected_button button_style button_background]. rewrite Set_has_strings.
    destruct (decide (t ∈ tags)) as [Htag|Htag].
    + rewrite bool_decide_eq_true_2 by (by apply keep_first_member).
      rewrite decide_True by done. by rewrite decide_False by (by intros [_ ?]).
    + rewrite bool_decide_eq_false_2 by (by rewrite keep_first_member).
      rewrite decide_False by (by intros [_ ?]). by rewrite decide_True by done.
  - apply list_elem_of_fmap in Hb as (x & -> & Hx).
    apply list_elem_of_fmap in Hx as (t & -> & Ht).
    apply list_elem_of_filter in Ht as [Hnot _].
    split; [done|]. exists t. split; [done|].
    cbn [catalog_button button_style button_background].
    rewrite decide_False by (by intros [? _]). by rewrite decide_False by (by intros [? _]).
Qed.

Lemma rebuildCard_buttons_witness :
  ∃ c, rebuildCard (JStr <$> ["#Urgent"; "#Work"]) "selectedTags_e1" (Some "Review")
         Sample.two_tag_world = (Return c, Sample.two_tag_world)
       ∧ button_text <$> card_buttons c = [JStr "#Urgent"; JStr "#Work"; JStr "#Personal"]
       ∧ button_style <$> card_buttons c = [TEXT; FILLED; TEXT]
       ∧ button_background <$> card_buttons c = [Some "#d3d3d3"; None; None].
Proof.
  destruct (rebuildCard_buttons ["#Urgent"; "#Work"] ["#Work"; "#Personal"]
              "selectedTags_e1" (Some "Review") Sample.two_tag_world Sample.two_tag_world
              eq_refl) as (c & Hrun & _).
  exists c. split; [exact Hrun|]. by injection Hrun as <-.
Defined.

(** *** Marking a key *)

Lemma has_key_other (k key : string) (v : json) : k ≠ key → has_key k (key, v) = false.
Proof. intros Hk. unfold has_key. simpl. by rewrite bool_decide_eq_false_2. Qed.

Lemma has_key_same (key : string) (v : json) : has_key key (key, v) = true.
Proof. unfold has_key. simpl. by rewrite bool_decide_eq_true_2. Qed.

Lemma find_insert_index_other (k key : string) (n : nat) (v : json)
    (fs : list (string * json)) :
  k ≠ key →
  List.find (has_key k) (insert_index n key v fs) = List.find (has_key k) fs.
Proof.
  intros Hk. induction fs as [|f fs IH]; simpl.
  - by rewrite has_key_other.
  - destruct (array_index f.1) as [m|]; [destruct (decide (m < n))|]; simpl;
      rewrite ?has_key_other by done; try done.
    by rewrite IH.
Qed.

Lemma find_insert_index (key : string) (n : nat) (v : json) (fs : list (string * json)) :
  existsb (has_key key) fs = false →
  List.find (has_key key) (insert_index n key v fs) = Some (key, v).
Proof.
  induction fs as [|f fs IH]; simpl.
  - by rewrite has_key_same.
  - intros [Hf Hfs]%orb_false_iff.
    destruct (array_index f.1) as [m|]; [destruct (decide (m < n))|]; simpl;
      rewrite ?has_key_same; try done.
    rewrite Hf. by apply IH.
Qed.

Lemma find_append_other (k key : string) (v : json) (fs : list (string * json)) :
  k ≠ key → List.find (has_key k) (fs ++ [(key, v)]) = List.find (has_key k) fs.
Proof.
  intros Hk. induction fs as [|f fs IH]; simpl.
  - by rewrite has_key_other.
  - by destruct (has_key k f).
Qed.

Lemma set_property_object (fs : list (string * json)) (key : string) (v : json) :
  key ≠ "__proto__" →
  ∃ fs', set_property (JObj fs) key v = Return (JObj fs')
         ∧ get_property (JObj fs') key = Some v
         ∧ ∀ k, k ≠ key → get_property (JObj fs') k = get_property (JObj fs) k.
Proof.
  intros Hproto. cbn [set_property get_property].
  destruct (existsb (has_key key) fs) eqn:Hhas.
  - eexists. split; [done|]. split.
    + by rewrite find_update_field.
    + intros k Hk. by rewrite find_update_field_other.
  - rewrite decide_False by done.
    destruct (array_index key) as [n|]; eexists; (split; [done|]); split.
    + by rewrite find_insert_index.
    + intros k Hk. by rewrite find_insert_index_other.
    + by rewrite find_append_field.
    + intros k Hk. by rewrite find_append_other.
Qed.

Lemma update_field_same (key : string) (v : json) (fs : list (string * json)) :
  List.find (has_key key) fs = Some (key, v) → update_field key v fs = fs.
Proof.
  induction fs as [|f fs IH]; simpl; [done|].
  destruct (has_key key f) eqn:Hf.
  - by intros [= ->].
  - intros Hfind. by rewrite IH.
Qed.

Lemma find_has_key (key : string) (fs : list (string * json)) (v : json) :
  snd <$> List.find (has_key key) fs = Some v → 
  List.find (has_key key) fs = Some (key, v) ∧ existsb (has_key key) fs = true.
Proof.
  induction fs as [|f fs IH]; simpl; [done|].
  destruct (has_key key f) eqn:Hf; simpl.
  - intros [= <-]. split; [|done]. unfold has_key in Hf.
    apply bool_decide_eq_true in Hf. destruct f as [k x]. simpl in *. by subst.
  - done.
Qed.

Lemma set_property_again (fs : list (string * json)) (key : string) (v : json) :
  get_property (JObj fs) key = Some v → set_property (JObj fs) key v = Return (JObj fs).
Proof.
  cbn [get_property set_property]. intros [Hfind Hhas]%find_has_key.
  rewrite Hhas. by rewrite update_field_same.
Qed.

(** X8: when the dirty index is absent, empty or an object,
    [pushModifiedEvent] returns and marks its key Dirty (any key but
    [__proto__]), keeps the status of every other key and every other
    entry of the cache, and pushing the same key again changes nothing. *)
Theorem pushModifiedEvent_marks (key : string) (w : world) :
  index_ok w → key ≠ "__proto__" →
  let w' := (pushModifiedEvent key w).2 in
  (pushModifiedEvent key w).1 = Return ()
  ∧ status w' key = Some (JStr "Dirty")
  ∧ (∀ k, k ≠ key → status w' k = status w k)
  ∧ (∀ k, k ≠ "ModifiedEvents" → userCache w' !! k = userCache w !! k)
  ∧ userProperties w' = userProperties w ∧ Calendar w' = Calendar w
  ∧ pushModifiedEvent key w' = (Return (), w').
Proof.
  intros (index & Hindex & Hshape) Hproto.
  assert (∃ fs0, (if truthy index then index else JObj []) = JObj fs0
                 ∧ ∀ k, get_property (JObj fs0) k = get_property index k)
    as (fs0 & Hfs0 & Hsame).
  { destruct Hshape as [Hfalsy|[fs ->]]; [|by eauto].
    rewrite Hfalsy. exists []. split; [done|]. intros k.
    destruct index as [|b|lit|s|l|fs]; simpl in *; try done.
    - apply negb_false_iff, bool_decide_eq_true in Hfalsy as ->. simpl.
      by destruct (array_index k). }
  destruct (set_property_object fs0 key (JStr "Dirty") Hproto)
    as (fs1 & Hset & Hget & Hother).
  assert (pushModifiedEvent key w =
            (Return (), set_userCache <["ModifiedEvents" := (Json (JObj fs1), CACHE_TIME)]> w))
    as Hrun.
  { unfold pushModifiedEvent, userCache_get, userCache_put. unfold_M.
    unfold dirty_index in Hindex. rewrite Hindex, Hfs0, Hset. reflexivity. }
  rewrite Hrun. cbn [fst snd]. split; [done|].
  unfold status, dirty_index. cbn [userCache set_userCache].
  rewrite lookup_insert_eq. cbn [fmap option_fmap option_map fst JSON_parse].
  split; [done|]. split.
  { intros k Hk. rewrite Hother by done. rewrite Hsame.
    unfold dirty_index in Hindex. by rewrite Hindex. }
  split; [by intros k Hk; rewrite lookup_insert_ne|].
  split; [done|]. split; [done|].
  unfold pushModifiedEvent, userCache_get, userCache_put. unfold_M.
  cbn [userCache set_userCache]. rewrite lookup_insert_eq.
  cbn [fmap option_fmap option_map fst JSON_parse truthy].
  rewrite (set_property_again fs1 key (JStr "Dirty") Hget).
  unfold set_userCache. cbn. by rewrite insert_insert_eq.
Qed.

Lemma pushModifiedEvent_marks_witness :
  let w' := (pushModifiedEvent "selectedTags_e2" Sample.clean_world).2 in
  status w' "selectedTags_e2" = Some (JStr "Dirty")
  ∧ status w' "selectedTags_e1" = Some (JStr "Clean")
  ∧ pushModifiedEvent "selectedTags_e2" w' = (Return (), w').
Proof.
  intros w'.
  destruct (pushModifiedEvent_marks "selectedTags_e2" Sample.clean_world)
    as (_ & Hdirty & Hother & _ & _ & _ & Hagain).
  - eexists. split; [reflexivity|]. right. by eexists.
  - discriminate.
  - split; [exact Hdirty|]. split; [|exact Hagain].
    subst w'. by rewrite (Hother "selectedTags_e1").
Defined.

(** *** A click *)

Lemma same_value_eq (x y : json) : same_value x y = true → x = y.
Proof.
  destruct x, y; simpl; try done; intros ?%bool_decide_eq_true; by subst.
Qed.

Lemma Set_has_toggle_same (l : list json) (t : string) :
  Set_has (toggle l t) (JStr t) = negb (Set_has l (JStr t)).
Proof.
  unfold toggle. destruct (Set_has l (JStr t)) eqn:Hhas; simpl.
  - apply Set_delete_gone.
  - unfold Set_add. rewrite Hhas, Set_has_app, Hhas.
    unfold Set_has. cbn [existsb orb]. by rewrite same_value_string_refl.
Qed.

Lemma Set_has_delete_other (l : list json) (t : string) (x : json) :
  x ≠ JStr t → Set_has (Set_delete l (JStr t)) x = Set_has l x.
Proof.
  intros Hx. unfold Set_has, Set_delete. induction l as [|y l IH]; [done|].
  rewrite filter_cons.
  destruct (decide (same_value (JStr t) y = false)) as [Hy|Hy]; cbn [existsb].
  - by rewrite IH.
  - rewrite IH. apply not_false_is_true, same_value_string in Hy as ->.
    destruct (same_value x (JStr t)) eqn:Hxt; [|done].
    by apply same_value_eq in Hxt.
Qed.

Lemma Set_has_toggle_other (l : list json) (t : string) (x : json) :
  x ≠ JStr t → Set_has (toggle l t) x = Set_has l x.
Proof.
  intros Hx. unfold toggle. destruct (Set_has l (JStr t)) eqn:Hhas.
  - by apply Set_has_delete_other.
  - unfold Set_add. rewrite Hhas, Set_has_app.
    unfold Set_has at 2. cbn [existsb].
    destruct (same_value x (JStr t)) eqn:Hxt; [|by rewrite !orb_false_r].
    by apply same_value_eq in Hxt.
Qed.

Lemma handleTagClick_staged (tag key : string) (w : world) :
  key ≠ "" → key ≠ "ModifiedEvents" →
  userCache (handleTagClick (click tag key) w).2 !! key
  = Some (Json (JArr (toggle (staged_set w key) tag)), CACHE_TIME).
Proof.
  intros Hkey Hme. rewrite handleTagClick_cache by done. cbv zeta.
  destruct (dirty_index w) as [index|e]; [|by rewrite lookup_insert_eq].
  destruct (set_property _ _ _) as [stack|e]; [|by rewrite lookup_insert_eq].
  by rewrite lookup_insert_ne, lookup_insert_eq.
Qed.

(** X9: a click changes the set staged under its key by the clicked tag
    only: the tag is a member afterwards exactly when it was none before,
    every other value is a member as before, and no entry of the cache
    but that of the key and the dirty index is touched.  This holds
    whether the handler returns or raises. *)
Theorem click_flips_one_tag (tag key : string) (w : world) :
  key ≠ "" → key ≠ "ModifiedEvents" →
  let w' := (handleTagClick (click tag key) w).2 in
  Set_has (staged_set w' key) (JStr tag) = negb (Set_has (staged_set w key) (JStr tag))
  ∧ (∀ x, x ≠ JStr tag → Set_has (staged_set w' key) x = Set_has (staged_set w key) x)
  ∧ (∀ k, k ≠ key → k ≠ "ModifiedEvents" → userCache w' !! k = userCache w !! k).
Proof.
  intros Hkey Hme w'.
  assert (staged_set w' key = toggle (staged_set w key) tag) as ->.
  { unfold staged_set at 1. subst w'. rewrite handleTagClick_staged by done. simpl.
    apply Set_of_list_id, toggle_distinct, staged_set_distinct. }
  split; [apply Set_has_toggle_same|]. split; [intros x Hx; by apply Set_has_toggle_other|].
  intros k Hk Hkme. subst w'. rewrite handleTagClick_cache by done. cbv zeta.
  destruct (dirty_index w) as [index|e]; [|by rewrite lookup_insert_ne].
  destruct (set_property _ _ _) as [stack|e]; [|by rewrite lookup_insert_ne].
  by rewrite !lookup_insert_ne.
Qed.

Lemma click_flips_one_tag_witness :
  let w := Sample.clean_world in
  let w' := (handleTagClick (click "#Work" "selectedTags_e1") w).2 in
  Set_has (staged_set w "selectedTags_e1") (JStr "#Work") = true
  ∧ Set_has (staged_set w' "selectedTags_e1") (JStr "#Work") = false
  ∧ userCache w' !! "calendarId" = userCache w !! "calendarId".
Proof.
  intros w w'.
  destruct (click_flips_one_tag "#Work" "selectedTags_e1" w) as (Hflip & _ & Hkeys);
    [discriminate..|].
  split; [reflexivity|]. split; [exact Hflip|]. by apply Hkeys.
Defined.

Lemma rebuildCard_returns (selectedTags : list json) (key : string)
    (title : option string) (w : world) :
  memo_usable w → ∃ c w', rebuildCard selectedTags key title w = (Return c, w')
                          ∧ card_title c = or_empty title.
Proof.
  intros Hmemo. unfold rebuildCard. unfold_M. rewrite getUserTags_run.
  destruct Hmemo as [->|[l ->]]; cbn [JSON_parse truthy]; cbv beta iota zeta.
  - rewrite new_Set_catalog. by eexists _, _.
  - by eexists _, _.
Qed.

(** X10: [handleTagClick] on a staging key returns the updated card, with
    the empty title, whenever the dirty index is absent, empty or an
    object and the memoized catalogue is absent or an array, whatever is
    staged under the key: nothing, a string that is no JSON, a value that
    is no list.  The toggled set is staged and the key is left Dirty. *)
Theorem handleTagClick_returns (tag key : string) (w : world) :
  staging_key key → index_ok w → memo_usable w →
  let w' := (handleTagClick (click tag key) w).2 in
  (∃ c, (handleTagClick (click tag key) w).1 = Return (updateCard c) ∧ card_title c = "")
  ∧ userCache w' !! key = Some (Json (JArr (toggle (staged_set w key) tag)), CACHE_TIME)
  ∧ status w' key = Some (JStr "Dirty").
Proof.
  intros Hstaging (index & Hindex & Hshape) Hmemo.
  pose proof (staging_key_shape key Hstaging) as (Hkey & Hme & _).
  assert (∃ fs0, (if truthy index then index else JObj []) = JObj fs0) as [fs0 Hfs0].
  { destruct Hshape as [->|[fs ->]]; eauto. }
  destruct (set_property_staging_key fs0 key (JStr "Dirty") Hstaging)
    as (fs1 & Hset & Hget).
  intros w'. split; [|split].
  - unfold handleTagClick, click.
    cbn [parameters_cacheKey parameters_tag truthy_opt default].
    unfold truthy_string. rewrite bool_decide_eq_false_2 by done. cbn [negb]. unfold id.
    unfold pushModifiedEvent, userCache_get, userCache_put. unfold_M.
    cbn [fst snd userCache set_userCache].
    assert (∀ (m : gmap string (text * N)) v,
              fst <$> <[key := v]> m !! "ModifiedEvents" = fst <$> m !! "ModifiedEvents")
      as Hother by (intros m v; by rewrite lookup_insert_ne).
    unfold dirty_index in Hindex.
    destruct (JSON_parse (fst <$> userCache w !! key)) as [parsed|e];
      [destruct (new_Set parsed) as [tags|e]|];
      rewrite Hother, Hindex, Hfs0, Hset;
      match goal with
      | |- context [rebuildCard ?s ?k ?t ?w2] =>
          destruct (rebuildCard_returns s k t w2 Hmemo) as (c & w3 & -> & Htitle);
          by exists c
      end.
  - subst w'. by apply handleTagClick_staged.
  - subst w'. unfold status, dirty_index. rewrite handleTagClick_cache by done. cbv zeta.
    rewrite Hindex, Hfs0, Hset. rewrite lookup_insert_eq. simpl. simpl in Hget. by rewrite Hget.
Qed.

Lemma handleTagClick_returns_witness :
  let w := Sample.malformed_world in
  let w' := (handleTagClick (click "#Work" "selectedTags_e1") w).2 in
  fst <$> userCache w !! "selectedTags_e1" = Some (Raw "{oops")
  ∧ (∃ c, (handleTagClick (click "#Work" "selectedTags_e1") w).1 = Return (updateCard c)
          ∧ card_title c = "")
  ∧ userCache w' !! "selectedTags_e1" = Some (Json (JArr [JStr "#Work"]), CACHE_TIME)
  ∧ status w' "selectedTags_e1" = Some (JStr "Dirty").
Proof.
  intros w w'. split; [reflexivity|].
  apply (handleTagClick_returns "#Work" "selectedTags_e1" w).
  - reflexivity.
  - eexists. split; [reflexivity|]. right. by eexists.
  - by left.
Defined.

(** X23: when the dirty index is no JSON, a click raises a [SyntaxError]
    after it has staged the toggled set: the set is in the cache, the
    index is as it was, so the key is not marked for the write-back, and
    the catalogue is not read. *)
Theorem click_with_broken_index (tag key : string) (w : world) (e : exn) :
  key ≠ "" → key ≠ "ModifiedEvents" → dirty_index w = Throw e →
  let w' := (handleTagClick (click tag key) w).2 in
  (handleTagClick (click tag key) w).1 = Throw SyntaxError
  ∧ userCache w'
    = <[key := (Json (JArr (toggle (staged_set w key) tag)), CACHE_TIME)]> (userCache w)
  ∧ dirty_index w' = dirty_index w
  ∧ userProperties w' = userProperties w ∧ Calendar w' = Calendar w.
Proof.
  intros Hkey Hme Hindex.
  assert (∃ s, fst <$> userCache w !! "ModifiedEvents" = Some (Raw s)) as [s Hraw].
  { unfold dirty_index in Hindex. destruct (fst <$> userCache w !! "ModifiedEvents")
      as [[s|j]|]; [by exists s|done..]. }
  unfold handleTagClick, click.
  cbn [parameters_cacheKey parameters_tag truthy_opt default].
  unfold truthy_string. rewrite bool_decide_eq_false_2 by done. cbn [negb]. unfold id.
  unfold pushModifiedEvent, userCache_get, userCache_put, dirty_index, staged_set.
  unfold_M. cbn [fst snd userCache set_userCache].
  assert (∀ (m : gmap string (text * N)) v,
            fst <$> <[key := v]> m !! "ModifiedEvents" = fst <$> m !! "ModifiedEvents")
    as Hother by (intros m v; by rewrite lookup_insert_ne).
  destruct (JSON_parse (fst <$> userCache w !! key)) as [parsed|e0];
    [destruct (new_Set parsed) as [tags|e0]|];
    rewrite !Hother, Hraw; cbn [JSON_parse fst snd userCache set_userCache];
    rewrite ?Hother, ?Hraw; by repeat split.
Qed.

Lemma click_with_broken_index_witness :
  let w := Sample.broken_index_world in
  let w' := (handleTagClick (click "#Urgent" "selectedTags_e1") w).2 in
  (handleTagClick (click "#Urgent" "selectedTags_e1") w).1 = Throw SyntaxError
  ∧ userCache w' !! "selectedTags_e1"
    = Some (Json (JArr [JStr "#Work"; JStr "#Urgent"]), CACHE_TIME)
  ∧ dirty_index w' = Throw SyntaxError.
Proof.
  intros w w'.
  destruct (click_with_broken_index "#Urgent" "selectedTags_e1" w SyntaxError)
    as (Hraise & Hcache & Hindex & _); [discriminate..|reflexivity|].
  split; [exact Hraise|]. split; [|exact Hindex].
  subst w'. rewrite Hcache. by rewrite lookup_insert_eq.
Defined.

(** *** What opening an event reads and writes *)

Lemma initialTags_frame (c : string) (eventId title : option string)
    (atts : list attendee) (w : world) :
  let r := initialTags c eventId title atts w in
  userCache r.2 = userCache w
  ∧ events (Calendar r.2) = events (Calendar w)
  ∧ refuses (Calendar r.2) = refuses (Calendar w)
  ∧ (∃ new, issued (Calendar r.2) = new ++ issued (Calendar w) ∧ Forall is_read new)
  ∧ ∀ tags t', r.1 = Return (tags, t') → is_Some eventId ∨ atts = [] → t' = title.
Proof.
  unfold initialTags.
  assert (∃ loaded w1, loadSelectedTags c eventId w = (Return loaded, w1)
            ∧ userCache w1 = userCache w ∧ events (Calendar w1) = events (Calendar w)
            ∧ refuses (Calendar w1) = refuses (Calendar w)
            ∧ userProperties w1 = userProperties w ∧ SpreadsheetApp w1 = SpreadsheetApp w
            ∧ ∃ new, issued (Calendar w1) = new ++ issued (Calendar w) ∧ Forall is_read new)
    as (loaded & w1 & Hload & Hc1 & He1 & Hr1 & Hp1 & Hs1 & new & Hq1 & Hnew).
  { destruct eventId as [i|].
    - rewrite loadSelectedTags_persisted. eexists _, _. split; [done|].
      repeat split. exists [Events_get_fields c i]. split; [done|]. by repeat constructor.
    - exists [], w. repeat split. by exists []. }
  rewrite (bind_return _ _ _ _ _ Hload).
  set (cond := negb _ || _). clearbody cond.
  assert (∃ r2 w2, (if cond
                    then extractTagFromTitle title ≫= λ extractedTags,
                           mret (foldl Set_add loaded extractedTags)
                    else mret loaded) w1 = (r2, w2)
            ∧ userCache w2 = userCache w1 ∧ Calendar w2 = Calendar w1)
    as (r2 & w2 & Hsel & Hc2 & Hcal2).
  { destruct cond; [|by eexists _, _].
    pose proof (extractTagFromTitle_keeps title w1) as (_ & Hc & Hcal & _).
    unfold_M. destruct (extractTagFromTitle title w1) as [[x|e] w2]; by eexists _, _. }
  destruct r2 as [selected|e].
  2:{ rewrite (bind_throw _ _ _ _ _ Hsel). cbn [fst snd]. rewrite Hc2, Hcal2. repeat split; try done. by exists new. }
  rewrite (bind_return _ _ _ _ _ Hsel).
  rewrite (bind_return _ _ _ _ _ (getAutoTagFromAttendees_table atts w2)).
  cbn [fst snd mret M_ret]. rewrite Hc2, Hcal2. repeat split; try done; [by exists new|].
  intros tags t' Hret Hcase.
  assert (eventId = None → match domain_table w2 with
                           | Some (t, d) => settle (scan_attendees atts d t)
                           | None => None
                           end = None) as Hnone.
  { intros ->. destruct Hcase as [[? ?]| ->]; [done|]. by destruct (domain_table w2) as [[? ?]|]. }
  destruct eventId as [i|].
  - destruct (match domain_table w2 with Some _ => _ | None => _ end) as [t|];
      [destruct (truthy_string t)|]; by injection Hret as _ <-.
  - rewrite Hnone in Hret by done. by injection Hret as _ <-.
Qed.

Lemma showTagDialog_frame (tags : list json) (key : string) (title : option string)
    (w : world) :
  let r := showTagDialog tags key title w in
  userCache r.2 = userCache w ∧ Calendar r.2 = Calendar w
  ∧ ∀ resp, r.1 = Return resp → ∃ c, resp = pushCard c ∧ card_title c = or_empty title.
Proof.
  unfold showTagDialog. unfold_M.
  pose proof (rebuildCard_frame tags key title w) as (Hcache & Hcal & _).
  assert (∀ c, (rebuildCard tags key title w).1 = Return c → card_title c = or_empty title)
    as Htitle.
  { unfold rebuildCard. unfold_M. destruct (getUserTags w) as [[j|e] w1]; [|done].
    destruct (new_Set j); [|done]. by intros c [= <-]. }
  destruct (rebuildCard tags key title w) as [[card|e] w']; simpl in *; [|done].
  repeat split; try done. intros resp [= <-]. exists card. split; [done|]. by apply Htitle.
Qed.

Lemma fetch_phase (e : open_event) (w : world) :
  (if truthy_opt (calendar_id e) then
     try_catch
       (ev ← match calendar_calendarId e with
             | Some c => Calendar_Events_get c (default "" (calendar_id e))
             | None => mthrow ServiceError
             end;
        mret (calendar_id e, summary ev, default [] (Platform.attendees ev)))
       (λ _, mret (None, None, []))
   else mret (None, None, [])) w
  = (Return match fetched e w with
            | Some ev => (calendar_id e, summary ev, default [] (attendees ev))
            | None => (None, None, [])
            end, after_fetch e w).
Proof.
  unfold fetched, after_fetch. destruct (truthy_opt (calendar_id e)); [|done].
  unfold try_catch, Calendar_Events_get, answer. unfold_M.
  destruct (calendar_calendarId e) as [c|]; [|done].
  destruct (refuses _ _); [done|]. by destruct (events _ !! _).
Qed.

Lemma after_fetch_frame (e : open_event) (w : world) :
  userCache (after_fetch e w) = userCache w
  ∧ userProperties (after_fetch e w) = userProperties w
  ∧ events (Calendar (after_fetch e w)) = events (Calendar w)
  ∧ refuses (Calendar (after_fetch e w)) = refuses (Calendar w)
  ∧ uuid_source (after_fetch e w) = uuid_source w
  ∧ uuid_drawn (after_fetch e w) = uuid_drawn w
  ∧ ∃ new, issued (Calendar (after_fetch e w)) = new ++ issued (Calendar w)
           ∧ Forall is_read new.
Proof.
  unfold after_fetch. destruct (truthy_opt _); [|by repeat split; exists []].
  destruct (calendar_calendarId e) as [c|]; [|by repeat split; exists []].
  repeat split. eexists [_]. split; [done|]. by repeat constructor.
Qed.

Lemma onCalendarEventOpen_run (e : open_event) (w : world) :
  onCalendarEventOpen e w =
    let w0 := after_fetch e w in
    let eventId := fetched e w ≫= λ _, calendar_id e in
    let eventTitle := fetched e w ≫= summary in
    let atts := default [] (fetched e w ≫= attendees) in
    if truthy_opt (calendar_calendarId e) then
      let c := default "" (calendar_calendarId e) in
      let w1 := set_userCache <["calendarId" := (Raw c, 21600%N)]> w0 in
      let cacheKey := match eventId with
                      | Some i => "selectedTags_" +:+ i
                      | None => "selectedTags_new_" +:+ uuid_source w (uuid_drawn w)
                      end in
      let w2 := match eventId with
                | Some _ => w1
                | None => (Utilities_getUuid w1).2
                end in
      match JSON_parse (fst <$> userCache w0 !! cacheKey) with
      | Throw err => (Throw err, w2)
      | Return selectedTags =>
          if truthy selectedTags then
            match new_Set selectedTags with
            | Return shown => showTagDialog shown cacheKey eventTitle w2
            | Throw err => (Throw err, w2)
            end
          else
            match initialTags c eventId eventTitle atts w2 with
            | (Return (tags, title), w3) =>
                showTagDialog tags cacheKey title
                  (set_userCache <[cacheKey := (Json (JArr tags), CACHE_TIME)]> w3)
            | (Throw err, w3) => (Throw err, w3)
            end
      end
    else
      (Return (buildErrorCard "Calendar ID is not available. Please try again later."),
       w0).
Proof.
  unfold onCalendarEventOpen. rewrite (bind_return _ _ _ _ _ (fetch_phase e w)).
  pose proof (after_fetch_frame e w) as (Hc0 & _ & _ & _ & Hsrc & Hdrawn & _).
  cbv zeta. destruct (truthy_opt (calendar_calendarId e)) eqn:Hcal; cycle 1.
  { by destruct (fetched e w). }
  cbn [negb].
  destruct (fetched e w) as [ev|] eqn:Hf.
  - assert (∃ i, calendar_id e = Some i) as [i Hi].
    { unfold fetched in Hf. destruct (calendar_id e); [by eexists|done]. }
    rewrite Hi. cbn [mbind option_bind]. cbv beta iota zeta.
    unfold userCache_put, userCache_get. unfold_M.
    cbn [fst snd userCache set_userCache].
    rewrite lookup_insert_ne by done.
    destruct (JSON_parse _) as [selectedTags|err]; [|done].
    destruct (truthy selectedTags); cbn [negb].
    + by destruct (new_Set selectedTags).
    + by destruct (initialTags _ _ _ _ _) as [[[tags title]|err] w3].
  - cbn [mbind option_bind]. cbv beta iota zeta.
    unfold userCache_put, userCache_get, Utilities_getUuid. unfold_M.
    cbn [fst snd userCache set_userCache uuid_source uuid_drawn].
    rewrite lookup_insert_ne by done. rewrite Hsrc, Hdrawn.
    destruct (JSON_parse _) as [selectedTags|err]; [|done].
    destruct (truthy selectedTags); cbn [negb].
    + by destruct (new_Set selectedTags).
    + by destruct (initialTags _ _ _ _ _) as [[[tags title]|err] w3].
Qed.

(** X11: without a calendar id [onCalendarEventOpen] returns its error
    card, stages nothing, caches no calendar id and draws no uuid; without
    a cache key [handleTagClick] returns its error card and changes
    nothing. *)
Theorem handlers_without_key (w : world) :
  (∀ e, truthy_opt (calendar_calendarId e) = false →
        let w' := (onCalendarEventOpen e w).2 in
        (onCalendarEventOpen e w).1
        = Return (errorCard "Calendar ID is not available. Please try again later.")
        ∧ userCache w' = userCache w ∧ userProperties w' = userProperties w
        ∧ events (Calendar w') = events (Calendar w) ∧ uuid_drawn w' = uuid_drawn w)
  ∧ (∀ e, truthy_opt (parameters_cacheKey e) = false →
          handleTagClick e w = (Return (errorCard "Cache Key is missing."), w)).
Proof.
  split.
  - intros e Hcal. rewrite onCalendarEventOpen_run. cbv zeta. rewrite Hcal. cbn [fst snd].
    pose proof (after_fetch_frame e w) as (? & ? & ? & ? & ? & ? & _). by repeat split.
  - intros e Hkey. unfold handleTagClick. by rewrite Hkey.
Qed.

Lemma handlers_without_key_witness :
  (onCalendarEventOpen {| calendar_calendarId := None; calendar_id := Some "e1" |}
     Sample.tagged_world).1
  = Return (errorCard "Calendar ID is not available. Please try again later.")
  ∧ handleTagClick {| parameters_tag := "#Work"; parameters_cacheKey := Some "" |}
      Sample.clean_world
    = (Return (errorCard "Cache Key is missing."), Sample.clean_world).
Proof.
  destruct (handlers_without_key Sample.tagged_world) as [Hopen _].
  destruct (handlers_without_key Sample.clean_world) as [_ Hclick].
  split.
  - by apply (Hopen {| calendar_calendarId := None; calendar_id := Some "e1" |}).
  - by apply Hclick.
Defined.

(** X12: opening an event under whose key a truthy value is staged leaves
    that entry as it is, its time to live included: the cache gains the
    calendar id only, the one request made fetches the event (the tags
    saved with it are not read), and a card that is shown is titled with
    the summary of the event. *)
Theorem open_keeps_staged (e : open_event) (w : world) (c i : string) (ev : event)
    (j : json) (ttl : N) :
  calendar_calendarId e = Some c → c ≠ "" → calendar_id e = Some i → i ≠ "" →
  refuses (Calendar w) (Events_get c i) = false →
  events (Calendar w) !! (c, i) = Some ev →
  userCache w !! ("selectedTags_" +:+ i) = Some (Json j, ttl) → truthy j = true →
  let w' := (onCalendarEventOpen e w).2 in
  userCache w' = <["calendarId" := (Raw c, 21600%N)]> (userCache w)
  ∧ userCache w' !! ("selectedTags_" +:+ i) = Some (Json j, ttl)
  ∧ issued (Calendar w') = Events_get c i :: issued (Calendar w)
  ∧ events (Calendar w') = events (Calendar w)
  ∧ ∀ r, (onCalendarEventOpen e w).1 = Return r →
         ∃ shown c0, new_Set j = Return shown ∧ r = pushCard c0
                     ∧ card_title c0 = or_empty (summary ev).
Proof.
  intros Hc Hcne Hi Hine Hrefuse Hev Hstaged Htruthy.
  assert (fetched e w = Some ev) as Hf.
  { unfold fetched. rewrite Hc, Hi. cbn [truthy_opt default]. unfold truthy_string.
    rewrite bool_decide_eq_false_2 by done. cbn [negb]. unfold id. by rewrite Hrefuse. }
  assert (after_fetch e w = set_Calendar (issue (Events_get c i)) w) as Hw0.
  { unfold after_fetch. rewrite Hc, Hi. cbn [truthy_opt default]. unfold truthy_string.
    by rewrite bool_decide_eq_false_2 by done. }
  rewrite onCalendarEventOpen_run. cbv zeta. rewrite Hf, Hw0, Hc, Hi.
  cbn [truthy_opt default mbind option_bind]. unfold truthy_string.
  rewrite bool_decide_eq_false_2 by done. cbn [negb]. unfold id.
  cbn [userCache set_Calendar]. rewrite Hstaged. cbn [fmap option_fmap option_map fst JSON_parse].
  rewrite Htruthy.
  destruct (new_Set j) as [shown|err]; cbn [fst snd].
  - match goal with
    | |- context [showTagDialog ?s ?k ?t ?w2] =>
        pose proof (showTagDialog_frame s k t w2) as (Hcache & Hcalendar & Hresp);
        destruct (showTagDialog s k t w2) as [r w3]
    end.
    cbn [fst snd] in *. rewrite Hcache, Hcalendar. cbn [userCache set_userCache].
    split; [done|]. split; [by rewrite lookup_insert_ne|]. split; [done|]. split; [done|].
    intros r0 ->. destruct (Hresp _ eq_refl) as (c0 & -> & Htitle). by exists shown, c0.
  - cbn [userCache set_userCache]. split; [done|]. split; [by rewrite lookup_insert_ne|]. done.
Qed.

Lemma open_keeps_staged_witness :
  let w := Sample.staged_world in
  let w' := (onCalendarEventOpen Sample.open_e1 w).2 in
  userCache w' !! "selectedTags_e1" = Some (Json (JArr [JStr "#Personal"]), 57%N)
  ∧ issued (Calendar w') = [Events_get "primary" "e1"].
Proof.
  intros w w'.
  destruct (open_keeps_staged Sample.open_e1 w "primary" "e1" Sample.tagged_event
              (JArr [JStr "#Personal"]) 57%N)
    as (_ & Hentry & Hissued & _); try reflexivity; try discriminate.
  by split.
Defined.

(** X13: [onCalendarEventOpen] only reads the calendar: whatever it is
    given, and whether it returns or raises, the events are as before,
    every request it makes is a get, and the dirty index is untouched, so
    that the tags it derives and stages are not marked for the
    write-back. *)
Theorem open_reads_only (e : open_event) (w : world) :
  let w' := (onCalendarEventOpen e w).2 in
  events (Calendar w') = events (Calendar w)
  ∧ refuses (Calendar w') = refuses (Calendar w)
  ∧ userCache w' !! "ModifiedEvents" = userCache w !! "ModifiedEvents"
  ∧ (∀ k, status w' k = status w k)
  ∧ ∃ new, issued (Calendar w') = new ++ issued (Calendar w) ∧ Forall is_read new.
Proof.
  cbv zeta.
  assert (∀ w', events (Calendar w') = events (Calendar w)
                ∧ refuses (Calendar w') = refuses (Calendar w)
                ∧ userCache w' !! "ModifiedEvents" = userCache w !! "ModifiedEvents"
                ∧ (∃ new, issued (Calendar w') = new ++ issued (Calendar w)
                          ∧ Forall is_read new) →
          events (Calendar w') = events (Calendar w)
          ∧ refuses (Calendar w') = refuses (Calendar w)
          ∧ userCache w' !! "ModifiedEvents" = userCache w !! "ModifiedEvents"
          ∧ (∀ k, status w' k = status w k)
          ∧ ∃ new, issued (Calendar w') = new ++ issued (Calendar w) ∧ Forall is_read new)
    as Hstatus.
  { intros w' (? & ? & Hme & ?). repeat split; try done.
    intros k. unfold status, dirty_index. by rewrite Hme. }
  apply Hstatus. clear Hstatus.
  rewrite onCalendarEventOpen_run. cbv zeta.
  pose proof (after_fetch_frame e w) as (Hc0 & _ & He0 & Hr0 & _ & _ & new0 & Hq0 & Hnew0).
  destruct (truthy_opt (calendar_calendarId e)); cycle 1.
  { cbn [fst snd]. rewrite Hc0. repeat split; try done. by exists new0. }
  set (eventId := fetched e w ≫= λ _, calendar_id e).
  set (key := match eventId with
              | Some i => "selectedTags_" +:+ i
              | None => "selectedTags_new_" +:+ uuid_source w (uuid_drawn w)
              end).
  assert (key ≠ "ModifiedEvents") as Hkey by (subst key; by destruct eventId).
  set (w2 := match eventId with Some _ => _ | None => _ end).
  assert (events (Calendar w2) = events (Calendar w)
          ∧ refuses (Calendar w2) = refuses (Calendar w)
          ∧ userCache w2 !! "ModifiedEvents" = userCache w !! "ModifiedEvents"
          ∧ ∃ new, issued (Calendar w2) = new ++ issued (Calendar w) ∧ Forall is_read new)
    as (He2 & Hr2 & Hc2 & Hq2).
  { subst w2. destruct eventId; cbn [Utilities_getUuid snd Calendar userCache set_userCache];
      (rewrite lookup_insert_ne by done); rewrite Hc0; repeat split; try done;
      by exists new0. }
  clearbody w2.
  assert (∀ tags t w3,
            userCache w3 !! "ModifiedEvents" = userCache w !! "ModifiedEvents" →
            events (Calendar w3) = events (Calendar w) →
            refuses (Calendar w3) = refuses (Calendar w) →
            (∃ new, issued (Calendar w3) = new ++ issued (Calendar w) ∧ Forall is_read new) →
            let w' := (showTagDialog tags key t w3).2 in
            events (Calendar w') = events (Calendar w)
            ∧ refuses (Calendar w') = refuses (Calendar w)
            ∧ userCache w' !! "ModifiedEvents" = userCache w !! "ModifiedEvents"
            ∧ ∃ new, issued (Calendar w') = new ++ issued (Calendar w) ∧ Forall is_read new)
    as Hshow.
  { intros tags t w3 Hc3 He3 Hr3 Hq3.
    pose proof (showTagDialog_frame tags key t w3) as (Hcache & Hcalendar & _).
    cbv zeta in *. by rewrite Hcache, Hcalendar. }
  destruct (JSON_parse _) as [selectedTags|err]; [|done].
  destruct (truthy selectedTags).
  - destruct (new_Set selectedTags) as [shown|err]; [|done]. by apply Hshow.
  - match goal with
    | |- context [initialTags ?c0 ?i ?t ?a ?w0] =>
        pose proof (initialTags_frame c0 i t a w0) as (Hc3 & He3 & Hr3 & Hq3 & _);
        destruct (initialTags c0 i t a w0) as [[[tags title]|err] w3]
    end; cbn [fst snd] in *.
    + apply Hshow; cbn [userCache set_userCache Calendar].
      * rewrite lookup_insert_ne by done. by rewrite Hc3.
      * by rewrite He3.
      * by rewrite Hr3.
      * destruct Hq3 as (new3 & -> & Hnew3). destruct Hq2 as (new2 & -> & Hnew2).
        exists (new3 ++ new2). split; [by rewrite app_assoc|]. by apply Forall_app.
    + rewrite Hc3, He3, Hr3. repeat split; try done.
      destruct Hq3 as (new3 & -> & Hnew3). destruct Hq2 as (new2 & -> & Hnew2).
      exists (new3 ++ new2). split; [by rewrite app_assoc|]. by apply Forall_app.
Qed.

Lemma startsWith_app (p s : string) : startsWith (p +:+ s) p = true.
Proof.
  induction p as [|c p IH]; [by destruct s|].
  rewrite append_cons. cbn [startsWith]. by rewrite decide_True.
Qed.

Lemma staging_key_issued (eventId : option string) (uuid : string) :
  staging_key match eventId with
              | Some i => "selectedTags_" +:+ i
              | None => "selectedTags_new_" +:+ uuid
              end.
Proof.
  unfold staging_key. destruct eventId as [i|]; [apply startsWith_app|].
  change ("selectedTags_new_" +:+ uuid) with ("selectedTags_" +:+ ("new_" +:+ uuid)).
  apply startsWith_app.
Qed.

Lemma initialTags_distinct (c : string) (eventId title : option string)
    (atts : list attendee) (w : world) (tags : list json) (t' : option string) :
  (initialTags c eventId title atts w).1 = Return (tags, t') → distinct tags.
Proof.
  unfold initialTags.
  assert (∃ loaded w1, loadSelectedTags c eventId w = (Return loaded, w1) ∧ distinct loaded)
    as (loaded & w1 & Hload & Hloaded).
  { destruct eventId as [i|].
    - rewrite loadSelectedTags_persisted. eexists _, _. split; [done|].
      apply persisted_distinct.
    - by exists [], w. }
  rewrite (bind_return _ _ _ _ _ Hload).
  set (cond := negb _ || _). clearbody cond.
  assert (∃ r2 w2, (if cond
                    then extractTagFromTitle title ≫= λ extractedTags,
                           mret (foldl Set_add loaded extractedTags)
                    else mret loaded) w1 = (r2, w2)
            ∧ ∀ selected, r2 = Return selected → distinct selected)
    as (r2 & w2 & Hsel & Hdistinct).
  { destruct cond; [|eexists _, _; split; [done|]; by intros ? [= <-]].
    unfold_M. destruct (extractTagFromTitle title w1) as [[x|e] w2]; eexists _, _;
      (split; [done|]); [|done].
    intros ? [= <-]. by apply foldl_Set_add_distinct. }
  destruct r2 as [selected|e]; [|by rewrite (bind_throw _ _ _ _ _ Hsel)].
  rewrite (bind_return _ _ _ _ _ Hsel).
  rewrite (bind_return _ _ _ _ _ (getAutoTagFromAttendees_table atts w2)).
  cbn [fst mret M_ret]. specialize (Hdistinct selected eq_refl).
  destruct (match domain_table w2 with Some _ => _ | None => _ end) as [t|];
    [destruct (truthy_string t)|]; intros [= <- _]; try done.
  by apply Set_add_distinct.
Qed.

(** X14: of the cache, [onCalendarEventOpen] removes nothing; an entry it
    writes is the calendar id, or under a staging key a list of tags
    without repetition that has [CACHE_TIME] to live. *)
Theorem open_writes (e : open_event) (w : world) (k : string) :
  let w' := (onCalendarEventOpen e w).2 in
  (is_Some (userCache w !! k) → is_Some (userCache w' !! k))
  ∧ ∀ v, userCache w' !! k = Some v →
      userCache w !! k = Some v
      ∨ (k = "calendarId" ∧ ∃ c, calendar_calendarId e = Some c ∧ v = (Raw c, 21600%N))
      ∨ (staging_key k ∧ ∃ tags, v = (Json (JArr tags), CACHE_TIME) ∧ distinct tags).
Proof.
  rewrite onCalendarEventOpen_run. cbv zeta.
  pose proof (after_fetch_frame e w) as (Hc0 & _).
  destruct (truthy_opt (calendar_calendarId e)) eqn:Hcal; cycle 1.
  { cbn [snd]. rewrite Hc0. split; [done|]. intros v Hv. by left. }
  destruct (calendar_calendarId e) as [c|]; [|done]. cbn [default]. unfold id.
  set (eventId := fetched e w ≫= λ _, calendar_id e).
  set (key := match eventId with
              | Some i => "selectedTags_" +:+ i
              | None => "selectedTags_new_" +:+ uuid_source w (uuid_drawn w)
              end).
  assert (staging_key key) as Hkey by apply staging_key_issued.
  set (w2 := match eventId with Some _ => _ | None => _ end).
  assert (userCache w2 = <["calendarId" := (Raw c, 21600%N)]> (userCache w)) as Hw2.
  { subst w2. destruct eventId; cbn; by rewrite Hc0. }
  clearbody w2.
  assert (∀ w3, userCache w3 = userCache w2 →
            (is_Some (userCache w !! k) → is_Some (userCache w3 !! k))
            ∧ ∀ v, userCache w3 !! k = Some v →
                userCache w !! k = Some v
                ∨ (k = "calendarId" ∧ ∃ c0, Some c = Some c0 ∧ v = (Raw c0, 21600%N))
                ∨ (staging_key k ∧ ∃ tags, v = (Json (JArr tags), CACHE_TIME)
                                           ∧ distinct tags)) as Hsame.
  { intros w3 ->. rewrite Hw2. destruct (decide (k = "calendarId")) as [->|Hk].
    - rewrite lookup_insert_eq. split; [by eexists|]. intros v [= <-]. right. left. eauto.
    - rewrite lookup_insert_ne by done. split; [done|]. intros v Hv. by left. }
  assert (∀ tags t w3, userCache w3 = userCache w2 →
            (is_Some (userCache w !! k)
             → is_Some (userCache (showTagDialog tags key t w3).2 !! k))
            ∧ ∀ v, userCache (showTagDialog tags key t w3).2 !! k = Some v →
                userCache w !! k = Some v
                ∨ (k = "calendarId" ∧ ∃ c0, Some c = Some c0 ∧ v = (Raw c0, 21600%N))
                ∨ (staging_key k ∧ ∃ tags, v = (Json (JArr tags), CACHE_TIME)
                                           ∧ distinct tags)) as Hshow.
  { intros tags t w3 H3. apply Hsame.
    pose proof (showTagDialog_frame tags key t w3) as (Hcache & _). cbv zeta in Hcache.
    by rewrite Hcache. }
  destruct (JSON_parse _) as [selectedTags|err]; [|by apply Hsame].
  destruct (truthy selectedTags).
  - destruct (new_Set selectedTags); [by apply Hshow|by apply Hsame].
  - match goal with
    | |- context [initialTags ?c0 ?i ?t ?a ?w0] =>
        pose proof (initialTags_frame c0 i t a w0) as (Hc3 & _);
        pose proof (initialTags_distinct c0 i t a w0) as Hdistinct;
        destruct (initialTags c0 i t a w0) as [[[tags title]|err] w3]
    end; cbn [fst snd] in *; [|by apply Hsame].
    specialize (Hdistinct tags title eq_refl).
    match goal with
    | |- context [showTagDialog ?s ?k0 ?t ?w0] =>
        pose proof (showTagDialog_frame s k0 t w0) as (Hcache & _)
    end.
    cbv zeta in Hcache. rewrite Hcache. cbn [userCache set_userCache]. rewrite Hc3.
    destruct (decide (k = key)) as [->|Hk].
    + rewrite lookup_insert_eq. split; [by eexists|]. intros v [= <-]. right. right. eauto.
    + rewrite lookup_insert_ne by done. by apply (Hsame w2).
Qed.

(** X15: a card [onCalendarEventOpen] shows is titled with the summary of
    the event it fetched, with the empty title when it fetched none or the
    event has no summary: the attendee tag is never put before the title,
    as an event that was not fetched has no attendees. *)
Theorem open_title (e : open_event) (w : world) (r : response) :
  (onCalendarEventOpen e w).1 = Return r →
  (truthy_opt (calendar_calendarId e) = false
   ∧ r = errorCard "Calendar ID is not available. Please try again later.")
  ∨ (truthy_opt (calendar_calendarId e) = true
     ∧ ∃ c0, r = pushCard c0 ∧ card_title c0 = or_empty (fetched e w ≫= summary)).
Proof.
  rewrite onCalendarEventOpen_run. cbv zeta.
  destruct (truthy_opt (calendar_calendarId e)); [|intros [= <-]; by left].
  intros Hret. right. split; [done|].
  set (eventId := fetched e w ≫= λ _, calendar_id e) in *.
  set (key := match eventId with Some i => _ | None => _ end) in *. clearbody key.
  set (w2 := match eventId with Some _ => _ | None => _ end) in *. clearbody w2.
  destruct (JSON_parse _) as [selectedTags|err]; [|done].
  destruct (truthy selectedTags).
  - destruct (new_Set selectedTags) as [shown|err]; [|done].
    by apply (showTagDialog_frame shown key _ w2).
  - match type of Hret with
    | context [initialTags ?c0 ?i ?t ?a ?w0] =>
        pose proof (initialTags_frame c0 i t a w0) as (_ & _ & _ & _ & Htitle);
        destruct (initialTags c0 i t a w0) as [[[tags title]|err] w3]
    end; [|done].
    cbn [fst] in Htitle. rewrite <- (Htitle tags title eq_refl).
    + match type of Hret with
      | (showTagDialog ?s ?k ?t ?w0).1 = _ => by apply (showTagDialog_frame s k t w0)
      end.
    + subst eventId. destruct (fetched e w) as [ev|] eqn:Hf; [left|by right].
      unfold fetched in Hf. cbn [mbind option_bind]. by destruct (calendar_id e).
Qed.

Lemma open_title_witness :
  ∃ r, (onCalendarEventOpen Sample.open_e1 Sample.tagged_world).1 = Return r
       ∧ ∃ c0, r = pushCard c0 ∧ card_title c0 = "Review".
Proof.
  eexists. split; [vm_compute; reflexivity|].
  match goal with
  | |- ∃ c0, ?r = _ ∧ _ =>
      destruct (open_title Sample.open_e1 Sample.tagged_world r)
        as [[Hcal _]|(_ & c0 & Hr & Htitle)]
  end.
  - vm_compute. reflexivity.
  - discriminate.
  - by exists c0.
Defined.

(** *** What a pass reads and writes *)

Lemma same_but_tags_refl (ev : event) : same_but_tags ev ev.
Proof. by repeat split. Qed.

Lemma same_but_tags_trans (ev1 ev2 ev3 : event) :
  same_but_tags ev1 ev2 → same_but_tags ev2 ev3 → same_but_tags ev1 ev3.
Proof.
  intros (H1 & H2 & H3 & H4) (H1' & H2' & H3' & H4'). repeat split; try congruence.
  intros k Hk. by rewrite H4', H4.
Qed.

Lemma write_selectedTags_same (ev ev' : event) (value : text) :
  write_selectedTags ev value = Return ev' → same_but_tags ev ev'.
Proof.
  unfold write_selectedTags.
  destruct (extendedProperties ev) as [[[pr|] sh]|] eqn:Hep; simpl; [|done|];
    intros [= <-]; repeat split; unfold shared_properties, private_property;
    rewrite ?Hep; simpl; try done;
    intros k Hk; by rewrite lookup_insert_ne.
Qed.

Lemma flushed_refl (c : string) (w : world) : flushed c w w.
Proof.
  repeat split; try done.
  - intros x. destruct (events _ !! x); constructor. apply same_but_tags_refl.
  - by exists [].
Qed.

Lemma flushed_trans (c : string) (w1 w2 w3 : world) :
  flushed c w1 w2 → flushed c w2 w3 → flushed c w1 w3.
Proof.
  intros (He & Hr & Hp & Hs & new & Hq & Hnew) (He' & Hr' & Hp' & Hs' & new' & Hq' & Hnew').
  repeat split; try congruence.
  - intros x. specialize (He x). specialize (He' x).
    destruct He as [ev1 ev2 H12|]; inversion He' as [? ev3 H23|]; subst; constructor.
    by eapply same_but_tags_trans.
  - exists (new' ++ new). split; [by rewrite Hq', Hq, app_assoc|]. by apply Forall_app.
Qed.

Lemma saveTags_body_flushed (c : string) (stack : json) (key : string) (w : world) :
  flushed c w (saveTags_body c stack key w).2.
Proof.
  unfold saveTags_body.
  destruct (is_dirty stack key); [|apply flushed_refl].
  unfold userCache_get, userCache_remove, Calendar_Events_get, Calendar_Events_update, answer.
  unfold_M. destruct (JSON_parse _) as [sel|e]; [|apply flushed_refl]. cbn [fst snd].
  destruct (truthy sel); [|apply flushed_refl]. cbn [negb].
  destruct (truthy_opt (eventId_of key)); [|apply flushed_refl].
  set (i := default "" (eventId_of key)).
  assert (flushed c w (set_Calendar (issue (Events_get c i)) w)) as Hone.
  { repeat split; try done.
    - intros x. cbn. destruct (events _ !! x); constructor. apply same_but_tags_refl.
    - exists [Events_get c i]. split; [done|]. by repeat constructor. }
  destruct (refuses (Calendar w) (Events_get c i)); [done|].
  destruct (events (Calendar w) !! (c, i)) as [ev|] eqn:Hev; [|done].
  destruct (write_selectedTags ev _) as [ev'|e] eqn:Hwrite; [|done].
  cbn [fst snd Calendar set_Calendar refuses issue events].
  assert (flushed c w (set_Calendar (issue (Events_update c i))
                         (set_Calendar (issue (Events_get c i)) w))) as Htwo.
  { repeat split; try done.
    - intros x. cbn. destruct (events _ !! x); constructor. apply same_but_tags_refl.
    - exists [Events_update c i; Events_get c i]. split; [done|]. by repeat constructor. }
  destruct (refuses (Calendar w) (Events_update c i)); [done|].
  rewrite Hev. cbn [fst snd].
  destruct (set_property stack key (JStr "Clean")) as [stack'|e]; cbn [fst snd].
  all: repeat split; try done;
    [intros x; cbn; destruct (decide (x = (c, i))) as [->|Hx];
       [rewrite lookup_insert_eq, Hev; constructor; by eapply write_selectedTags_same
       |rewrite lookup_insert_ne by done; destruct (events _ !! x); constructor;
        apply same_but_tags_refl]
    |exists [Events_update c i; Events_get c i]; split; [done|]; by repeat constructor].
Qed.

Lemma saveTags_loop_flushed (c : string) (keys : list string) (stack : json) (w : world) :
  flushed c w (saveTags_loop c keys stack w).2.
Proof.
  revert stack w. induction keys as [|key keys IH]; intros stack w; [apply flushed_refl|].
  rewrite saveTags_loop_cons. pose proof (saveTags_body_flushed c stack key w) as Hbody.
  destruct (saveTags_body c stack key w) as [[stack'|e] w1]; cbn [snd] in *; [|done].
  eapply flushed_trans; [exact Hbody|apply IH].
Qed.

Lemma saveTagsFromCache_flushed (w : world) :
  flushed (default "" (cached_calendar w)) w (saveTagsFromCache w).2.
Proof.
  rewrite saveTagsFromCache_run.
  destruct (dirty_index w) as [stack|e]; [|apply flushed_refl].
  destruct (truthy stack); [|apply flushed_refl]. cbv zeta.
  destruct (truthy_string _); [|apply flushed_refl].
  pose proof (saveTags_loop_flushed (default "" (cached_calendar w))
                (for_in_keys stack) stack w) as Hloop.
  by destruct (saveTags_loop _ _ _ _) as [[stack'|e] w'].
Qed.

Lemma saveTags_loop_clean (c : string) (keys : list string) (stack : json) (w : world) :
  (∀ k, k ∈ keys → is_dirty stack k = false) →
  saveTags_loop c keys stack w = (Return stack, w).
Proof.
  induction keys as [|key keys IH]; intros Hclean; [done|].
  rewrite saveTags_loop_cons. unfold saveTags_body.
  rewrite (Hclean key) by left. cbn [mret M_ret]. apply IH.
  intros k Hk. apply Hclean. by right.
Qed.

(** X16: a pass of [saveTagsFromCache] with nothing to do: with no dirty
    index (or a falsy one), or with no cached calendar id, nothing changes
    at all; with an index none of whose keys is Dirty, the index is
    written back as it is with 21 seconds to live and nothing else
    changes. *)
Theorem flush_idle (w : world) :
  (∀ stack, dirty_index w = Return stack → truthy stack = false →
            saveTagsFromCache w = (Return (), w))
  ∧ (∀ stack, dirty_index w = Return stack →
              truthy_string (default "" (cached_calendar w)) = false →
              saveTagsFromCache w = (Return (), w))
  ∧ (∀ stack c, dirty_index w = Return stack → truthy stack = true →
                cached_calendar w = Some c → c ≠ "" →
                (∀ k, k ∈ for_in_keys stack → is_dirty stack k = false) →
                saveTagsFromCache w
                = (Return (), set_userCache <["ModifiedEvents" := (Json stack, 21%N)]> w)).
Proof.
  split; [|split].
  - intros stack Hindex Hfalsy. by rewrite saveTagsFromCache_run, Hindex, Hfalsy.
  - intros stack Hindex Hcal. rewrite saveTagsFromCache_run, Hindex. cbv zeta.
    rewrite Hcal. by destruct (truthy stack).
  - intros stack c Hindex Htruthy Hcal Hc Hclean.
    rewrite saveTagsFromCache_run, Hindex, Htruthy, Hcal. cbv zeta. cbn [default].
    unfold id, truthy_string. rewrite bool_decide_eq_false_2 by done. cbn [negb].
    by rewrite saveTags_loop_clean.
Qed.

Lemma flush_idle_witness :
  saveTagsFromCache Sample.idle_world
  = (Return (),
     set_userCache
       <["ModifiedEvents" := (Json (JObj [("selectedTags_e1", JStr "Clean")]), 21%N)]>
       Sample.idle_world).
Proof.
  apply (proj2 (proj2 (flush_idle Sample.idle_world)) _ "primary");
    try reflexivity; try discriminate.
  intros k [->|Hk]%elem_of_cons; [reflexivity|]. by apply elem_of_nil in Hk.
Defined.

Lemma open_caches_calendar (e : open_event) (w : world) :
  truthy_opt (calendar_calendarId e) = true →
  cached_calendar (onCalendarEventOpen e w).2 = calendar_calendarId e.
Proof.
  intros Hcal. rewrite onCalendarEventOpen_run. cbv zeta. rewrite Hcal.
  destruct (calendar_calendarId e) as [c|] eqn:Hc; [|done]. cbn [default]. unfold id.
  set (eventId := fetched e w ≫= λ _, calendar_id e).
  set (key := match eventId with
              | Some i => "selectedTags_" +:+ i
              | None => "selectedTags_new_" +:+ uuid_source w (uuid_drawn w)
              end).
  assert (key ≠ "calendarId") as Hkey by (subst key; by destruct eventId).
  set (w2 := match eventId with Some _ => _ | None => _ end).
  assert (userCache w2 !! "calendarId" = Some (Raw c, 21600%N)) as Hw2.
  { subst w2. destruct eventId; cbn; by rewrite lookup_insert_eq. }
  clearbody w2.
  assert (∀ w3, userCache w3 !! "calendarId" = Some (Raw c, 21600%N) →
                cached_calendar w3 = Some c) as Hcached.
  { intros w3 H3. unfold cached_calendar. by rewrite H3. }
  assert (∀ tags t w3, userCache w3 !! "calendarId" = Some (Raw c, 21600%N) →
            cached_calendar (showTagDialog tags key t w3).2 = Some c) as Hshow.
  { intros tags t w3 H3. apply Hcached.
    pose proof (showTagDialog_frame tags key t w3) as (Hcache & _).
    cbv zeta in Hcache. by rewrite Hcache. }
  destruct (JSON_parse _) as [selectedTags|err]; [|by apply Hcached].
  destruct (truthy selectedTags).
  - destruct (new_Set selectedTags); [by apply Hshow|by apply Hcached].
  - match goal with
    | |- context [initialTags ?c0 ?i ?t ?a ?w0] =>
        pose proof (initialTags_frame c0 i t a w0) as (Hc3 & _);
        destruct (initialTags c0 i t a w0) as [[[tags title]|err] w3]
    end; cbn [fst snd] in *.
    + apply Hshow. cbn. rewrite lookup_insert_ne by done. by rewrite Hc3.
    + apply Hcached. by rewrite Hc3.
Qed.

(** X17: the calendar [saveTagsFromCache] writes to is the one of the
    event opened last: after [onCalendarEventOpen] with a calendar id that
    id is cached, and every request of the next pass names it, whichever
    calendar the Dirty keys were staged for. *)
Theorem flush_follows_last_open (e : open_event) (w : world) :
  truthy_opt (calendar_calendarId e) = true →
  let w1 := (onCalendarEventOpen e w).2 in
  let w2 := (saveTagsFromCache w1).2 in
  cached_calendar w1 = calendar_calendarId e
  ∧ ∃ new, issued (Calendar w2) = new ++ issued (Calendar w1)
           ∧ Forall (λ q, request_calendar q = default "" (calendar_calendarId e)) new.
Proof.
  intros Hcal w1 w2. pose proof (open_caches_calendar e w Hcal) as Hcached.
  split; [done|].
  pose proof (saveTagsFromCache_flushed w1) as (_ & _ & _ & _ & Hnew).
  fold w1 in Hcached. by rewrite Hcached in Hnew.
Qed.

Lemma flush_follows_last_open_witness :
  let w1 := (onCalendarEventOpen Sample.open_new_team Sample.three_key_world).2 in
  let w2 := (saveTagsFromCache w1).2 in
  cached_calendar w1 = Some "team"
  ∧ ∃ new, issued (Calendar w2) = new ++ issued (Calendar w1)
           ∧ Forall (λ q, request_calendar q = "team") new.
Proof.
  apply (flush_follows_last_open Sample.open_new_team Sample.three_key_world). reflexivity.
Defined.

(** X18: whatever the state, [saveTagsFromCache] neither creates nor
    deletes an event, and an event after the pass is the event before it
    but for its private [selectedTags] property; what the calendar
    refuses, the settings, the memoized catalogue and the spreadsheets are
    untouched. *)
Theorem flush_touches_tags_only (w : world) :
  let w' := (saveTagsFromCache w).2 in
  (∀ x, option_Forall2 same_but_tags (events (Calendar w) !! x) (events (Calendar w') !! x))
  ∧ refuses (Calendar w') = refuses (Calendar w)
  ∧ userProperties w' = userProperties w
  ∧ SpreadsheetApp w' = SpreadsheetApp w.
Proof.
  pose proof (saveTagsFromCache_flushed w) as (He & Hr & Hp & Hs & _). by repeat split.
Qed.

Lemma is_dirty_update_clean (fs : list (string * json)) (key k : string) :
  existsb (has_key key) fs = true →
  is_dirty (JObj (update_field key (JStr "Clean") fs)) k = true →
  is_dirty (JObj fs) k = true.
Proof.
  intros Hhas. unfold is_dirty. cbn [get_property].
  destruct (decide (k = key)) as [->|Hk].
  - by rewrite find_update_field.
  - by rewrite find_update_field_other.
Qed.

Lemma saveTags_body_index (c key : string) (fs : list (string * json)) (w : world) :
  match (saveTags_body c (JObj fs) key w).1 with
  | Return stack =>
      ∃ fs', stack = JObj fs' ∧ fst <$> fs' = fst <$> fs
             ∧ ∀ k, is_dirty (JObj fs') k = true → is_dirty (JObj fs) k = true
  | Throw _ => True
  end.
Proof.
  rewrite saveTags_body_run.
  assert (∃ fs', JObj fs = JObj fs' ∧ fst <$> fs' = fst <$> fs
                 ∧ ∀ k, is_dirty (JObj fs') k = true → is_dirty (JObj fs) k = true)
    as Hsame by (by exists fs).
  destruct (is_dirty (JObj fs) key) eqn:Hdirty; [|done].
  destruct (JSON_parse _) as [sel|e]; [|done].
  destruct (truthy sel); [|done].
  destruct (target key) as [i|]; [|done]. cbv zeta.
  destruct (refuses _ (Events_get c i)); [done|].
  destruct (events _ !! _) as [ev|]; [|done].
  destruct (write_selectedTags _ _) as [ev'|e]; [|done].
  destruct (refuses _ (Events_update c i)); [done|]. cbn [fst].
  eexists. split; [done|]. split; [apply update_field_keys|].
  intros k. apply is_dirty_update_clean. by apply is_dirty_has_key.
Qed.

Lemma saveTags_loop_index (c : string) (keys : list string) (fs : list (string * json))
    (w : world) :
  match (saveTags_loop c keys (JObj fs) w).1 with
  | Return stack =>
      ∃ fs', stack = JObj fs' ∧ fst <$> fs' = fst <$> fs
             ∧ ∀ k, is_dirty (JObj fs') k = true → is_dirty (JObj fs) k = true
  | Throw _ => True
  end.
Proof.
  revert fs w. induction keys as [|key keys IH]; intros fs w; [by exists fs|].
  rewrite saveTags_loop_cons. pose proof (saveTags_body_index c key fs w) as Hbody.
  destruct (saveTags_body c (JObj fs) key w) as [[stack|e] w1]; cbn [fst] in *; [|done].
  destruct Hbody as (fs1 & -> & Hkeys1 & Hdirty1).
  specialize (IH fs1 w1).
  destruct (saveTags_loop c keys (JObj fs1) w1) as [[stack|e] w2]; cbn [fst] in *; [|done].
  destruct IH as (fs2 & -> & Hkeys2 & Hdirty2).
  exists fs2. split; [done|]. split; [congruence|]. intros k Hk. by apply Hdirty1, Hdirty2.
Qed.

(** X19: a pass that returns leaves in the dirty index the keys it found
    there, in their order: no key is removed and none added, and no key is
    Dirty afterwards that was not Dirty before. *)
Theorem flush_keeps_index_keys (w : world) (fs : list (string * json)) :
  dirty_index w = Return (JObj fs) →
  (saveTagsFromCache w).1 = Return () →
  ∃ fs', dirty_index (saveTagsFromCache w).2 = Return (JObj fs')
         ∧ fst <$> fs' = fst <$> fs
         ∧ ∀ k, is_dirty (JObj fs') k = true → is_dirty (JObj fs) k = true.
Proof.
  intros Hindex. rewrite saveTagsFromCache_run, Hindex. cbn [truthy]. cbv zeta.
  destruct (truthy_string _); [|intros _; by exists fs].
  pose proof (saveTags_loop_index (default "" (cached_calendar w)) (for_in_keys (JObj fs))
                fs w) as Hloop.
  destruct (saveTags_loop _ _ _ _) as [[stack|e] w1]; cbn [fst snd] in *; [|done].
  intros _. destruct Hloop as (fs' & -> & Hkeys & Hdirty). exists fs'.
  split; [|done]. unfold dirty_index. cbn. by rewrite lookup_insert_eq.
Qed.

Lemma flush_keeps_index_keys_witness :
  ∃ fs', dirty_index (saveTagsFromCache Sample.three_key_world).2 = Return (JObj fs')
         ∧ fst <$> fs' = ["selectedTags_e1"; "selectedTags_e2"; "selectedTags_e3"]
         ∧ ∀ k, is_dirty (JObj fs') k = true →
                is_dirty (Sample.dirty ["selectedTags_e1"; "selectedTags_e2";
                                        "selectedTags_e3"]) k = true.
Proof.
  exact (flush_keeps_index_keys Sample.three_key_world
           [("selectedTags_e1", JStr "Dirty"); ("selectedTags_e2", JStr "Dirty");
            ("selectedTags_e3", JStr "Dirty")] eq_refl eq_refl).
Defined.

(** X20: what a pass writes is what [loadSelectedTags] reads: for a Dirty
    key of an existing event whose fetch and update go through, loading
    the tags of the event after the pass gives the staged list as a set,
    and the event is the one before but for its saved tags. *)
Theorem flush_then_load (w : world) (fs : list (string * json)) (c key i : string)
    (tags : list json) (ev : event) :
  dirty_index w = Return (JObj fs) →
  NoDup (fst <$> fs) → Forall staging_key (fst <$> fs) →
  cached_calendar w = Some c → c ≠ "" →
  (∀ k, k ∈ fst <$> fs → is_dirty (JObj fs) k = true →
        ∃ j, JSON_parse (fst <$> userCache w !! k) = Return j) →
  is_dirty (JObj fs) key = true → target key = Some i →
  fst <$> userCache w !! key = Some (Json (JArr tags)) →
  remote_ok w c i ev → takes_tags ev →
  refuses (Calendar w) (Events_get_fields c i) = false →
  let w' := (saveTagsFromCache w).2 in
  (loadSelectedTags c (Some i) w').1 = Return (Set_of_list tags)
  ∧ ∃ ev', events (Calendar w') !! (c, i) = Some ev' ∧ same_but_tags ev ev'.
Proof.
  intros Hindex Hnodup Hstaging Hcal Hc Hparse Hdirty Htarget Hstaged Hok Htakes Hfields w'.
  pose proof (saveTagsFromCache_flushed w) as (Hevents & Hrefuses & _).
  fold w' in Hevents, Hrefuses.
  assert (∃ ev', events (Calendar w') !! (c, i) = Some ev'
                 ∧ saved_selectedTags ev' = Some (Json (JArr tags))) as (ev' & Hev' & Hsaved).
  { subst w'. rewrite saveTagsFromCache_run, Hindex, Hcal.
    cbn [truthy default for_in_keys]. cbv zeta.
    unfold id, truthy_string. rewrite bool_decide_eq_false_2 by done. cbn [negb].
    pose proof (is_dirty_key fs key Hdirty) as Hin.
    destruct (saveTags_loop_key c key i (fst <$> fs) fs tags w
                Hnodup Hstaging Hparse Hin Hdirty Htarget Hstaged)
      as (fs' & w1 & -> & _ & Hdone).
    destruct (Hdone ev Hok Htakes) as (_ & _ & ev' & Hev' & Hsaved). by exists ev'. }
  split.
  - rewrite loadSelectedTags_persisted. cbn [fst]. unfold persisted.
    rewrite Hrefuses, Hfields, Hev', Hsaved. reflexivity.
  - exists ev'. split; [done|]. specialize (Hevents (c, i)).
    destruct Hok as (_ & Hev & _). rewrite Hev, Hev' in Hevents. by inversion Hevents.
Qed.

Lemma flush_then_load_witness :
  let w := Sample.three_key_world in
  let w' := (saveTagsFromCache w).2 in
  (loadSelectedTags "primary" (Some "e1") w').1 = Return [JStr "#Work"]
  ∧ ∃ ev', events (Calendar w') !! ("primary", "e1") = Some ev'
           ∧ same_but_tags (Sample.plain_event "Standup") ev'.
Proof.
  intros w w'.
  destruct three_keys_hyps as (Hindex & Hnodup & Hstaging & Hcal & Hc & Hparse).
  apply (flush_then_load w _ "primary" "selectedTags_e1" "e1" [JStr "#Work"]
           (Sample.plain_event "Standup") Hindex Hnodup Hstaging Hcal Hc Hparse);
    try reflexivity.
  - by repeat split.
  - by intros ep.
Defined.

Lemma saveTags_loop_payload (c key i : string) (keys : list string)
    (fs : list (string * json)) (payload : json) (w : world) :
  NoDup keys → Forall staging_key keys →
  (∀ k, k ∈ keys → is_dirty (JObj fs) k = true →
        ∃ j, JSON_parse (fst <$> userCache w !! k) = Return j) →
  key ∈ keys → is_dirty (JObj fs) key = true → target key = Some i →
  fst <$> userCache w !! key = Some (Json payload) → truthy payload = true →
  ∃ fs' w',
    saveTags_loop c keys (JObj fs) w = (Return (JObj fs'), w')
    ∧ (remote_fails w c i →
       get_property (JObj fs') key = Some (JStr "Dirty")
       ∧ userCache w' !! key = userCache w !! key)
    ∧ (∀ ev, remote_ok w c i ev → takes_tags ev →
         get_property (JObj fs') key = Some (JStr "Clean")
         ∧ userCache w' !! key = None
         ∧ ∃ ev', events (Calendar w') !! (c, i) = Some ev'
                  ∧ saved_selectedTags ev' = Some (Json (JArr (Array_from payload)))).
Proof.
  intros Hnodup Hstaging Hparse Hin Hdirty Htarget Hstaged Htruthy.
  destruct (saveTags_loop_returns c keys fs w Hnodup Hparse) as [stack Hret].
  apply list_elem_of_split in Hin as (pre & post & ->).
  apply NoDup_app in Hnodup as (_ & Hpre & Hpost).
  apply NoDup_cons in Hpost as [Hpost _].
  assert (key ∉ pre) as Hnotpre by (intros ?; apply (Hpre key); [done|left]).
  assert (∀ k j, k ∈ pre ++ key :: post → k ≠ key → target k = Some j → (c, i) ≠ (c, j))
    as Hother.
  { intros k j Hk Hne Hj [= <-]. apply Hne.
    rewrite Forall_forall in Hstaging.
    apply (target_inj k key i); auto. apply Hstaging. set_solver. }
  rewrite saveTags_loop_app in Hret |- *.
  pose proof (saveTags_loop_frame c pre fs w)
    as (Hcache1 & Hevents1 & Hrefuses1 & _ & Hstack1).
  cbv zeta in Hcache1, Hevents1, Hrefuses1, Hstack1.
  destruct (saveTags_loop c pre (JObj fs) w) as [[stack1|e] w1]; [|done].
  cbn [fst snd] in *. destruct Hstack1 as (fs1 & -> & Hkeys1 & Hget1).
  rewrite saveTags_loop_cons in Hret |- *. rewrite saveTags_body_run in Hret |- *.
  assert (is_dirty (JObj fs1) key = true) as Hdirty1.
  { apply is_dirty_status. rewrite Hget1 by (by intros ?). by apply is_dirty_status. }
  rewrite Hdirty1 in Hret |- *.
  rewrite Hcache1, Hstaged in Hret |- * by (by intros ?). cbn [JSON_parse] in Hret |- *.
  rewrite Htruthy in Hret |- *.
  rewrite Htarget in Hret |- *. cbv zeta in Hret |- *.
  rewrite Hrefuses1 in Hret |- *.
  rewrite (Hevents1 (c, i)) in Hret |- *
    by (intros k j Hk; apply Hother; [set_solver|by intros ->]).
  assert (∀ fs2 w2,
    (∃ stack', (saveTags_loop c post (JObj fs2) w2).1 = Return stack') →
    ∃ fs' w',
      saveTags_loop c post (JObj fs2) w2 = (Return (JObj fs'), w')
      ∧ get_property (JObj fs') key = get_property (JObj fs2) key
      ∧ userCache w' !! key = userCache w2 !! key
      ∧ events (Calendar w') !! (c, i) = events (Calendar w2) !! (c, i)) as Hrest.
  { intros fs2 w2 [stack' Hret2].
    pose proof (saveTags_loop_frame c post fs2 w2)
      as (Hcache3 & Hevents3 & _ & _ & Hstack3).
    cbv zeta in Hcache3, Hevents3, Hstack3.
    destruct (saveTags_loop c post (JObj fs2) w2) as [[stack3|e] w3]; [|done].
    cbn [fst snd] in *. destruct Hstack3 as (fs3 & -> & _ & Hget3).
    exists fs3, w3. split; [done|]. split; [by apply Hget3; intros ?|].
    split; [by apply Hcache3; intros ?|].
    apply Hevents3. intros k j Hk. apply Hother; [set_solver|by intros ->]. }
  assert (∀ w2,
    userCache w2 = userCache w1 → 
    (∃ stack', (saveTags_loop c post (JObj fs1) w2).1 = Return stack') →
    ∃ fs' w',
      saveTags_loop c post (JObj fs1) w2 = (Return (JObj fs'), w')
      ∧ get_property (JObj fs') key = Some (JStr "Dirty")
      ∧ userCache w' !! key = userCache w !! key) as Hkept.
  { intros w2 Hcache2 Hret2.
    destruct (Hrest fs1 w2 Hret2) as (fs' & w' & Hrun & Hget & Hcache & _).
    exists fs', w'. split; [done|]. split.
    - rewrite Hget. by apply is_dirty_status.
    - by rewrite Hcache, Hcache2, Hcache1. }
  destruct (refuses (Calendar w) (Events_get c i)) eqn:Hget.
  { match type of Hret with
    | (saveTags_loop _ _ _ ?w2).1 = _ =>
        destruct (Hkept w2 eq_refl (ex_intro _ _ Hret)) as (fs' & w' & Hrun & Hst & Hca)
    end.
    exists fs', w'. split; [done|]. split; [done|]. intros ev (? & ? & ?); congruence. }
  destruct (events (Calendar w) !! (c, i)) as [ev|] eqn:Hev.
  2:{ match type of Hret with
    | (saveTags_loop _ _ _ ?w2).1 = _ =>
        destruct (Hkept w2 eq_refl (ex_intro _ _ Hret)) as (fs' & w' & Hrun & Hst & Hca)
    end.
      exists fs', w'. split; [done|]. split; [done|]. intros ev (? & ? & ?); congruence. }
  destruct (write_selectedTags ev (Json (JArr (Array_from payload)))) as [ev'|e] eqn:Hwrite.
  2:{ match type of Hret with
    | (saveTags_loop _ _ _ ?w2).1 = _ =>
        destruct (Hkept w2 eq_refl (ex_intro _ _ Hret)) as (fs' & w' & Hrun & Hst & Hca)
    end.
      exists fs', w'. split; [done|]. split; [done|].
      intros ev0 (_ & Hev0 & _) Htakes. rewrite Hev in Hev0. injection Hev0 as <-.
      destruct (write_selectedTags_takes ev (Json (JArr (Array_from payload))) Htakes) as (? & ? & _).
      congruence. }
  destruct (refuses (Calendar w) (Events_update c i)) eqn:Hupdate.
  { match type of Hret with
    | (saveTags_loop _ _ _ ?w2).1 = _ =>
        destruct (Hkept w2 eq_refl (ex_intro _ _ Hret)) as (fs' & w' & Hrun & Hst & Hca)
    end.
    exists fs', w'. split; [done|]. split; [done|]. intros ev0 (? & ? & ?); congruence. }
  match type of Hret with
  | (saveTags_loop _ _ (JObj ?fs2) ?w2).1 = _ =>
      destruct (Hrest fs2 w2 (ex_intro _ _ Hret)) as (fs' & w' & Hrun & Hst & Hca & Hevs)
  end.
  exists fs', w'. split; [done|]. split.
  { intros [?|[?|?]]; congruence. }
  intros ev0 (_ & Hev0 & _) Htakes. rewrite Hev in Hev0. injection Hev0 as <-.
  rewrite Hst, Hca, Hevs.
  cbn [userCache set_userCache Calendar set_Calendar events].
  split; [|split].
  - cbn [get_property]. by rewrite find_update_field by (by apply is_dirty_has_key).
  - by rewrite lookup_delete_eq.
  - rewrite lookup_insert_eq. exists ev'. split; [done|].
    destruct (write_selectedTags_takes ev (Json (JArr (Array_from payload))) Htakes) as (ev'' & Hw & Hs).
    congruence.
Qed.

(** X24: whatever truthy value is staged under a Dirty key of an existing
    event is written back as [Array.from] gives it, in place of the tags
    saved before, and the key is marked Clean and its entry removed: a
    list as it is, a string as its characters, a number, [true] or an
    object as the empty list.  (An object that lists a [length] is left
    out.) *)
Theorem flush_writes_array_from (w : world) (fs : list (string * json)) (c key i : string)
    (payload : json) (ev : event) :
  dirty_index w = Return (JObj fs) →
  NoDup (fst <$> fs) → Forall staging_key (fst <$> fs) →
  cached_calendar w = Some c → c ≠ "" →
  (∀ k, k ∈ fst <$> fs → is_dirty (JObj fs) k = true →
        ∃ j, JSON_parse (fst <$> userCache w !! k) = Return j) →
  is_dirty (JObj fs) key = true → target key = Some i →
  fst <$> userCache w !! key = Some (Json payload) → truthy payload = true →
  (∀ fields, payload = JObj fields → get_property payload "length" = None) →
  remote_ok w c i ev → takes_tags ev →
  let w' := (saveTagsFromCache w).2 in
  status w' key = Some (JStr "Clean") ∧ userCache w' !! key = None
  ∧ ∃ ev', events (Calendar w') !! (c, i) = Some ev'
           ∧ saved_selectedTags ev' = Some (Json (JArr (Array_from payload))).
Proof.
  intros Hindex Hnodup Hstaging Hcal Hc Hparse Hdirty Htarget Hstaged Htruthy _ Hok Htakes w'.
  subst w'. rewrite saveTagsFromCache_run, Hindex, Hcal.
  cbn [truthy default for_in_keys]. cbv zeta.
  unfold id, truthy_string. rewrite bool_decide_eq_false_2 by done. cbn [negb].
  pose proof (is_dirty_key fs key Hdirty) as Hin.
  destruct (saveTags_loop_payload c key i (fst <$> fs) fs payload w
              Hnodup Hstaging Hparse Hin Hdirty Htarget Hstaged Htruthy)
    as (fs' & w1 & -> & _ & Hdone).
  destruct (Hdone ev Hok Htakes) as (Hst & Hca & Hev). cbn [fst snd].
  assert (key ≠ "ModifiedEvents") as Hne.
  { rewrite Forall_forall in Hstaging. by apply staging_key_shape, Hstaging. }
  split; [|split; [|done]].
  - unfold status, dirty_index. cbn [userCache set_userCache]. by rewrite lookup_insert_eq.
  - cbn [userCache set_userCache]. by rewrite lookup_insert_ne.
Qed.

Lemma flush_writes_array_from_witness :
  let w := Sample.object_payload_world in
  let w' := (saveTagsFromCache w).2 in
  saved_selectedTags Sample.tagged_event = Some (Json (JArr [JStr "#Work"]))
  ∧ status w' "selectedTags_e1" = Some (JStr "Clean")
  ∧ userCache w' !! "selectedTags_e1" = None
  ∧ ∃ ev', events (Calendar w') !! ("primary", "e1") = Some ev'
           ∧ saved_selectedTags ev' = Some (Json (JArr [])).
Proof.
  intros w w'. split; [reflexivity|].
  apply (flush_writes_array_from w [("selectedTags_e1", JStr "Dirty")] "primary"
           "selectedTags_e1" "e1" (JObj [("tag", JStr "#Work")]) Sample.tagged_event);
    try reflexivity.
  - apply (bool_decide_unpack _). vm_compute. exact I.
  - repeat constructor.
  - discriminate.
  - intros k Hk _. apply list_elem_of_singleton in Hk as ->. by eexists.
  - by repeat split.
  - intros ep [= <-]. by eexists.
Defined.

(** *** The home page *)

Lemma spreadsheet_tags_sources (w1 w2 : world) :
  same_sources w1 w2 → spreadsheet_tags w1 = spreadsheet_tags w2.
Proof. intros Hsame. unfold spreadsheet_tags. by rewrite (tag_column_sources w1 w2). Qed.

Lemma default_catalogue_nonempty (l : list string) :
  ∃ rest, keep_first (DEFAULT_USER_TAGS ++ l) = "#Work" :: rest.
Proof. by eexists. Qed.

Lemma createHomePageCard_memo (gt : json → outcome bool) (w : world) (l : list json) :
  userTags (userProperties w) = Some (Json (JArr l)) →
  createHomePageCard gt w =
    (Return {| input_spreadsheet_id := or_empty (spreadsheetId (userProperties w));
               input_sheet_name := or_empty (sheetName (userProperties w));
               input_column := or_empty (column (userProperties w));
               input_email_domain_column := or_empty (emailDomainColumn (userProperties w));
               currentTagsSection :=
                 if bool_decide (0 < length l) then buttonSet (home_tag_button <$> l)
                 else textParagraph "Error: Unable to retrieve tags. Please check your spreadsheet configuration and try refreshing." |},
     w).
Proof.
  intros Hmemo. unfold createHomePageCard. unfold_M. rewrite getUserTags_run, Hmemo.
  cbn [JSON_parse truthy length_positive]. by destruct (bool_decide _).
Qed.

(** X21: [handleSaveConfig] stores the four inputs of the form, deletes
    the memoized catalogue and confirms, and leaves cache, calendar and
    spreadsheets alone; the next [getUserTags] therefore computes the
    catalogue anew from the new settings, whatever was memoized before. *)
Theorem handleSaveConfig_resets (e : config_event) (w : world) :
  let w' := (handleSaveConfig e w).2 in
  (handleSaveConfig e w).1 = Return (notification "Configuration saved.")
  ∧ userProperties w' = saved_config e
  ∧ userCache w' = userCache w ∧ Calendar w' = Calendar w
  ∧ SpreadsheetApp w' = SpreadsheetApp w
  ∧ getUserTags w' =
      (let tags := keep_first (DEFAULT_USER_TAGS ++ spreadsheet_tags w') in
       (Return (catalog tags), (setProperty_userTags (JSON_stringify (catalog tags)) w').2)).
Proof.
  cbv zeta. split; [reflexivity|]. split; [reflexivity|]. split; [reflexivity|].
  split; [reflexivity|]. split; [reflexivity|].
  by rewrite getUserTags_run.
Qed.

(** X22: [handleRefreshTags] and [onHomePageOpen] never fail and never
    show the error paragraph: whatever was memoized, a string that is no
    JSON too, and however the engine compares a [length] that is no
    number with zero, they compute the catalogue anew, memoize it, and
    give the card with the four settings and one filled button for each
    tag of the catalogue, the default [#Work] first. *)
Theorem home_page_recomputes (gt : json → outcome bool) (w : world) :
  let tags := keep_first (DEFAULT_USER_TAGS ++ spreadsheet_tags w) in
  let w' := (setProperty_userTags (JSON_stringify (catalog tags)) w).2 in
  let card :=
    {| input_spreadsheet_id := or_empty (spreadsheetId (userProperties w));
       input_sheet_name := or_empty (sheetName (userProperties w));
       input_column := or_empty (column (userProperties w));
       input_email_domain_column := or_empty (emailDomainColumn (userProperties w));
       currentTagsSection := buttonSet (home_tag_button <$> (JStr <$> tags)) |} in
  handleRefreshTags gt w = (Return (updateHomeCard card), w')
  ∧ onHomePageOpen gt w = (Return card, w')
  ∧ ∃ rest, tags = "#Work" :: rest.
Proof.
  intros tags w' card.
  set (w0 := (deleteProperty_userTags w).2).
  assert (same_sources w0 w) as Hsame by (by repeat split).
  assert (getUserTags w0 = (Return (catalog tags), w')) as Hget.
  { rewrite getUserTags_run. cbn [w0 deleteProperty_userTags snd userProperties
      set_userProperties userTags JSON_parse truthy]. cbv zeta.
    by rewrite (spreadsheet_tags_sources _ w) by done. }
  destruct (default_catalogue_nonempty (spreadsheet_tags w)) as [rest Hrest]. fold tags in Hrest.
  assert (createHomePageCard gt w' = (Return card, w')) as Hcard.
  { rewrite (createHomePageCard_memo gt w' (JStr <$> tags)) by done.
    rewrite bool_decide_eq_true_2; [done|]. rewrite Hrest. simpl. lia. }
  assert (handleRefreshTags gt w = (Return (updateHomeCard card), w')) as Hrefresh.
  { unfold handleRefreshTags, try_catch.
    rewrite (bind_return _ _ w w0 ()) by done.
    rewrite (bind_return _ _ _ _ _ Hget).
    by rewrite (bind_return _ _ _ _ _ Hcard). }
  split; [exact Hrefresh|]. split; [|by exists rest].
  unfold onHomePageOpen. rewrite (bind_return _ _ _ _ _ Hrefresh).
  exact Hcard.
Qed.
